(** * MBUtil (mbutil/util.py): tile compaction and the upload pipeline

    A shallow embedding of the parts of [util.py] that rewrite a tile table
    into a blob store plus an address map ([compression_prepare],
    [compression_do], [compression_finalize]) and of the resumable, retrying
    upload path ([get_upload_url], [upload_file], [mbtiles_to_url]), together
    with the row transform [flip_y].

    Conventions.
    - Python integers are [Z]; [//] is [Z.div] (both round to the floor).
    - A blob ([bytes]) is a [list byte]; [==] on blobs is [=].
    - An SQLite table is the list of its rows in rowid order; an [insert]
      appends.  A Python exception on the storage side is [None].  Python
      integers have no bound, the integers of a table have 64 bits
      ([sql_int]); the rows of a view come in no fixed order.
    - The upload side runs in a small monad over a [World]: the token pool,
      the replies the two HTTP endpoints are going to give, and the trace of
      requests, sleeps and log lines.  A call returns, raises or is left
      waiting for a reply.  A GET goes through the retries of urllib3
      ([urlopen]), which answers some replies itself.
    - One worker is modelled; the thread pool of [mbtiles_to_url] appears as
      the list of tiles the producer hands to it.

    Layout: the definitions come first (storage, compaction, upload), then
    the properties (lists and tables, compaction, producer, token
    acquisition, upload attempts).

    The second part of the definitions covers the key of a tile
    ([upload_tile]), the producer of [pmtiles_to_url], the import of a
    directory ([disk_to_mbtiles]) and the export to one
    ([mbtiles_to_disk]); its properties follow those of the first part.
    - Strings are compared and split as lists of characters; [str] of an
      [int] is stdpp's [pretty], [int] of a string is [py_int].
    - A directory is a tree of listings, in the order [os.listdir] gives.
    - An exception of the import is an [Err]. *)

From Stdlib Require Import ZArith Lia.
From Stdlib.Strings Require Import Ascii String Byte.
From stdpp Require Import base option list list_numbers sorting strings gmap pretty.

Local Open Scope Z_scope.

(** ** Coordinate transform *)

(** [flip_y] (util.py:18).  For [zoom < 0] Python's [2**zoom] is a float;
    the integer model covers [0 ≤ zoom]. *)
Definition flip_y (zoom y : Z) : Z := (2 ^ zoom - 1) - y.

(** ** Storage model *)

Definition Blob := list byte.

#[global] Instance byte_eq_dec : EqDecision byte := Byte.byte_eq_dec.

(** A row of [tiles (zoom_level, tile_column, tile_row, tile_data)]. *)
Record Tile := mkTile {
  zoom_level : Z;
  tile_column : Z;
  tile_row : Z;
  tile_data : Blob
}.

(** A stored row of the [tiles] table with its SQLite rowid. *)
Record TileRow := mkRow { rowid : Z; row : Tile }.

(** A row of [images (tile_data, tile_id)]. *)
Record ImageRow := mkImage { img_tile_data : Blob; img_tile_id : Z }.

(** A row of [map (zoom_level, tile_column, tile_row, tile_id)]. *)
Record MapRow := mkMap {
  map_zoom_level : Z;
  map_tile_column : Z;
  map_tile_row : Z;
  map_tile_id : Z
}.

#[global] Instance Tile_eq_dec : EqDecision Tile.
Proof. solve_decision. Defined.
#[global] Instance TileRow_eq_dec : EqDecision TileRow.
Proof. solve_decision. Defined.
#[global] Instance ImageRow_eq_dec : EqDecision ImageRow.
Proof. solve_decision. Defined.
#[global] Instance MapRow_eq_dec : EqDecision MapRow.
Proof. solve_decision. Defined.

(** The key of the unique index [tile_index] / [map_index]. *)
Definition coords (t : Tile) : Z * Z * Z :=
  (zoom_level t, tile_column t, tile_row t).
Definition map_coords (m : MapRow) : Z * Z * Z :=
  (map_zoom_level m, map_tile_column m, map_tile_row m).

(** The database while [tiles] is still a table.  [images] and [map] exist
    only after [compression_prepare]. *)
Record Db := mkDb {
  db_tiles : list TileRow;
  db_images : option (list ImageRow);
  db_map : option (list MapRow)
}.

(** The database after [compression_finalize]: the table [tiles] is gone and
    [tiles] names the view over [map] and [images]. *)
Record CompactDb := mkCompactDb {
  c_images : list ImageRow;
  c_map : list MapRow
}.

(** [mbtiles_setup] (util.py:21): an empty [tiles] table with the unique
    index [tile_index]; no [images], no [map]. *)
Definition mbtiles_setup : Db := mkDb [] None None.

(** The rowid SQLite gives the next inserted row: one more than the largest
    rowid in the table, 1 for an empty table. *)
Definition next_rowid (tbl : list TileRow) : Z :=
  foldr (λ r acc, Z.max (rowid r) acc) 0 tbl + 1.

(** The integers a column of SQLite holds: 64 bits, signed.  Python's
    [sqlite3] raises OverflowError when a statement is given an [int]
    outside this range. *)
Definition sql_int (n : Z) : Prop := - 2 ^ 63 ≤ n < 2 ^ 63.
Definition sql_coords (t : Tile) : Prop :=
  sql_int (zoom_level t) ∧ sql_int (tile_column t) ∧ sql_int (tile_row t).

(** [insert into tiles ... values (z, x, y, data)] (util.py:246).  The unique
    index [tile_index] rejects a second row with the same coordinates
    (sqlite3.IntegrityError).  This is the statement on coordinates that are
    [sql_coords]; the OverflowError for the others is not modelled, and what
    is proved of an import of tiles read from names states [sql_coords] of
    them. *)
Definition insert_tile (t : Tile) (db : Db) : option Db :=
  if bool_decide (coords t ∈ (coords ∘ row) <$> db_tiles db) then None
  else Some (mkDb (db_tiles db ++ [mkRow (next_rowid (db_tiles db)) t])
                  (db_images db) (db_map db)).

(** Running [f] over a list, threading the state, stopping at the first
    exception: a Python [for] loop whose body may raise. *)
Fixpoint for_each {A S : Type} (f : A → S → option S) (l : list A) (s : S)
    : option S :=
  match l with
  | [] => Some s
  | a :: l' => s' ← f a s; for_each f l' s'
  end.

(** The tile inserts of [disk_to_mbtiles], in the order the files are read. *)
Definition insert_tiles (ts : list Tile) (db : Db) : option Db :=
  for_each insert_tile ts db.

(** The rows [k, k+1, ...] holding [ts]. *)
Fixpoint number_from (k : Z) (ts : list Tile) : list TileRow :=
  match ts with
  | [] => []
  | t :: ts' => mkRow k t :: number_from (k + 1) ts'
  end.

(** The table that inserting [ts] into a new [tiles] table leaves. *)
Definition table_of (ts : list Tile) : list TileRow := number_from 1 ts.

(** [compression_prepare] (util.py:54): [create table if not exists]. *)
Definition compression_prepare (db : Db) : Db :=
  mkDb (db_tiles db)
       (Some (default [] (db_images db)))
       (Some (default [] (db_map db))).

(** ** [compression_do] (util.py:84) *)

(** What survives a chunk: [last_id] and the two tables being filled. *)
Record Pass := mkPass {
  last_id : Z;
  images : list ImageRow;
  map_rows : list MapRow
}.

(** The per-chunk lists [ids] and [files], reset at every round. *)
Record Seen := mkSeen { ids : list Z; files : list Blob }.

(** [files.index(b)]: the first position holding [b]. *)
Definition index (b : Blob) (fs : list Blob) : option nat :=
  fst <$> list_find (λ f, f = b) fs.

(** The body of [for r in rows] (util.py:107-138).  [images.tile_id] has
    integer affinity, so the [str(last_id)] bound at util.py:129 is stored as
    the integer [last_id]. *)
Definition do_row (r : Tile) (st : Seen * Pass) : option (Seen * Pass) :=
  let '(sn, p) := st in
  if bool_decide (tile_data r ∈ files sn) then
    k ← index (tile_data r) (files sn);
    id ← ids sn !! k;
    Some (sn,
          mkPass (last_id p) (images p)
                 (map_rows p ++ [mkMap (zoom_level r) (tile_column r) (tile_row r) id]))
  else
    let last_id' := last_id p + 1 in
    Some (mkSeen (ids sn ++ [last_id']) (files sn ++ [tile_data r]),
          mkPass last_id'
                 (images p ++ [mkImage (tile_data r) last_id'])
                 (map_rows p ++ [mkMap (zoom_level r) (tile_column r) (tile_row r) last_id'])).

(** [select ... from tiles where rowid > lo and rowid <= hi] (util.py:102). *)
Definition select_rows (lo hi : Z) (tbl : list TileRow) : list TileRow :=
  filter (λ r, lo < rowid r ∧ rowid r ≤ hi) tbl.

(** One round of [for i in range(...)] (util.py:96-139). *)
Definition do_chunk (chunk : Z) (tbl : list TileRow) (i : Z) (p : Pass)
    : option Pass :=
  let rows := select_rows (i * chunk) ((i + 1) * chunk) tbl in
  snd <$> for_each do_row (row <$> rows) (mkSeen [] [], p).

(** Python's [range(n)]. *)
Definition range (n : Z) : list Z := seqZ 0 n.

(** [compression_do(cur, con, chunk, silent)].  [chunk = 0] raises
    ZeroDivisionError at [total_tiles // chunk].  Without an [images] or a
    [map] table the first insert raises sqlite3.OperationalError; a pass that
    selects no row inserts nothing and returns. *)
Definition compression_do (chunk : Z) (db : Db) : option Db :=
  if bool_decide (chunk = 0) then None
  else
    let total_tiles := Z.of_nat (length (db_tiles db)) in
    let rounds := range (total_tiles / chunk + 1) in
    match db_images db, db_map db with
    | Some imgs, Some mp =>
        p ← for_each (do_chunk chunk (db_tiles db)) rounds (mkPass 0 imgs mp);
        Some (mkDb (db_tiles db) (Some (images p)) (Some (map_rows p)))
    | _, _ =>
        if bool_decide
             (Forall (λ i, select_rows (i * chunk) ((i + 1) * chunk) (db_tiles db) = [])
                     rounds)
        then Some db else None
    end.

(** ** [compression_finalize] (util.py:141) *)

(** [map JOIN images on images.tile_id = map.tile_id], as a nested loop over
    [map].  The view has no [ORDER BY]: SQLite may return its rows in
    another order (grouped by image, for one), so only what holds of every
    permutation of this list is a property of the view. *)
Definition join_view (mp : list MapRow) (imgs : list ImageRow) : list Tile :=
  m ← mp;
  im ← filter (λ im, img_tile_id im = map_tile_id m) imgs;
  [mkTile (map_zoom_level m) (map_tile_column m) (map_tile_row m) (img_tile_data im)].

(** [drop table tiles; create view tiles ...; create unique index map_index
    ...; create unique index images_id ...].  A unique index over rows that
    repeat its key raises sqlite3.IntegrityError. *)
Definition compression_finalize (db : Db) : option CompactDb :=
  imgs ← db_images db;
  mp ← db_map db;
  if bool_decide (NoDup (map_coords <$> mp) ∧ NoDup (img_tile_id <$> imgs))
  then Some (mkCompactDb imgs mp)
  else None.

(** [select zoom_level, tile_column, tile_row, tile_data from tiles]. *)
Definition read_tiles (db : Db) : list Tile := row <$> db_tiles db.
Definition read_tiles_view (db : CompactDb) : list Tile :=
  join_view (c_map db) (c_images db).

(** [(zoom_level, tile_column, tile_row) → tile_data] as a reader sees it:
    the blobs stored under a coordinate. *)
Definition blobs_at (c : Z * Z * Z) (ts : list Tile) : list Blob :=
  tile_data <$> filter (λ t, coords t = c) ts.

(** The compaction of [disk_to_mbtiles] (util.py:274-277) with the chunk size
    as a parameter (the program passes 256). *)
Definition compress (chunk : Z) (db : Db) : option CompactDb :=
  compression_do chunk (compression_prepare db) ≫= compression_finalize.

Definition sample_tiles : list Tile :=
  [ mkTile 0 0 0 [x01]; mkTile 1 0 0 [x02]; mkTile 1 0 1 [x01]; mkTile 1 1 0 [x02] ].

(** A table after a delete: two rows, rowids 1 and 600. *)
Definition gap_table : list TileRow :=
  [ mkRow 1 (mkTile 0 0 0 [x01]); mkRow 600 (mkTile 1 0 0 [x02]) ].

(** ** Compaction: predicates used in the statements and proofs *)

(** What the per-chunk lists look like in the middle of a round that started
    with [last_id = L0]. *)
Definition chunk_wf (L0 : Z) (sn : Seen) (p : Pass) : Prop :=
  ids sn = seqZ (L0 + 1) (Z.of_nat (length (files sn)))
  ∧ last_id p = L0 + Z.of_nat (length (files sn))
  ∧ NoDup (files sn).

(** The round that selects a row, for a positive chunk size. *)
Definition chunk_index (chunk : Z) (r : TileRow) : Z := (rowid r - 1) / chunk.

(** What holds of [last_id] and [images] between rounds, for a pass that
    started on an empty [images] table: the ids handed out are [1 .. last_id],
    in order. *)
Definition pass_wf (p : Pass) : Prop :=
  0 ≤ last_id p ∧ img_tile_id <$> images p = seqZ 1 (last_id p).

(** What one round leaves behind: the blobs [fs] it stored under the ids
    [L0 + 1, L0 + 2, ...], and for every row it read an address entry that
    points at the stored copy of the row's blob. *)
Definition round_rel (imgs : list ImageRow) (rows : list TileRow)
    (ms : list MapRow) : Prop :=
  ∃ L0 fs,
    0 ≤ L0 ∧ NoDup fs
    ∧ (∀ (k : nat) b, fs !! k = Some b →
         imgs !! (Z.to_nat L0 + k)%nat = Some (mkImage b (L0 + 1 + Z.of_nat k)))
    ∧ Forall2 (λ r m, map_coords m = coords (row r)
                      ∧ ∃ k : nat, fs !! k = Some (tile_data (row r))
                                   ∧ map_tile_id m = L0 + 1 + Z.of_nat k) rows ms.

(** The database [disk_to_mbtiles] holds when it reaches the compaction:
    the table [mbtiles_setup] made, filled by the inserts of [ts]. *)
Definition imported (ts : list Tile) : Db := mkDb (table_of ts) None None.

(** An address entry [m] stands for the tile row [r] in the blob store
    [imgs]: same coordinates, and the one blob stored under its id is the
    row's blob. *)
Definition resolves (imgs : list ImageRow) (r : TileRow) (m : MapRow) : Prop :=
  map_coords m = coords (row r)
  ∧ 1 ≤ map_tile_id m
  ∧ imgs !! Z.to_nat (map_tile_id m - 1)
    = Some (mkImage (tile_data (row r)) (map_tile_id m)).

(** The spec's reading of the pass: blob ids follow blob equality over the
    whole table. *)
Definition dedup_exact (chunk : Z) (ts : list Tile) : Prop :=
  ∀ db' mp (i j : nat) ti tj mi mj,
    compression_do chunk (compression_prepare (imported ts)) = Some db' →
    db_map db' = Some mp →
    ts !! i = Some ti → ts !! j = Some tj →
    mp !! i = Some mi → mp !! j = Some mj →
    (tile_data ti = tile_data tj → map_tile_id mi = map_tile_id mj)
    ∧ (tile_data ti ≠ tile_data tj → map_tile_id mi ≠ map_tile_id mj).

(** The spec's reading of the counts: as many blobs as addresses exactly when
    the table holds no blob twice. *)
Definition counts_exact (chunk : Z) (ts : list Tile) : Prop :=
  ∀ db' imgs mp,
    compression_do chunk (compression_prepare (imported ts)) = Some db' →
    db_images db' = Some imgs → db_map db' = Some mp →
    length mp = length ts
    ∧ (∀ m, m ∈ mp → ∃ im, filter (λ im, img_tile_id im = map_tile_id m) imgs = [im])
    ∧ (length imgs ≤ length mp)%nat
    ∧ (length imgs = length mp ↔ NoDup (tile_data <$> ts)).

(** 257 tiles of zoom 9 in one column; tile [k] holds the one byte
    [k mod 256], so the first and the last tile hold the same blob and no
    other two do. *)
Definition byte_of (k : Z) : byte :=
  default x00 (Byte.of_N (Z.to_N (k mod 256))).
Definition wrap_tiles : list Tile :=
  (λ k, mkTile 9 0 k [byte_of k]) <$> seqZ 0 257.

(** ** The upload pipeline: what the code talks to *)

(** The exceptions the upload path can raise; [upload_file] catches all of
    them alike ([except Exception]). *)
Inductive Exn :=
| TypeError
| JSONDecodeError
| UnicodeDecodeError
| HTTPError
| InvalidHeader
| CouldNotAccessUrl
| GridsNotSupported.

(** The values [time.sleep] is called with: a number of seconds, or the text
    of a header ([resp.headers.get] returns header values as [str]). *)
Inductive PyVal := PyInt (n : Z) | PyStr (s : string).

(** A leased upload token: the dict [json.loads] returns.  [tok_obj] is the
    identity of the dict object; every [json.loads] makes a new object. *)
Record Token := mkToken {
  tok_obj : nat;
  uploadUrl : string;
  authorizationToken : string
}.

(** A reply of the token endpoint: status, the [Retry-After] header if the
    reply carries one, and the body read as JSON ([None]: not a JSON object
    with [uploadUrl] and [authorizationToken]). *)
Record LeaseResp := mkLease {
  lease_status : Z;
  lease_retry_after : option string;
  lease_json : option (string * string)
}.

(** What a POST to the upload endpoint comes back with: a reply (status, and
    whether its body decodes as UTF-8), or an exception of the transport. *)
Inductive PostResp :=
| PostReply (status : Z) (decodes : bool)
| PostFails.

(** What [upload_file] is given as [data]: a [bytes] object, the encoded JSON
    text of a dict ([json.dumps(d, indent=4).encode()], also [bytes]), or the
    JSON text itself ([json.dumps(d)], a [str]). *)
Inductive Payload :=
| Bytes (b : Blob)
| JsonBytes (obj : list (string * string))
| JsonStr (obj : list (string * string)).

Inductive LogLine :=
| LogAddedWorker (t : Token)
| LogSkip (key : string)
| LogSuccess (key : string)
| LogAttemptFailure (n : Z) (key : string)
| LogAttemptException (n : Z) (key : string) (e : Exn)
| LogFailure (key : string).

(** What a run does that can be seen from outside, in order. *)
Inductive Event :=
| EvGet
| EvSleep (secs : Z)
| EvPost (t : Token) (key : string) (r : PostResp)
| EvLog (l : LogLine).

(** The module-level state and the environment of one worker: the token pool
    [upload_urls] (a Python list: [append] and [pop] work at its end), what the
    two endpoints will answer to the next requests, the next object identity,
    and what has happened so far. *)
Record World := mkWorld {
  upload_urls : list Token;
  lease_replies : list LeaseResp;
  post_replies : list PostResp;
  next_obj : nat;
  trace : list Event
}.

(** A call returns, raises, or is still waiting for a reply the environment
    has not given. *)
Inductive Result (A : Type) : Type :=
| Ret (a : A) (w : World)
| Raise (e : Exn) (w : World)
| Blocked (w : World).
Arguments Ret {A} a w.
Arguments Raise {A} e w.
Arguments Blocked {A} w.

Definition world_of {A} (r : Result A) : World :=
  match r with Ret _ w | Raise _ w | Blocked w => w end.

Definition M (A : Type) : Type := World → Result A.

Definition ret {A} (a : A) : M A := λ w, Ret a w.

Definition bind {A B} (m : M A) (k : A → M B) : M B :=
  λ w, match m w with
       | Ret a w' => k a w'
       | Raise e w' => Raise e w'
       | Blocked w' => Blocked w'
       end.

Notation "'let*' x ':=' m 'in' k" := (bind m (λ x, k))
  (at level 10, x pattern, m at level 100, k at level 200).

Definition raise {A} (e : Exn) : M A := λ w, Raise e w.

(** [try: m except Exception as e: h e]. *)
Definition try_except {A} (m : M A) (h : Exn → M A) : M A :=
  λ w, match m w with
       | Raise e w' => h e w'
       | r => r
       end.

Definition emit (e : Event) : M unit :=
  λ w, Ret tt (mkWorld (upload_urls w) (lease_replies w) (post_replies w)
                       (next_obj w) (trace w ++ [e])).

Definition log (l : LogLine) : M unit := emit (EvLog l).

(** [time.sleep(v)]: a [str] argument raises TypeError. *)
Definition time_sleep (v : PyVal) : M unit :=
  match v with
  | PyInt n => emit (EvSleep n)
  | PyStr _ => raise TypeError
  end.

(** One request on the wire to the token endpoint, and its reply. *)
Definition wire_get : M LeaseResp :=
  λ w, let tr := trace w ++ [EvGet] in
       match lease_replies w with
       | [] => Blocked (mkWorld (upload_urls w) [] (post_replies w) (next_obj w) tr)
       | r :: rest =>
           Ret r (mkWorld (upload_urls w) rest (post_replies w) (next_obj w) tr)
       end.

(** [http] is a [urllib3.PoolManager] made without a [retries] argument, so
    every [http.request] runs under the library's [Retry(3)].  A reply to a
    GET with status 413, 429 or 503 that carries a non-empty [Retry-After]
    header is one the library answers itself while a retry is left
    ([Retry.is_retry] with [respect_retry_after_header]): it sleeps as the
    header says and sends the request again.  The caller gets the first reply
    that is not of this kind, or the fourth in a row. *)
Definition urllib3_retry (r : LeaseResp) : bool :=
  bool_decide (lease_status r = 413 ∨ lease_status r = 429 ∨ lease_status r = 503)
  && match lease_retry_after r with
     | Some v => negb (bool_decide (v = ""))
     | None => false
     end.

(** The white space and the digits of a header that gives seconds. *)
Definition header_space (c : ascii) : bool :=
  let n := Ascii.N_of_ascii c in
  ((9 <=? n) && (n <=? 13) || (n =? 32) || (n =? 133) || (n =? 160))%N.

Fixpoint skip_spaces (s : string) : string :=
  match s with
  | String c s' => if header_space c then skip_spaces s' else s
  | EmptyString => EmptyString
  end.

Fixpoint header_digits (acc : Z) (s : string) : option Z :=
  match s with
  | EmptyString => Some acc
  | String c s' =>
      let n := Ascii.N_of_ascii c in
      if ((48 <=? n) && (n <=? 57))%N
      then header_digits (acc * 10 + Z.of_N (n - 48)) s'
      else if String.eqb (skip_spaces s) "" then Some acc else None
  end.

(** [Retry.parse_retry_after] on a header that is a number of seconds
    ([^\s*[0-9]+\s*$], read by [int]).  A header of another form is an HTTP
    date, which the library waits for, or makes it raise; the model has no
    clock and raises [InvalidHeader] for all of them, and what is proved of
    the replies the library answers states that their headers give
    seconds. *)
Definition parse_retry_after (v : string) : option Z :=
  match skip_spaces v with
  | String c s' =>
      let n := Ascii.N_of_ascii c in
      if ((48 <=? n) && (n <=? 57))%N then header_digits 0 (String c s') else None
  | EmptyString => None
  end.

(** [Retry.sleep_for_retry]: [time.sleep] is called for a wait that is not
    zero. *)
Definition sleep_for_retry (r : LeaseResp) : M unit :=
  match lease_retry_after r ≫= parse_retry_after with
  | Some n => if bool_decide (n = 0) then ret tt else emit (EvSleep n)
  | None => raise InvalidHeader
  end.

(** [HTTPConnectionPool.urlopen] with [retries] retries left. *)
Fixpoint urlopen (retries : nat) : M LeaseResp :=
  let* resp := wire_get in
  match retries with
  | S retries' =>
      if urllib3_retry resp then
        let* _ := sleep_for_retry resp in
        urlopen retries'
      else ret resp
  | O => ret resp
  end.

(** [http.request("GET", url, ...)] to the token endpoint. *)
Definition http_get : M LeaseResp := urlopen 3.

(** [json.loads(resp.data)] and the reads [j["uploadUrl"]],
    [j["authorizationToken"]] of the log line (util.py:402-403). *)
Definition json_loads (r : LeaseResp) : M Token :=
  λ w, match lease_json r with
       | Some (u, a) =>
           Ret (mkToken (next_obj w) u a)
               (mkWorld (upload_urls w) (lease_replies w) (post_replies w)
                        (S (next_obj w)) (trace w))
       | None => Raise JSONDecodeError w
       end.

(** [resp.headers.get('Retry-After', s)]. *)
Definition headers_get_retry_after (r : LeaseResp) (s : Z) : PyVal :=
  match lease_retry_after r with
  | Some v => PyStr v
  | None => PyInt s
  end.

(** The [while True] loop of [get_upload_url] (util.py:399-412).  Every round
    takes one reply at least (four at most, when the library answers three
    itself); [fuel] bounds the rounds. *)
Fixpoint get_upload_url_loop (fuel : nat) (s : Z) : M Token :=
  match fuel with
  | O => λ w, Blocked w
  | S fuel' =>
      let* resp := http_get in
      if bool_decide (lease_status resp = 200) then
        let* j := json_loads resp in
        let* _ := log (LogAddedWorker j) in
        ret j
      else if bool_decide (lease_status resp = 429) then
        let* _ := time_sleep (headers_get_retry_after resp s) in
        get_upload_url_loop fuel' 1
      else if bool_decide (lease_status resp = 503) then
        let* _ := time_sleep (PyInt s) in
        get_upload_url_loop fuel' (s * 2)
      else raise CouldNotAccessUrl
  end.

(** [get_upload_url] (util.py:397).  A round past the last reply waits in
    [http_get], so one round more than there are replies is all the loop can
    make. *)
Definition get_upload_url : M Token :=
  λ w, get_upload_url_loop (S (length (lease_replies w))) 1 w.

(** ** Resume state (util.py:416-425) *)

(** [str.isspace] on the code points below 256. *)
Definition py_isspace (c : ascii) : bool :=
  let n := Ascii.N_of_ascii c in
  ((9 <=? n) && (n <=? 13) || (28 <=? n) && (n <=? 32)
   || (n =? 133) || (n =? 160))%N.

Fixpoint lstrip (s : string) : string :=
  match s with
  | String c s' => if py_isspace c then lstrip s' else s
  | EmptyString => EmptyString
  end.

(** [line.strip()]. *)
Definition strip (s : string) : string :=
  String.rev (lstrip (String.rev (lstrip s))).

Record Resume := mkResume {
  processed : gset string;
  failures : gset string;
  use_failures : bool
}.

(** [set(line.strip() for line in open(name))]; [None] stands for a file that
    cannot be opened or read (the bare [except]). *)
Definition read_keys (file : option (list string)) : option (gset string) :=
  (λ lines, list_to_set (strip <$> lines)) <$> file.

(** The module-level [try]/[except] blocks: [use_failures] is set once the
    failure file has been read, whatever it holds. *)
Definition load_resume (success_urls failure_urls : option (list string))
    : Resume :=
  mkResume (default ∅ (read_keys success_urls))
           (default ∅ (read_keys failure_urls))
           (bool_decide (is_Some (read_keys failure_urls))).

(** ** [upload_file] (util.py:427) *)

(** [sha1(data)]: hashing a [str] raises TypeError. *)
Definition sha1 (data : Payload) : M unit :=
  match data with
  | JsonStr _ => raise TypeError
  | _ => ret tt
  end.

(** [l.pop()] on a non-empty Python list: the last element and the rest. *)
Fixpoint list_pop {A} (l : list A) : option (list A * A) :=
  match l with
  | [] => None
  | x :: l' =>
      match list_pop l' with
      | None => Some ([], x)
      | Some (init, y) => Some (x :: init, y)
      end
  end.

(** util.py:439-442. *)
Definition take_token : M Token :=
  λ w, match list_pop (upload_urls w) with
       | Some (rest, t) =>
           Ret t (mkWorld rest (lease_replies w) (post_replies w)
                          (next_obj w) (trace w))
       | None => get_upload_url w
       end.

(** [upload_urls.append(t)]. *)
Definition pool_append (t : Token) : M unit :=
  λ w, Ret tt (mkWorld (upload_urls w ++ [t]) (lease_replies w)
                       (post_replies w) (next_obj w) (trace w)).

(** [http.request("POST", uploadurl['uploadUrl'], ...)]. *)
Definition http_post (t : Token) (key : string) : M (Z * bool) :=
  λ w, match post_replies w with
       | [] => Blocked w
       | r :: rest =>
           let w' := mkWorld (upload_urls w) (lease_replies w) rest (next_obj w)
                             (trace w ++ [EvPost t key r]) in
           match r with
           | PostReply status decodes => Ret (status, decodes) w'
           | PostFails => Raise HTTPError w'
           end
       end.

(** The body of [for attempt in range(0,5)] (util.py:436-468); [true] stands
    for the [return] after a 200. *)
Definition upload_attempt (data : Payload) (key : string) (attempt : Z)
    : M bool :=
  try_except
    (let* _ := sha1 data in
     let* uploadurl := take_token in
     let* resp1 := http_post uploadurl key in
     let '(status, decodes) := resp1 in
     let* _ := (if bool_decide (status ≠ 401) then pool_append uploadurl
                else ret tt) in
     if bool_decide (status = 200) then
       let* _ := log (LogSuccess key) in
       ret true
     else
       let* _ := (if bool_decide (status = 408 ∨ status = 429)
                  then time_sleep (PyInt 2) else ret tt) in
       let* _ := (if decodes then log (LogAttemptFailure (attempt + 1) key)
                  else raise UnicodeDecodeError) in
       ret false)
    (λ e, let* _ := log (LogAttemptException (attempt + 1) key e) in
          ret false).

(** The [for] loop and the line after it (util.py:435-469). *)
Fixpoint upload_attempts (data : Payload) (key : string) (attempts : list Z)
    : M unit :=
  match attempts with
  | [] => log (LogFailure key)
  | a :: rest =>
      let* ok := upload_attempt data key a in
      if ok : bool then ret tt else upload_attempts data key rest
  end.

Definition upload_file (R : Resume) (data : Payload) (key : string) : M unit :=
  if use_failures R then
    if bool_decide (key ∉ failures R) then log (LogSkip key)
    else upload_attempts data key (seqZ 0 5)
  else if bool_decide (key ∈ processed R) then log (LogSkip key)
  else upload_attempts data key (seqZ 0 5).

(** ** [mbtiles_to_url] (util.py:498): the producer *)

(** A row of [grids (zoom_level, tile_column, tile_row, grid)]. *)
Record GridRow := mkGrid {
  grid_zoom_level : Z;
  grid_tile_column : Z;
  grid_tile_row : Z;
  grid : Blob
}.

(** The MBTiles file the upload reads: [metadata], [tiles] (a table or the
    view of a compacted file), and [grids] when the file has that table. *)
Record Store := mkStore {
  st_metadata : list (string * string);
  st_tiles : list Tile;
  st_grids : option (list GridRow)
}.

(** What the producer thread does, in order: the [upload_file] calls it makes
    itself, the tiles it hands to the executor, and its log lines. *)
Inductive Action :=
| ActUpload (data : Payload) (key : string)
| ActSubmit (t : Tile)
| ActLogExecuting (executing : Z)
| ActLogExported (done count executing : Z).

(** The globals [done], [executing] and [sem], and the actions so far. *)
Record Producer := mkProducer {
  done : Z;
  executing : Z;
  permits : Z;
  actions : list Action
}.

Definition MAX_WORKERS : Z := 275.

Definition act (a : Action) (p : Producer) : Producer :=
  mkProducer (done p) (executing p) (permits p) (actions p ++ [a]).

(** [dict(rows).get(name)]: the last row with that name wins. *)
Definition dict_get (name : string) (rows : list (string * string))
    : option string :=
  snd <$> last (filter (λ kv, kv.1 = name) rows).

(** [os.path.join(prefix, name)] for a relative [name]. *)
Definition ends_with_slash (s : string) : bool :=
  match String.rev s with
  | String c _ => bool_decide (c = "/"%char)
  | EmptyString => false
  end.
Definition path_join (prefix name : string) : string :=
  if bool_decide (prefix = "") || ends_with_slash prefix then prefix +:+ name
  else prefix +:+ "/" +:+ name.

(** [select ... from tiles where zoom_level <= maxzoom] and the matching
    [select count(zoom_level) ...] (util.py:512, 519). *)
Definition tiles_upto (maxzoom : Z) (st : Store) : list Tile :=
  filter (λ t, zoom_level t ≤ maxzoom) (st_tiles st).
Definition count_upto (maxzoom : Z) (st : Store) : Z :=
  Z.of_nat (length (filter (λ t, zoom_level t ≤ maxzoom) (st_tiles st))).

(** [doneCb] (util.py:523), closed over [count] and [silent]. *)
Definition doneCb (silent : bool) (count : Z) (p : Producer) : Producer :=
  let p1 := mkProducer (done p + 1) (executing p - 1) (permits p + 1) (actions p) in
  if silent then p1
  else act (ActLogExported (done p1) count (executing p1)) p1.

(** One round of [while t:] (util.py:535-542), with the task finished by the
    time its callback is added, so that [doneCb] runs at once. *)
Definition submit_tile (silent : bool) (count : Z) (t : Tile) (p : Producer)
    : Producer :=
  let p1 := mkProducer (done p) (executing p) (permits p - 1) (actions p) in
  let p2 := act (ActSubmit t) p1 in
  let p3 := mkProducer (done p2) (executing p2 + 1) (permits p2) (actions p2) in
  let p4 := if silent then p3 else act (ActLogExecuting (executing p3)) p3 in
  doneCb silent count p4.

(** The cursor loop: [t = tiles.fetchone()] until the rows run out (a row is
    a non-empty tuple, hence true). *)
Fixpoint submit_tiles (silent : bool) (count : Z) (rows : list Tile)
    (p : Producer) : Producer :=
  match rows with
  | [] => p
  | t :: rest => submit_tiles silent count rest (submit_tile silent count t p)
  end.

Inductive Outcome := Completed | Raised (e : Exn).

(** [mbtiles_to_url(mbtiles_file, url, **kwargs)] with [maxzoom], [prefix] and
    [silent] taken from [kwargs].  The [upload_file] calls it makes itself are
    recorded as actions; each is taken to return. *)
Definition mbtiles_to_url (st : Store) (maxzoom : Z) (prefix : string)
    (silent : bool) (p0 : Producer) : Producer * Outcome :=
  let metadata := st_metadata st in
  let p1 := act (ActUpload (JsonBytes metadata) (path_join prefix "metadata.json")) p0 in
  let count := count_upto maxzoom st in
  let p2 :=
    match dict_get "formatter" metadata with
    | Some formatter =>
        if bool_decide (formatter = "") then p1
        else act (ActUpload (JsonStr [("formatter", formatter)])
                            (path_join prefix "layer.json")) p1
    | None => p1
    end in
  let tiles := tiles_upto maxzoom st in
  let p3 := mkProducer 0 0 (permits p2) (actions p2) in
  let p4 := submit_tiles silent count tiles p3 in
  let p5 := mkProducer 0 (executing p4) (permits p4) (actions p4) in
  let g := st_grids st ≫= head in
  match g with
  | Some _ => (p5, Raised GridsNotSupported)
  | None => (p5, Completed)
  end.

(** The tiles handed to the executor, in order. *)
Definition submitted (p : Producer) : list Tile :=
  omap (λ a, match a with ActSubmit t => Some t | _ => None end) (actions p).

(** The totals the progress lines report. *)
Definition reported_counts (p : Producer) : list Z :=
  omap (λ a, match a with ActLogExported _ c _ => Some c | _ => None end)
       (actions p).

(** The producer before its first run: [done = 0], [executing = 0] and a
    semaphore of [MAX_WORKERS] permits. *)
Definition idle : Producer := mkProducer 0 0 MAX_WORKERS [].

(** ** Reading a trace *)

(** The seconds slept, in order. *)
Definition sleeps (tr : list Event) : list Z :=
  omap (λ e, match e with EvSleep d => Some d | _ => None end) tr.

(** The POSTs made, in order, with the token used and what came back. *)
Definition posts (tr : list Event) : list (Token * PostResp) :=
  omap (λ e, match e with EvPost t _ r => Some (t, r) | _ => None end) tr.

(** The log lines about a key: everything but "added worker". *)
Definition key_lines (tr : list Event) : list LogLine :=
  omap (λ e, match e with
             | EvLog (LogAddedWorker _) => None
             | EvLog l => Some l
             | _ => None
             end) tr.

(** The POSTs made between the worlds [w] and [w']. *)
Definition posts_since (w w' : World) : list (Token * PostResp) :=
  drop (length (posts (trace w))) (posts (trace w')).

(** ** Token acquisition: the replies that make [get_upload_url] go round *)



(** The wait a header asks for, when it gives seconds. *)
Definition header_seconds (r : LeaseResp) : option Z :=
  lease_retry_after r ≫= parse_retry_after.


Definition library_events (hdr : list LeaseResp) : list Event :=
  r ← hdr;
  EvGet :: match header_seconds r with
           | Some n => if bool_decide (n = 0) then [] else [EvSleep n]
           | None => []
           end.

(** The seconds slept after each of the replies [pre], when [j] 503 replies
    have come in since the start or the last 429: a 503 doubles the next
    sleep, a 429 sets it back to one second. *)
Fixpoint backoff (j : nat) (pre : list LeaseResp) : list Z :=
  match pre with
  | [] => []
  | r :: pre' =>
      2 ^ Z.of_nat j
      :: backoff (if bool_decide (lease_status r = 429) then O else S j) pre'
  end.


(** The requests and sleeps of the rounds that end in a retry. *)
Definition retry_events (j : nat) (pre : list LeaseResp) : list Event :=
  d ← backoff j pre; [EvGet; EvSleep d].

(** A round of the loop: the replies the library answers itself during the
    request of the round, and the reply it hands to the loop. *)
Definition Round : Type := list LeaseResp * LeaseResp.





(** The requests and sleeps of rounds that end in a retry, round by round:
    those of the library, then the request that brings the reply handed on
    and the sleep of the loop, which follows the backoff over the replies
    handed on. *)
Definition round_events (j : nat) (rds : list Round) : list Event :=
  concat (zip_with (λ rd d, library_events rd.1 ++ [EvGet; EvSleep d])
                   rds (backoff j (snd <$> rds))).


(** ** Predicates on worlds and log lines used in the statements *)

(** The identities of the tokens in the pool. *)
Definition pool_ids (w : World) : list nat := tok_obj <$> upload_urls w.

(** No object is in the pool twice, and every object in the pool has been
    made already. *)
Definition wf_world (w : World) : Prop :=
  NoDup (pool_ids w) ∧ Forall (λ x, (x < next_obj w)%nat) (pool_ids w).



(** The resume filter lets [key] through to the upload attempts. *)
Definition eligible (R : Resume) (key : string) : Prop :=
  if use_failures R then key ∈ failures R else key ∉ processed R.

(** The part of an attempt that follows once the token [uploadurl] is in hand
    (util.py:443-466). *)
Definition post_with (key : string) (attempt : Z) (uploadurl : Token) : M bool :=
  let* resp1 := http_post uploadurl key in
  let '(status, decodes) := resp1 in
  let* _ := (if bool_decide (status ≠ 401) then pool_append uploadurl
             else ret tt) in
  if bool_decide (status = 200) then
    let* _ := log (LogSuccess key) in
    ret true
  else
    let* _ := (if bool_decide (status = 408 ∨ status = 429)
               then time_sleep (PyInt 2) else ret tt) in
    let* _ := (if decodes then log (LogAttemptFailure (attempt + 1) key)
               else raise UnicodeDecodeError) in
    ret false.

(** Where the token of a POST is afterwards: back at the end of the pool
    after every reply but a 401, and nowhere in the pool after a 401. *)
Definition token_after (pr : PostResp) (t : Token) (w' : World) : Prop :=
  match pr with
  | PostReply status _ =>
      if bool_decide (status = 401) then tok_obj t ∉ pool_ids w'
      else last (upload_urls w') = Some t
  | PostFails => True
  end.

(** ** Worlds for the examples *)

Definition lease_503 : LeaseResp := mkLease 503 None None.
Definition lease_429 : LeaseResp := mkLease 429 None None.
Definition lease_429_after (v : string) : LeaseResp := mkLease 429 (Some v) None.
Definition lease_200 (u a : string) : LeaseResp := mkLease 200 None (Some (u, a)).

(** A world with nothing in the pool and nothing done yet. *)
Definition fresh_world (leases : list LeaseResp) (replies : list PostResp)
    : World :=
  mkWorld [] leases replies 0 [].

(** A world for the examples: five tokens on offer, five uploads refused with
    a 500. *)
Definition refusing_world : World :=
  fresh_world (replicate 5 (lease_200 "https://pod/upload" "token"))
              (replicate 5 (PostReply 500 true)).

(** A world for the examples: the first upload is refused with a 401, the
    second one goes through; two tokens are on offer. *)
Definition expiring_world : World :=
  fresh_world [lease_200 "https://pod/upload" "stale";
               lease_200 "https://pod/upload" "valid"]
              [PostReply 401 true; PostReply 200 true].

(** ** The spec's readings used in the counterexamples *)

(** The spec's reading of the resume mode for a key [key]: a failure list
    that is present and non-empty selects exactly its keys; in every other
    case exactly the keys of the success list are skipped. *)
Definition resume_as_stated (success_urls failure_urls : option (list string))
    (data : Payload) (key : string) (w : World) : Prop :=
  let R := load_resume success_urls failure_urls in
  let skipped := upload_file R data key w = log (LogSkip key) w in
  match failure_urls with
  | Some (_ :: _) => skipped ↔ key ∉ failures R
  | _ => skipped ↔ key ∈ processed R
  end.





(** * Keys, PMTiles and the import of a directory *)

(** Every stored blob is pointed at: each row of [images] has an address
    entry with its id. *)
Definition referenced (imgs : list ImageRow) (mp : list MapRow) : Prop :=
  ∀ im, im ∈ imgs → ∃ m, m ∈ mp ∧ map_tile_id m = img_tile_id im.

(** The largest rowid the rounds of [compression_do] select from a table of
    [n] rows: the upper end of the last window, [(n // chunk + 1) * chunk]. *)
Definition last_rowid_read (chunk : Z) (n : nat) : Z :=
  (Z.of_nat n / chunk + 1) * chunk.

(** The requests made to the token endpoint, one [()] for each. *)
Definition gets (tr : list Event) : list unit :=
  omap (λ e, match e with EvGet => Some tt | _ => None end) tr.

(** An upload reply after which the token goes back to the pool: any status
    but 401. *)
Definition keeps_token (r : PostResp) : Prop :=
  match r with PostReply s _ => s ≠ 401 | PostFails => False end.

(** The lines the five attempts log when each raises [e], and the line after
    the loop. *)
Definition exhausted_by (e : Exn) (key : string) : list Event :=
  ((λ n, EvLog (LogAttemptException n key e)) <$> [1; 2; 3; 4; 5])
  ++ [EvLog (LogFailure key)].

(** The [upload_file] calls the producer makes itself, in order. *)
Definition uploads (p : Producer) : list (Payload * string) :=
  omap (λ a, match a with ActUpload d k => Some (d, k) | _ => None end) (actions p).

(** ** [upload_tile] (util.py:471) *)

(** [str(n)] for an [int]. *)
Definition py_str (n : Z) : string := pretty n.

(** ["%0wd" % n] for an [int]: the sign, zeros up to the width [w], the
    digits. *)
Definition zeros (k : nat) : string := string_of_list_ascii (replicate k "0"%char).
Definition fmt_0d (w : nat) (n : Z) : string :=
  let digits := py_str (Z.abs n) in
  let sign := if bool_decide (n < 0) then "-" else "" in
  sign +:+ zeros (w - String.length sign - String.length digits) +:+ digits.

(** ["%0wd" % (a / b)]: [/] gives a float, which [%d] cuts off towards zero.
    The model takes the quotient of the integers; the float cut off is this
    quotient for the coordinates of a tile pyramid (below 2^32, where the
    float has digits to spare behind the point). *)
Definition fmt_0d_quot (w : nat) (a b : Z) : string := fmt_0d w (Z.quot a b).

(** ["%0wd" % ((a / b) % m)] for [0 < b], [0 < m]: the float [a / b] reduced
    into [[0, m)] and cut off. *)
Definition fmt_0d_quot_mod (w : nat) (a b m : Z) : string :=
  fmt_0d w ((a / b) `mod` m).

(** [os.path.join(path, *names)] for relative [names]. *)
Definition os_path_join (path : string) (names : list string) : string :=
  foldl path_join path names.

(** What a call of [upload_tile] does: the debug lines it logs, then one call
    of [upload_file] with the tile's blob and a key. *)
Record TileCall := mkTileCall {
  tc_debug : list string;
  tc_data : Payload;
  tc_key : string
}.

(** [upload_tile(t, url, **kwargs)] with [scheme], [format], [prefix] and
    [silent] taken from [kwargs]; [format = None] stands for no ['format']
    entry. *)
Definition upload_tile (scheme format : option string) (prefix : string)
    (silent : bool) (t : Tile) : TileCall :=
  let z := zoom_level t in
  let x := tile_column t in
  let y := tile_row t in
  let '(y, debug, tile_dir) :=
    if bool_decide (scheme = Some "xyz") then
      (flip_y z y, (if silent then [] else ["flipping"]),
       os_path_join prefix [py_str z; py_str x])
    else if bool_decide (scheme = Some "wms") then
      (y, [],
       os_path_join prefix
         [fmt_0d 2 z;
          fmt_0d_quot 3 x 1000000;
          fmt_0d_quot_mod 3 x 1000 1000;
          fmt_0d 3 (x `mod` 1000);
          fmt_0d_quot 3 y 1000000;
          fmt_0d_quot_mod 3 y 1000 1000])
    else
      (y, [], os_path_join prefix [py_str z; py_str x]) in
  let tile :=
    if bool_decide (scheme = Some "wms") then
      path_join tile_dir (fmt_0d 3 (y `mod` 1000) +:+ "." +:+ default "png" format)
    else
      path_join tile_dir (py_str y +:+ "." +:+ default "png" format) in
  mkTileCall debug (Bytes (tile_data t)) tile.

(** ** [pmtiles_to_url] (util.py:555) *)

(** A tile as [all_tiles] yields it: [((z, x, y), data)]. *)
Record PmTile := mkPmTile { pm_zxy : Z * Z * Z; pm_data : Blob }.

(** The opened archive: the bytes [json.dumps(reader.metadata(),
    indent=4).encode()] gives, the header's [addressed_tiles_count], and the
    tiles [all_tiles] yields, in order. *)
Record Archive := mkArchive {
  ar_metadata : Blob;
  ar_addressed_tiles_count : Z;
  ar_tiles : list PmTile
}.

Inductive PmOutcome := PmCompleted | PmValueError.

(** The loop [while t:] (util.py:588-599).  [1 << z] raises ValueError for a
    negative [z]. *)
Fixpoint pm_submit_tiles (silent : bool) (count : Z) (tiles : list PmTile)
    (p : Producer) : Producer * PmOutcome :=
  match tiles with
  | [] => (p, PmCompleted)
  | t :: rest =>
      let '(z, x, y) := pm_zxy t in
      if bool_decide (z < 0) then
        (mkProducer (done p) (executing p) (permits p - 1) (actions p), PmValueError)
      else
        let flipped_y := Z.shiftl 1 z - 1 - y in
        pm_submit_tiles silent count rest
          (submit_tile silent count (mkTile z x flipped_y (pm_data t)) p)
  end.

(** [pmtiles_to_url(pmtiles_file, url, **kwargs)]: [maxzoom] is read from
    [kwargs] and not used. *)
Definition pmtiles_to_url (ar : Archive) (maxzoom : Z) (prefix : string)
    (silent : bool) (p0 : Producer) : Producer * PmOutcome :=
  let p1 := act (ActUpload (Bytes (ar_metadata ar)) (path_join prefix "metadata.json")) p0 in
  let count := ar_addressed_tiles_count ar in
  let p2 := mkProducer 0 0 (permits p1) (actions p1) in
  pm_submit_tiles silent count (ar_tiles ar) p2.

(** The row of the tile table a tile of the archive stands for: the same
    tile with its row counted from the other end. *)
Definition pm_row (t : PmTile) : Tile :=
  let '(z, x, y) := pm_zxy t in mkTile z x (flip_y z y) (pm_data t).

(** ** Strings as lists of characters *)

Definition chars (s : string) : list ascii := list_ascii_of_string s.

(** The characters [str] of an [int] is made of. *)
Definition int_char (c : ascii) : Prop :=
  c ∈ chars "-0123456789".

(** The separator [os.path.join] puts after [path]. *)
Definition path_sep (path : string) : list ascii :=
  if bool_decide (path = "") || ends_with_slash path then [] else ["/"%char].

(** ** Python's [int(s)] and the string methods of [disk_to_mbtiles] *)

Definition to_string (l : list ascii) : string := string_of_list_ascii l.

(** The value of a decimal digit, of a hexadecimal digit. *)
Definition dec_digit (c : ascii) : option Z := Z.of_nat <$> Ascii.is_nat c.
Definition hex_digit (c : ascii) : option Z :=
  let n := Z.of_N (Ascii.N_of_ascii c) in
  if bool_decide (48 ≤ n ≤ 57) then Some (n - 48)
  else if bool_decide (97 ≤ n ≤ 102) then Some (n - 87)
  else if bool_decide (65 ≤ n ≤ 70) then Some (n - 55)
  else None.

(** Digits with single underscores between them: [digit (["_"] digit)*].
    [seen] says that the character before was a digit. *)
Fixpoint digits_val (base : Z) (digit : ascii → option Z) (acc : Z)
    (seen : bool) (l : list ascii) : option Z :=
  match l with
  | [] => if seen then Some acc else None
  | c :: l' =>
      if bool_decide (c = "_"%char) then
        if seen then digits_val base digit acc false l' else None
      else
        d ← digit c; digits_val base digit (acc * base + d) true l'
  end.

(** The sign of an integer literal, then its digits read by [body]. *)
Definition signed (body : list ascii → option Z) (l : list ascii) : option Z :=
  match l with
  | c :: l' =>
      if bool_decide (c = "-"%char) then Z.opp <$> body l'
      else if bool_decide (c = "+"%char) then body l'
      else body l
  | [] => None
  end.

(** The white space [int] skips around a literal: the white space of C
    (9 to 13 and 32) and, of the code points from 128 up, the two that
    [str.isspace] accepts.  The separators 28 to 31 are white space for
    [str.strip] but not for [int], which raises ValueError on them. *)
Definition int_space (c : ascii) : bool :=
  let n := Ascii.N_of_ascii c in
  ((9 <=? n) && (n <=? 13) || (n =? 32) || (n =? 133) || (n =? 160))%N.

Fixpoint int_lstrip (s : string) : string :=
  match s with
  | String c s' => if int_space c then int_lstrip s' else s
  | EmptyString => EmptyString
  end.

Definition int_strip (s : string) : string :=
  String.rev (int_lstrip (String.rev (int_lstrip s))).

(** [int(s)]: the white space of [int_space] around the literal is dropped;
    [None] stands for ValueError.  The characters are code points below
    256. *)
Definition py_int (s : string) : option Z :=
  signed (digits_val 10 dec_digit 0 false) (chars (int_strip s)).

(** [int(s, 16)]: the literal may start with [0x] or [0X], and one
    underscore may follow that prefix. *)
Definition hex_body (l : list ascii) : option Z :=
  match l with
  | "0"%char :: c :: l' =>
      if bool_decide (c = "x"%char ∨ c = "X"%char) then
        match l' with
        | "_"%char :: l'' => digits_val 16 hex_digit 0 false l''
        | _ => digits_val 16 hex_digit 0 false l'
        end
      else digits_val 16 hex_digit 0 false l
  | _ => digits_val 16 hex_digit 0 false l
  end.
Definition py_int16 (s : string) : option Z :=
  signed hex_body (chars (int_strip s)).

(** [s.replace(c, "")] for a one-character [c]. *)
Definition remove_char (c : ascii) (s : string) : string :=
  to_string (filter (λ a, a ≠ c) (chars s)).

(** [s[-2:]]. *)
Definition last_two (s : string) : string :=
  to_string (drop (length (chars s) - 2) (chars s)).

(** [s.split(c, 1)]: the part before the first [c] and the part after it;
    [None] when [c] does not occur (the list has one element then). *)
Fixpoint split_once_chars (c : ascii) (l : list ascii)
    : option (list ascii * list ascii) :=
  match l with
  | [] => None
  | a :: l' =>
      if bool_decide (a = c) then Some ([], l')
      else '(u, v) ← split_once_chars c l'; Some (a :: u, v)
  end.
Definition split_once (c : ascii) (s : string) : option (string * string) :=
  '(u, v) ← split_once_chars c (chars s); Some (to_string u, to_string v).

(** [s.split(c)]: the parts between the occurrences of [c]. *)
Fixpoint split_chars (c : ascii) (l : list ascii) : list (list ascii) :=
  match l with
  | [] => [[]]
  | a :: l' =>
      if bool_decide (a = c) then [] :: split_chars c l'
      else match split_chars c l' with
           | u :: us => (a :: u) :: us
           | [] => [[a]]
           end
  end.
Definition split_all (c : ascii) (s : string) : list string :=
  to_string <$> split_chars c (chars s).

(** The value of digits read from the left. *)
Definition horner (base : Z) (digit : ascii → option Z) (acc : Z)
    (l : list ascii) : Z :=
  foldl (λ a c, a * base + default 0 (digit c)) acc l.

(** A name [os.path.join] puts a slash after: not empty, no slash at its
    end. *)
Definition open_ended (l : list ascii) : Prop :=
  ∃ l' c, l = l' ++ [c] ∧ c ≠ "/"%char.

(** ** [disk_to_mbtiles] (util.py:170) *)

(** A directory as [os.listdir] shows it: its entries in the order of the
    listing, each a file with its content or a directory. *)
#[warnings="-register-all"] Inductive Node :=
| File (content : Blob)
| Dir (entries : list (string * Node)).

(** The exceptions that end an import. *)
Inductive ImportError :=
| ValueError
| UnboundLocalError
| IsADirectoryError
| IntegrityError
| MetadataError
| GridError.

Inductive Res (A : Type) : Type :=
| Ok (a : A)
| Err (e : ImportError).
Arguments Ok {A} a.
Arguments Err {A} e.

#[global] Instance Res_ret : MRet Res := λ A a, Ok a.
#[global] Instance Res_bind : MBind Res := λ A B f m,
  match m with Ok a => f a | Err e => Err e end.

(** What Python raises [e] for: a missing value. *)
Definition or_raise {A} (e : ImportError) (o : option A) : Res A :=
  match o with Some a => Ok a | None => Err e end.

(** A [for] loop whose body may raise. *)
Fixpoint for_each_res {A S : Type} (f : A → S → Res S) (l : list A) (s : S)
    : Res S :=
  match l with
  | [] => Ok s
  | a :: l' => s' ← f a s; for_each_res f l' s'
  end.

(** A row of [grid_data]. *)
Record GridDataRow := mkGridData {
  gd_zoom_level : Z;
  gd_tile_column : Z;
  gd_tile_row : Z;
  gd_key_name : string;
  gd_key_json : string
}.

(** The tables [mbtiles_setup] creates, while they are filled. *)
Record Mbtiles := mkMbtiles {
  mb_db : Db;
  mb_metadata : list (string * string);
  mb_grids : list GridRow;
  mb_grid_data : list GridDataRow
}.

(** The entries of [kwargs] the import reads; [kw_format = None] stands for
    no ['format'] entry. *)
Record Kwargs := mkKwargs {
  kw_silent : bool;
  kw_format : option string;
  kw_scheme : option string;
  kw_compression : bool
}.

(** The local variables [x] and [y], unbound at first. *)
Record Locals := mkLocals { var_x : option Z; var_y : option Z }.

(** The tile rows of the finished file: a table, or after the compaction the
    view over [map] and [images]. *)
Inductive Stored :=
| Plain (db : Db)
| Compacted (cdb : CompactDb).

Record Imported := mkImported {
  out_tiles : Stored;
  out_metadata : list (string * string);
  out_grids : list GridRow;
  out_grid_data : list GridDataRow
}.

Definition stored_tiles (s : Stored) : list Tile :=
  match s with
  | Plain db => read_tiles db
  | Compacted cdb => read_tiles_view cdb
  end.

(** [get_dirs(path)] (util.py:166): the entries that are directories. *)
Definition get_dirs (entries : list (string * Node))
    : list (string * list (string * Node)) :=
  omap (λ e, match e.2 with Dir sub => Some (e.1, sub) | File _ => None end) entries.

(** [open(os.path.join(path, name))] for reading: the content of the file
    entry [name]; [None] stands for IOError (no such entry, or a directory). *)
Definition open_file (entries : list (string * Node)) (name : string)
    : option Blob :=
  match list_find (λ e, e.1 = name) entries with
  | Some (_, (_, File content)) => Some content
  | _ => None
  end.

Section DiskImport.

(** The library calls on file contents.  [load_metadata]: the items of the
    dict [json.load] reads from [metadata.json], as the rows they make;
    [None] when [json.load], [.items()] or the binding of a value raises.
    [read_utfgrid]: what util.py:257-269 computes from a grid file, the
    compressed grid and the pairs [(key_name, json.dumps(data[key_name]))];
    [None] when one of its steps raises. *)
Context (load_metadata : Blob → option (list (string * string))).
Context (read_utfgrid : Blob → option (Blob * list (string * string))).

(** [insert into metadata (name, value)] under the unique index [name]. *)
Definition insert_metadata (row : string * string) (mb : Mbtiles) : Res Mbtiles :=
  if bool_decide (row.1 ∈ (mb_metadata mb).*1) then Err IntegrityError
  else Ok (mkMbtiles (mb_db mb) (mb_metadata mb ++ [row]) (mb_grids mb) (mb_grid_data mb)).

(** The zoom level a directory name stands for (util.py:201-212). *)
Definition zoom_of (scheme : option string) (zoom_dir : string) : Res Z :=
  if bool_decide (scheme = Some "ags") then
    or_raise ValueError (py_int (remove_char "L" zoom_dir))
  else if bool_decide (scheme = Some "gwc") then
    or_raise ValueError (py_int (last_two zoom_dir))
  else or_raise ValueError (py_int zoom_dir).

(** What a row directory assigns (util.py:214-221). *)
Definition row_of (scheme : option string) (z : Z) (row_dir : string)
    (vars : Locals) : Res Locals :=
  if bool_decide (scheme = Some "ags") then
    n ← or_raise ValueError (py_int16 (remove_char "R" row_dir));
    Ok (mkLocals (var_x vars) (Some (flip_y z n)))
  else if bool_decide (scheme = Some "gwc") then Ok vars
  else if bool_decide (scheme = Some "zyx") then
    n ← or_raise ValueError (py_int row_dir);
    Ok (mkLocals (var_x vars) (Some (flip_y z n)))
  else
    n ← or_raise ValueError (py_int row_dir);
    Ok (mkLocals (Some n) (var_y vars)).

(** What a file name assigns (util.py:230-241). *)
Definition name_of (scheme : option string) (z : Z) (file_name : string)
    (vars : Locals) : Res Locals :=
  if bool_decide (scheme = Some "xyz") then
    n ← or_raise ValueError (py_int file_name);
    Ok (mkLocals (var_x vars) (Some (flip_y z n)))
  else if bool_decide (scheme = Some "ags") then
    n ← or_raise ValueError (py_int16 (remove_char "C" file_name));
    Ok (mkLocals (Some n) (var_y vars))
  else if bool_decide (scheme = Some "gwc") then
    match split_all "_" file_name with
    | [x; y] =>
        x ← or_raise ValueError (py_int x);
        y ← or_raise ValueError (py_int y);
        Ok (mkLocals (Some x) (Some y))
    | _ => Err ValueError
    end
  else if bool_decide (scheme = Some "zyx") then
    n ← or_raise ValueError (py_int file_name);
    Ok (mkLocals (Some n) (var_y vars))
  else
    n ← or_raise ValueError (py_int file_name);
    Ok (mkLocals (var_x vars) (Some n)).

(** The body of [for current_file in os.listdir(...)] (util.py:223-269). *)
Definition import_file (silent : bool) (scheme image_format : option string)
    (z : Z) (entry : string * Node) (st : Locals * Mbtiles)
    : Res (Locals * Mbtiles) :=
  let '(current_file, node) := entry in
  let '(vars, mb) := st in
  if bool_decide (current_file = ".DS_Store") && negb silent then Ok st
  else
    '(file_name, ext) ← or_raise ValueError (split_once "." current_file);
    file_content ← match node with
                   | File content => Ok content
                   | Dir _ => Err IsADirectoryError
                   end;
    vars ← name_of scheme z file_name vars;
    if bool_decide (image_format = Some ext) then
      x ← or_raise UnboundLocalError (var_x vars);
      y ← or_raise UnboundLocalError (var_y vars);
      db ← or_raise IntegrityError (insert_tile (mkTile z x y file_content) (mb_db mb));
      Ok (vars, mkMbtiles db (mb_metadata mb) (mb_grids mb) (mb_grid_data mb))
    else if bool_decide (ext = "grid.json") then
      '(compressed, keys) ← or_raise GridError (read_utfgrid file_content);
      x ← or_raise UnboundLocalError (var_x vars);
      y ← or_raise UnboundLocalError (var_y vars);
      Ok (vars,
          mkMbtiles (mb_db mb) (mb_metadata mb)
            (mb_grids mb ++ [mkGrid z x y compressed])
            (mb_grid_data mb
             ++ ((λ kv, mkGridData z x y kv.1 kv.2) <$> keys)))
    else Ok (vars, mb).

(** The body of [for row_dir in get_dirs(...)] (util.py:213-269). *)
Definition import_row_dir (silent : bool) (scheme image_format : option string)
    (z : Z) (entry : string * list (string * Node)) (st : Locals * Mbtiles)
    : Res (Locals * Mbtiles) :=
  let '(row_dir, files) := entry in
  vars ← row_of scheme z row_dir st.1;
  for_each_res (import_file silent scheme image_format z) files (vars, st.2).

(** The body of [for zoom_dir in get_dirs(directory_path)] (util.py:200-269). *)
Definition import_zoom_dir (silent : bool) (scheme image_format : option string)
    (entry : string * list (string * Node)) (st : Locals * Mbtiles)
    : Res (Locals * Mbtiles) :=
  let '(zoom_dir, rows) := entry in
  z ← zoom_of scheme zoom_dir;
  for_each_res (import_row_dir silent scheme image_format z) (get_dirs rows) st.

(** [disk_to_mbtiles(directory_path, mbtiles_file, **kwargs)] on a new
    [mbtiles_file]: [root] is the listing of [directory_path].  The result is
    the content of the file written.  Log lines are left out. *)
Definition disk_to_mbtiles (root : list (string * Node)) (kw : Kwargs)
    : Res Imported :=
  let mb := mkMbtiles mbtiles_setup [] [] [] in
  let image_format := Some (default "png" (kw_format kw)) in
  '(image_format, mb) ←
    match open_file root "metadata.json" with
    | Some content =>
        metadata ← or_raise MetadataError (load_metadata content);
        mb ← for_each_res insert_metadata metadata mb;
        Ok (kw_format kw, mb)
    | None => Ok (image_format, mb)
    end;
  '(vars, mb) ← for_each_res
               (import_zoom_dir (kw_silent kw) (kw_scheme kw) image_format)
               (get_dirs root) (mkLocals None None, mb);
  tiles ← (if kw_compression kw then
             cdb ← or_raise IntegrityError (compress 256 (mb_db mb));
             Ok (Compacted cdb)
           else Ok (Plain (mb_db mb)));
  Ok (mkImported tiles (mb_metadata mb) (mb_grids mb) (mb_grid_data mb)).

End DiskImport.

(** ** A directory laid out as [z/x/y.format] *)

(** The tiles of a listing, as numbers: zoom levels, their columns, and the
    rows of each column with their blobs. *)
Definition Layout := list (Z * list (Z * list (Z * Blob))).

(** The row number a file is named after: the row itself, or for ['xyz'] the
    row counted from the other end. *)
Definition named_row (scheme : option string) (z y : Z) : Z :=
  if bool_decide (scheme = Some "xyz") then flip_y z y else y.

Definition layout_files (scheme : option string) (fmt : string) (z : Z)
    (ys : list (Z * Blob)) : list (string * Node) :=
  (λ yd, (py_str (named_row scheme z yd.1) +:+ "." +:+ fmt, File yd.2)) <$> ys.

Definition layout_rows (scheme : option string) (fmt : string) (z : Z)
    (xs : list (Z * list (Z * Blob))) : list (string * Node) :=
  (λ xy, (py_str xy.1, Dir (layout_files scheme fmt z xy.2))) <$> xs.

Definition layout_tree (scheme : option string) (fmt : string) (l : Layout)
    : list (string * Node) :=
  (λ zx, (py_str zx.1, Dir (layout_rows scheme fmt zx.1 zx.2))) <$> l.

(** The tiles of a layout, in the order of the listing: those of one column,
    of one zoom level, of all. *)
Definition files_tiles (z x : Z) (ys : list (Z * Blob)) : list Tile :=
  (λ yd, mkTile z x yd.1 yd.2) <$> ys.
Definition rows_tiles (z : Z) (xs : list (Z * list (Z * Blob))) : list Tile :=
  xy ← xs; files_tiles z xy.1 xy.2.
Definition layout_tiles (l : Layout) : list Tile :=
  zx ← l; rows_tiles zx.1 zx.2.

(** The database of an import that has read the metadata [md] and the tiles
    [ts], and nothing else. *)
Definition with_tiles (md : list (string * string)) (ts : list Tile) : Mbtiles :=
  mkMbtiles (imported ts) md [] [].

(** A listing without the [.DS_Store] entries of its row directories. *)
Definition clean_files (files : list (string * Node)) : list (string * Node) :=
  filter (λ e, e.1 ≠ ".DS_Store") files.
Definition clean_dir (clean : list (string * Node) → list (string * Node))
    (e : string * Node) : string * Node :=
  (e.1, match e.2 with Dir sub => Dir (clean sub) | File c => File c end).
Definition clean_rows (rows : list (string * Node)) : list (string * Node) :=
  clean_dir clean_files <$> rows.
Definition clean_tree (root : list (string * Node)) : list (string * Node) :=
  clean_dir clean_rows <$> root.

(** A scheme handled by the last branch of each test: none of ['ags'],
    ['gwc'], ['zyx']; ['xyz'] differs from it in the row only. *)
Definition plain_scheme (scheme : option string) : Prop :=
  scheme ≠ Some "ags" ∧ scheme ≠ Some "gwc" ∧ scheme ≠ Some "zyx".

(** A tree for the examples: [metadata.json], and one tile under [1/0]. *)
Definition sample_tree : list (string * Node) :=
  [ ("metadata.json", File [x7b; x7d]);
    ("1", Dir [ ("0", Dir [ ("0.png", File [x01]) ]) ]) ].

(** A tree for the examples: a row directory that lists [.DS_Store]. *)
Definition finder_tree : list (string * Node) :=
  [ ("1", Dir [ ("0", Dir [ (".DS_Store", File [x00]); ("0.png", File [x01]) ]) ]) ].

(** ** [mbtiles_to_disk] (util.py:290) *)

(** The directory the export fills is a listing in the order of creation
    ([os.listdir] may give another order).  The entry of a name, and the
    listing with this entry set. *)
Fixpoint dir_entry (name : string) (dir : list (string * Node)) : option Node :=
  match dir with
  | [] => None
  | e :: dir' => if bool_decide (e.1 = name) then Some e.2 else dir_entry name dir'
  end.

Fixpoint set_entry (name : string) (node : Node) (dir : list (string * Node))
    : list (string * Node) :=
  match dir with
  | [] => [(name, node)]
  | e :: dir' =>
      if bool_decide (e.1 = name) then (name, node) :: dir'
      else e :: set_entry name node dir'
  end.

(** [if not os.path.isdir(path): os.makedirs(path)] for the directory
    [names] below [dir]: the directories missing on the way are created, a
    file on the way is an error. *)
Fixpoint makedirs (names : list string) (dir : list (string * Node))
    : option (list (string * Node)) :=
  match names with
  | [] => Some dir
  | name :: names' =>
      match dir_entry name dir with
      | Some (File _) => None
      | Some (Dir sub) =>
          sub' ← makedirs names' sub; Some (set_entry name (Dir sub') dir)
      | None =>
          sub' ← makedirs names' []; Some (set_entry name (Dir sub') dir)
      end
  end.

(** A file name that is one name: no slash and no NUL.  The export makes no
    directory below those of the tiles and none with a dot in its name, so
    with a slash the name is a path through a directory that is not there. *)
Definition file_name_ok (name : string) : bool :=
  bool_decide (("/"%char ∉ chars name) ∧ ("000"%char ∉ chars name)).

(** [f = open(os.path.join(dir, *names, name), 'w'); f.write(content);
    f.close()]: the directory has to be there, and [name] must not be one. *)
Fixpoint open_write (names : list string) (name : string) (content : Blob)
    (dir : list (string * Node)) : option (list (string * Node)) :=
  match names with
  | [] =>
      if file_name_ok name then
        match dir_entry name dir with
        | Some (Dir _) => None
        | _ => Some (set_entry name (File content) dir)
        end
      else None
  | d :: names' =>
      match dir_entry d dir with
      | Some (Dir sub) =>
          sub' ← open_write names' name content sub;
          Some (set_entry d (Dir sub') dir)
      | _ => None
      end
  end.

(** [tile_dir] below [base_path], name by name (util.py:318-332), and the
    name of the file in it (util.py:335-338). *)
Definition tile_dir (scheme : option string) (t : Tile) : list string :=
  let z := zoom_level t in
  let x := tile_column t in
  let y := tile_row t in
  if bool_decide (scheme = Some "xyz") then [py_str z; py_str x]
  else if bool_decide (scheme = Some "wms") then
    [fmt_0d 2 z;
     fmt_0d_quot 3 x 1000000;
     fmt_0d_quot_mod 3 x 1000 1000;
     fmt_0d 3 (x `mod` 1000);
     fmt_0d_quot 3 y 1000000;
     fmt_0d_quot_mod 3 y 1000 1000]
  else [py_str z; py_str x].

Definition tile_file (scheme format : option string) (t : Tile) : string :=
  let y := if bool_decide (scheme = Some "xyz")
           then flip_y (zoom_level t) (tile_row t) else tile_row t in
  if bool_decide (scheme = Some "wms") then
    fmt_0d 3 (y `mod` 1000) +:+ "." +:+ default "png" format
  else py_str y +:+ "." +:+ default "png" format.

(** One round of the tile loop (util.py:314-345). *)
Definition export_tile (scheme format : option string) (t : Tile)
    (dir : list (string * Node)) : option (list (string * Node)) :=
  dir ← makedirs (tile_dir scheme t) dir;
  open_write (tile_dir scheme t) (tile_file scheme format t) (tile_data t) dir.

(** The rows of [grid_data] for a grid (util.py:360-364, 374-378). *)
Definition grid_keys (g : GridRow) (rows : list GridDataRow)
    : list (string * string) :=
  (λ r, (gd_key_name r, gd_key_json r)) <$>
    filter (λ r, gd_zoom_level r = grid_zoom_level g
                 ∧ gd_tile_column r = grid_tile_column g
                 ∧ gd_tile_row r = grid_tile_row g) rows.

Section DiskExport.

(** The library calls: [json.dump(metadata, f, indent=4)] and
    [json.dumps({"formatter": formatter})] as the bytes in the file; the
    text [json.dumps] gives for a grid ([zlib.decompress], [json.loads]
    of the grid and of each key, [None] when one of them raises); the
    encoding of a text file. *)
Context (dump_metadata : list (string * string) → Blob).
Context (dump_formatter : string → Blob).
Context (dump_grid : Blob → list (string * string) → option string).
Context (encode : string → Blob).

(** One round of the grid loop (util.py:356-388); [grid_data = None] stands
    for a file without that table. *)
Definition export_grid (scheme callback : option string)
    (grid_data : option (list GridDataRow)) (g : GridRow)
    (dir : list (string * Node)) : option (list (string * Node)) :=
  let zoom_level := grid_zoom_level g in
  let tile_column := grid_tile_column g in
  rows ← grid_data;
  let y := if bool_decide (scheme = Some "xyz")
           then flip_y zoom_level (grid_tile_row g) else grid_tile_row g in
  let grid_dir := [py_str zoom_level; py_str tile_column] in
  let name := py_str y +:+ ".grid.json" in
  dir ← makedirs grid_dir dir;
  dir ← open_write grid_dir name [] dir;
  grid_json ← dump_grid (grid g) (grid_keys g rows);
  let text :=
    match callback with
    | Some c =>
        if bool_decide (c ∈ [""; "false"; "null"]) then grid_json
        else c +:+ "(" +:+ grid_json +:+ ");"
    | None => grid_json
    end in
  open_write grid_dir name (encode text) dir.

(** What the export writes before the tiles (util.py:296-310). *)
Definition root_files (metadata : list (string * string)) : list (string * Node) :=
  ("metadata.json", File (dump_metadata metadata))
  :: match dict_get "formatter" metadata with
     | Some formatter =>
         if bool_decide (formatter = "") then []
         else [("layer.json", File (dump_formatter formatter))]
     | None => []
     end.

(** [mbtiles_to_disk(mbtiles_file, directory_path, **kwargs)]: the content of
    [directory_path] at the end, which [os.mkdir] has made anew; [None]
    stands for an exception.  Log lines are left out. *)
Definition mbtiles_to_disk (st : Store) (grid_data : option (list GridDataRow))
    (scheme format callback : option string) : option (list (string * Node)) :=
  let metadata := st_metadata st in
  dir ← open_write [] "metadata.json" (dump_metadata metadata) [];
  dir ← match dict_get "formatter" metadata with
        | Some formatter =>
            if bool_decide (formatter = "") then Some dir
            else open_write [] "layer.json" (dump_formatter formatter) dir
        | None => Some dir
        end;
  dir ← for_each (export_tile scheme format) (st_tiles st) dir;
  match st_grids st with
  | Some grids => for_each (export_grid scheme callback grid_data) grids dir
  | None => Some dir
  end.

End DiskExport.

(** A list of numbered entries: the value of a key, and the list with the key
    set. *)
Fixpoint lookup_key {V : Type} (k : Z) (l : list (Z * V)) : option V :=
  match l with
  | [] => None
  | a :: l' => if bool_decide (a.1 = k) then Some a.2 else lookup_key k l'
  end.

Fixpoint set_key {V : Type} (k : Z) (v : V) (l : list (Z * V)) : list (Z * V) :=
  match l with
  | [] => [(k, v)]
  | a :: l' => if bool_decide (a.1 = k) then (k, v) :: l' else a :: set_key k v l'
  end.

(** The layout with the file of one more tile. *)
Definition layout_insert (t : Tile) (l : Layout) : Layout :=
  let xs := default [] (lookup_key (zoom_level t) l) in
  let ys := default [] (lookup_key (tile_column t) xs) in
  set_key (zoom_level t)
    (set_key (tile_column t) (set_key (tile_row t) (tile_data t) ys) xs) l.

Definition layout_of (ts : list Tile) : Layout :=
  foldl (λ l t, layout_insert t l) [] ts.

(** The names at the root that are no zoom levels. *)
Definition no_zoom_names (pre : list (string * Node)) : Prop :=
  ∀ n, py_str n ∉ pre.*1.

(** A store for the examples. *)
Definition sample_store : Store :=
  mkStore [("name", "demo")]
          [mkTile 1 0 0 [x01]; mkTile 1 1 0 [x02]; mkTile 1 0 1 [x03]]
          (Some []).

(** * Properties *)

(** ** Lists *)

Lemma for_each_cons {A S} (f : A → S → option S) a l s s' :
  f a s = Some s' → for_each f (a :: l) s = for_each f l s'.
Proof. intros H. simpl. by rewrite H. Qed.

Lemma concat_fmap_nil {A B} (f : A → list B) (l : list A) :
  Forall (λ a, f a = []) l → concat (f <$> l) = [].
Proof. induction 1 as [|a l Ha _ IH]; csimpl; [done|]. by rewrite Ha, IH. Qed.

Lemma filter_none {A} (P : A → Prop) `{!∀ x, Decision (P x)} (l : list A) :
  Forall (λ a, ¬ P a) l → filter P l = [].
Proof.
  induction 1 as [|a l Ha _ IH]; [done|]. by rewrite filter_cons_False.
Qed.

(** Filtering a list sorted by [g] by each value of [g] in turn cuts it into
    consecutive pieces. *)
Lemma concat_filter_sorted {A} (g : A → Z) (l : list A) :
  StronglySorted (λ a b, g a ≤ g b) l →
  ∀ lo m, Forall (λ a, lo ≤ g a < m) l →
  concat ((λ i, filter (λ a, g a = i) l) <$> seqZ lo (m - lo)) = l.
Proof.
  induction 1 as [|a l Hs IH Hall]; intros lo m Hb.
  - apply concat_fmap_nil, Forall_forall. by intros.
  - apply Forall_cons in Hb as [Ha Hb].
    replace (m - lo) with ((g a - lo) + (m - g a)) by lia.
    rewrite seqZ_app, fmap_app, concat_app by lia.
    rewrite (concat_fmap_nil (λ i, filter (λ x, g x = i) (a :: l))); simpl.
    2:{ apply Forall_forall. intros i Hi. apply elem_of_seqZ in Hi.
        rewrite filter_cons_False by lia.
        apply filter_none. eapply Forall_impl; [exact Hall|]. simpl. lia. }
    replace (lo + (g a - lo)) with (g a) by lia.
    rewrite (seqZ_cons (g a)) by lia. csimpl.
    rewrite filter_cons_True by done. simpl. f_equal.
    etrans; [|apply (IH (g a) m)].
    2:{ rewrite Forall_forall in Hall, Hb |- *. intros x Hx.
        specialize (Hall x Hx). specialize (Hb x Hx). lia. }
    rewrite (seqZ_cons (g a) (m - g a)) by lia. csimpl. f_equal. f_equal.
    apply list_fmap_ext. intros k i Hi.
    apply lookup_seqZ in Hi as [-> _].
    rewrite filter_cons_False by lia. done.
Qed.

Lemma StronglySorted_impl {A} (R1 R2 : A → A → Prop) (l : list A) :
  (∀ a b, R1 a b → R2 a b) → StronglySorted R1 l → StronglySorted R2 l.
Proof.
  intros HR. induction 1 as [|a l Hs IH Hall]; constructor; [done|].
  eapply Forall_impl; [exact Hall|]. auto.
Qed.

Lemma filter_unique {A} (f : A → Z) (l : list A) (k : nat) a z :
  NoDup (f <$> l) → l !! k = Some a → f a = z → filter (λ b, f b = z) l = [a].
Proof.
  intros Hnd Hk <-. revert k Hnd Hk.
  induction l as [|b l IH]; intros k Hnd Hk; [done|].
  rewrite fmap_cons in Hnd. apply NoDup_cons in Hnd as [Hb Hnd].
  destruct k as [|k]; simpl in Hk.
  - injection Hk as ->. rewrite filter_cons_True by done. f_equal.
    apply filter_none, Forall_forall. intros x Hx Heq. apply Hb.
    rewrite <- Heq. apply list_elem_of_fmap. by exists x.
  - rewrite filter_cons_False; [by eapply IH|].
    intros Heq. apply Hb. rewrite Heq. apply list_elem_of_fmap.
    exists a. split; [done|]. by eapply list_elem_of_lookup_2.
Qed.

Lemma NoDup_fmap_elem {A B} (f : A → B) (l : list A) x y :
  NoDup (f <$> l) → x ∈ l → y ∈ l → f x = f y → x = y.
Proof.
  intros Hnd Hx Hy Hf.
  apply list_elem_of_lookup in Hx as [i Hi]. apply list_elem_of_lookup in Hy as [j Hj].
  assert (i = j) as ->; [|congruence].
  apply (NoDup_lookup _ i j (f x) Hnd); rewrite list_lookup_fmap.
  - by rewrite Hi.
  - by rewrite Hj, Hf.
Qed.

(** ** Tables numbered by rowid *)

Lemma number_from_length k ts : length (number_from k ts) = length ts.
Proof. revert k. induction ts as [|t ts IH]; intros k; simpl; [done|]. by rewrite IH. Qed.

Lemma number_from_row k ts : row <$> number_from k ts = ts.
Proof. revert k. induction ts as [|t ts IH]; intros k; simpl; [done|]. by rewrite IH. Qed.

Lemma number_from_lookup ts : ∀ k (i : nat) r,
  number_from k ts !! i = Some r ↔
  ∃ t, ts !! i = Some t ∧ r = mkRow (k + Z.of_nat i) t.
Proof.
  induction ts as [|t ts IH]; intros k i r; simpl.
  - rewrite lookup_nil. split; [done|]. by intros (? & ? & _).
  - destruct i as [|i]; simpl.
    + rewrite Z.add_0_r. split.
      * intros [= <-]. by exists t.
      * by intros (? & [= <-] & ->).
    + rewrite IH. replace (k + 1 + Z.of_nat i) with (k + Z.of_nat (S i)) by lia.
      done.
Qed.

Lemma number_from_bounds k ts :
  Forall (λ r, k ≤ rowid r < k + Z.of_nat (length ts)) (number_from k ts).
Proof.
  revert k. induction ts as [|t ts IH]; intros k; simpl; constructor.
  - simpl. lia.
  - eapply Forall_impl; [apply IH|]. simpl. lia.
Qed.

Lemma number_from_sorted k ts :
  StronglySorted (λ a b, rowid a ≤ rowid b) (number_from k ts).
Proof.
  revert k. induction ts as [|t ts IH]; intros k; simpl; constructor.
  - apply IH.
  - eapply Forall_impl; [apply number_from_bounds|]. simpl. lia.
Qed.

Lemma number_from_app ts1 ts2 k :
  number_from k (ts1 ++ ts2)
  = number_from k ts1 ++ number_from (k + Z.of_nat (length ts1)) ts2.
Proof.
  revert k. induction ts1 as [|t ts1 IH]; intros k; simpl.
  - by rewrite Z.add_0_r.
  - rewrite IH. do 3 f_equal. lia.
Qed.

Lemma table_of_lookup ts (i : nat) r :
  table_of ts !! i = Some r ↔ ∃ t, ts !! i = Some t ∧ r = mkRow (1 + Z.of_nat i) t.
Proof. apply number_from_lookup. Qed.

Lemma table_of_NoDup ts : NoDup (table_of ts).
Proof.
  apply NoDup_alt. intros i j r Hi Hj.
  apply table_of_lookup in Hi as (ti & _ & ->).
  apply table_of_lookup in Hj as (tj & _ & Hj).
  injection Hj as Hj _. lia.
Qed.

Lemma next_rowid_number_from ts :
  next_rowid (number_from 1 ts) = 1 + Z.of_nat (length ts).
Proof.
  unfold next_rowid.
  enough (H : ∀ k, 0 ≤ k →
            foldr (λ r acc, Z.max (rowid r) acc) 0 (number_from (k + 1) ts)
            = if decide (ts = []) then 0 else k + Z.of_nat (length ts)).
  { change (number_from 1 ts) with (number_from (0 + 1) ts). rewrite H by lia.
    case_decide; subst; simpl; lia. }
  induction ts as [|t ts IH]; intros k Hk; simpl; [done|].
  rewrite (IH (k + 1)) by lia. case_decide; subst; simpl; lia.
Qed.

Lemma insert_tile_imported t pre :
  coords t ∉ coords <$> pre →
  insert_tile t (imported pre) = Some (imported (pre ++ [t])).
Proof.
  intros Hnin. unfold insert_tile, imported, table_of. simpl.
  rewrite bool_decide_eq_false_2.
  - rewrite next_rowid_number_from, number_from_app. done.
  - by rewrite list_fmap_compose, number_from_row.
Qed.

Lemma insert_tiles_imported ts : ∀ pre,
  NoDup (coords <$> pre ++ ts) →
  insert_tiles ts (imported pre) = Some (imported (pre ++ ts)).
Proof.
  induction ts as [|t ts IH]; intros pre Hnd.
  - by rewrite app_nil_r.
  - unfold insert_tiles.
    rewrite (for_each_cons _ _ _ _ (imported (pre ++ [t]))).
    + fold (insert_tiles ts). rewrite IH; rewrite <- app_assoc; done.
    + apply insert_tile_imported.
      rewrite fmap_app, fmap_cons in Hnd.
      apply NoDup_app in Hnd as (_ & Hnd & _). intros Hin.
      apply (Hnd _ Hin). left.
Qed.

(** ** Compaction: one round *)

Lemma index_elem_of b fs :
  b ∈ fs → ∃ k, index b fs = Some k ∧ fs !! k = Some b.
Proof.
  intros Hin. unfold index.
  destruct (list_find (λ f, f = b) fs) as [[k f]|] eqn:Hf.
  - apply list_find_Some in Hf as (Hk & -> & _). by exists k.
  - apply list_find_None in Hf. rewrite Forall_forall in Hf.
    by destruct (Hf b Hin).
Qed.

Lemma do_row_seen r sn p k :
  tile_data r ∈ files sn →
  index (tile_data r) (files sn) = Some k →
  ids sn !! k = Some (last_id p - Z.of_nat (length (files sn)) + 1 + Z.of_nat k) →
  do_row r (sn, p) =
    Some (sn, mkPass (last_id p) (images p)
                (map_rows p ++
                 [mkMap (zoom_level r) (tile_column r) (tile_row r)
                        (last_id p - Z.of_nat (length (files sn)) + 1 + Z.of_nat k)])).
Proof.
  intros Hin Hk Hid. unfold do_row.
  rewrite bool_decide_eq_true_2 by done. rewrite Hk. simpl. by rewrite Hid.
Qed.

Lemma do_row_new r sn p :
  tile_data r ∉ files sn →
  do_row r (sn, p) =
    Some (mkSeen (ids sn ++ [last_id p + 1]) (files sn ++ [tile_data r]),
          mkPass (last_id p + 1)
                 (images p ++ [mkImage (tile_data r) (last_id p + 1)])
                 (map_rows p ++
                  [mkMap (zoom_level r) (tile_column r) (tile_row r) (last_id p + 1)])).
Proof. intros Hin. unfold do_row. by rewrite bool_decide_eq_false_2. Qed.

(** The effect of the row loop of one round, from any point of the round. *)
Lemma do_rows_spec rs : ∀ L0 sn p,
  chunk_wf L0 sn p →
  ∃ new ms sn' p',
    for_each do_row rs (sn, p) = Some (sn', p')
    ∧ chunk_wf L0 sn' p'
    ∧ files sn' = files sn ++ new
    ∧ images p' =
        images p ++ zip_with mkImage new (seqZ (last_id p + 1) (Z.of_nat (length new)))
    ∧ map_rows p' = map_rows p ++ ms
    ∧ Forall2 (λ r m, map_coords m = coords r
                      ∧ ∃ k : nat, files sn' !! k = Some (tile_data r)
                                   ∧ map_tile_id m = L0 + 1 + Z.of_nat k) rs ms
    ∧ (length new ≤ length rs)%nat
    ∧ (length new = length rs ↔
         NoDup (tile_data <$> rs) ∧ Forall (λ r, tile_data r ∉ files sn) rs).
Proof.
  induction rs as [|r rs IH]; intros L0 sn p Hwf.
  - exists [], [], sn, p. simpl. rewrite !app_nil_r.
    split_and!; auto. split; [|done]. intros _. split; constructor.
  - destruct Hwf as (Hids & Hlast & Hnd).
    destruct (decide (tile_data r ∈ files sn)) as [Hin|Hnin].
    + destruct (index_elem_of _ _ Hin) as (k & Hk & Hfk).
      assert (Hlt : (k < length (files sn))%nat) by (by eapply lookup_lt_Some).
      assert (Hid : ids sn !! k =
                Some (last_id p - Z.of_nat (length (files sn)) + 1 + Z.of_nat k)).
      { rewrite Hids, lookup_seqZ_lt by lia. f_equal. lia. }
      pose proof (do_row_seen r sn p k Hin Hk Hid) as Hstep.
      set (m := mkMap (zoom_level r) (tile_column r) (tile_row r)
                  (last_id p - Z.of_nat (length (files sn)) + 1 + Z.of_nat k)) in *.
      destruct (IH L0 sn (mkPass (last_id p) (images p) (map_rows p ++ [m])))
        as (new & ms & sn' & p' & Hrun & Hwf' & Hfiles & Himgs & Hmap & Hall & Hle & Hiff).
      { by split_and!. }
      exists new, (m :: ms), sn', p'. simpl in Himgs, Hmap, Hiff.
      rewrite (for_each_cons _ _ _ _ _ Hstep).
      split_and!; try done.
      * by rewrite Hmap, <- app_assoc.
      * constructor; [|done]. split; [done|].
        exists k. split; [|simpl; lia].
        rewrite Hfiles. by apply lookup_app_l_Some.
      * simpl. lia.
      * simpl. split; [lia|].
        intros [_ Hfa]. apply Forall_cons in Hfa as [Hfa _]. done.
    + pose proof (do_row_new r sn p Hnin) as Hstep.
      set (m := mkMap (zoom_level r) (tile_column r) (tile_row r) (last_id p + 1)) in *.
      destruct (IH L0 (mkSeen (ids sn ++ [last_id p + 1]) (files sn ++ [tile_data r]))
                   (mkPass (last_id p + 1)
                           (images p ++ [mkImage (tile_data r) (last_id p + 1)])
                           (map_rows p ++ [m])))
        as (new & ms & sn' & p' & Hrun & Hwf' & Hfiles & Himgs & Hmap & Hall & Hle & Hiff).
      { split_and!; simpl.
        - rewrite length_app. simpl.
          replace (Z.of_nat (length (files sn) + 1)) with (Z.of_nat (S (length (files sn))))
            by lia.
          rewrite seqZ_S, Hids, Hlast. do 2 f_equal. lia.
        - rewrite length_app. simpl. lia.
        - apply NoDup_app. repeat split; [done| |apply NoDup_singleton].
          intros x Hx Hx'. apply list_elem_of_singleton in Hx'. by subst. }
      exists (tile_data r :: new), (m :: ms), sn', p'.
      simpl in Hfiles, Himgs, Hmap, Hiff.
      rewrite (for_each_cons _ _ _ _ _ Hstep).
      split_and!; try done.
      * by rewrite Hfiles, <- app_assoc.
      * rewrite Himgs, <- app_assoc. f_equal. simpl.
        rewrite (seqZ_cons (last_id p + 1)) by lia. simpl. do 2 f_equal.
        f_equal; lia.
      * by rewrite Hmap, <- app_assoc.
      * constructor; [|done]. split; [done|].
        exists (length (files sn)). split; [|simpl; lia].
        rewrite Hfiles, <- app_assoc. simpl. by rewrite list_lookup_middle.
      * simpl. lia.
      * simpl. split.
        { intros Heq. assert (Heq' : length new = length rs) by lia.
          apply Hiff in Heq' as [Hnd' Hfa]. split.
          - apply NoDup_cons. split; [|done].
            intros Hin. apply list_elem_of_fmap in Hin as (r' & Hr' & Hin).
            rewrite Forall_forall in Hfa. apply (Hfa r' Hin).
            rewrite Hr'. apply elem_of_app. right. apply list_elem_of_singleton. done.
          - constructor; [done|].
            eapply Forall_impl; [exact Hfa|]. simpl.
            intros x Hx Hx'. apply Hx, elem_of_app. by left. }
        intros [Hnd' Hfa]. apply NoDup_cons in Hnd' as [Hnr Hnd'].
        apply Forall_cons in Hfa as [_ Hfa]. f_equal. apply Hiff. split; [done|].
        rewrite Forall_forall in Hfa |- *. intros r' Hr' Hin.
        apply elem_of_app in Hin as [Hin|Hin]; [by apply (Hfa r')|].
        apply list_elem_of_singleton in Hin. apply Hnr.
        apply list_elem_of_fmap. by exists r'.
Qed.

Lemma pass_wf_length p : pass_wf p → Z.of_nat (length (images p)) = last_id p.
Proof.
  intros [Hpos Hids].
  rewrite <- (length_fmap img_tile_id), Hids, length_seqZ. lia.
Qed.

Lemma img_ids_zip fs : ∀ a,
  img_tile_id <$> zip_with mkImage fs (seqZ a (Z.of_nat (length fs)))
  = seqZ a (Z.of_nat (length fs)).
Proof.
  induction fs as [|b fs IH]; intros a; [done|].
  rewrite (seqZ_cons a) by (simpl; lia). csimpl. f_equal.
  replace (Z.pred (Z.of_nat (S (length fs)))) with (Z.of_nat (length fs)) by lia.
  apply IH.
Qed.

Lemma img_zip_lookup fs a (k : nat) b :
  fs !! k = Some b →
  zip_with mkImage fs (seqZ a (Z.of_nat (length fs))) !! k
  = Some (mkImage b (a + Z.of_nat k)).
Proof.
  intros Hk. apply lookup_zip_with_Some. exists b, (a + Z.of_nat k).
  split_and!; [done|done|]. apply lookup_seqZ_lt.
  apply lookup_lt_Some in Hk. lia.
Qed.

Lemma round_rel_mono imgs more rows ms :
  round_rel imgs rows ms → round_rel (imgs ++ more) rows ms.
Proof.
  intros (L0 & fs & HL & Hnd & Himg & Hall). exists L0, fs.
  split_and!; try done. intros k b Hk. apply lookup_app_l_Some. by apply Himg.
Qed.

Lemma round_rel_resolves imgs rows ms :
  round_rel imgs rows ms → Forall2 (resolves imgs) rows ms.
Proof.
  intros (L0 & fs & HL & Hnd & Himg & Hall).
  eapply Forall2_impl; [exact Hall|]. intros r m (Hc & k & Hk & Hid).
  split_and!; [done|lia|]. rewrite Hid.
  replace (Z.to_nat (L0 + 1 + Z.of_nat k - 1)) with (Z.to_nat L0 + k)%nat by lia.
  by apply Himg.
Qed.

Lemma round_rel_same_blob imgs rows ms (a b : nat) ra rb ma mb :
  round_rel imgs rows ms →
  rows !! a = Some ra → rows !! b = Some rb →
  ms !! a = Some ma → ms !! b = Some mb →
  tile_data (row ra) = tile_data (row rb) → map_tile_id ma = map_tile_id mb.
Proof.
  intros (L0 & fs & _ & Hnd & _ & Hrows) Ha Hb Hma Hmb Hdata.
  destruct (Forall2_lookup_lr _ _ _ _ _ _ Hrows Ha Hma) as (_ & ka & Hka & ->).
  destruct (Forall2_lookup_lr _ _ _ _ _ _ Hrows Hb Hmb) as (_ & kb & Hkb & ->).
  rewrite Hdata in Hka.
  by rewrite (NoDup_lookup _ ka kb _ Hnd Hka Hkb).
Qed.

Lemma resolves_join imgs tbl mp :
  NoDup (img_tile_id <$> imgs) →
  Forall2 (resolves imgs) tbl mp → join_view mp imgs = row <$> tbl.
Proof.
  intros Hnd. induction 1 as [|r m tbl mp (Hc & Hpos & Him) _ IH]; [done|].
  unfold join_view in *. csimpl. rewrite IH.
  rewrite (filter_unique img_tile_id imgs _ _ (map_tile_id m) Hnd Him eq_refl).
  csimpl. f_equal.
  destruct r as [k [z x y d]]. unfold map_coords, coords in Hc. simpl in *.
  by injection Hc as -> -> ->.
Qed.

Lemma rounds_resolve {I} imgs (sel : I → list TileRow) (rounds : list I) mss :
  Forall2 (λ i ms, round_rel imgs (sel i) ms ∧ length ms = length (sel i)) rounds mss →
  Forall2 (resolves imgs) (concat (sel <$> rounds)) (concat mss).
Proof.
  induction 1 as [|i ms rounds mss [Hrel _] _ IH]; csimpl; [constructor|].
  apply Forall2_app; [|done]. by apply round_rel_resolves.
Qed.

(** The position of a row in the table, seen as a round and a position in
    that round. *)
Lemma rounds_lookup {I} (R : I → list MapRow → Prop) (sel : I → list TileRow)
    (rounds : list I) mss :
  Forall2 (λ i ms, R i ms ∧ length ms = length (sel i)) rounds mss →
  ∀ (n : nat) r m,
    concat (sel <$> rounds) !! n = Some r → concat mss !! n = Some m →
    ∃ (j : nat) i ms (a : nat),
      rounds !! j = Some i ∧ mss !! j = Some ms ∧ R i ms
      ∧ sel i !! a = Some r ∧ ms !! a = Some m.
Proof.
  induction 1 as [|i ms rounds mss [Hrel Hlen] _ IH]; csimpl; intros n r m Hr Hm.
  - by rewrite lookup_nil in Hr.
  - destruct (decide (n < length ms)%nat) as [Hlt|Hge].
    + rewrite lookup_app_l in Hr by lia. rewrite lookup_app_l in Hm by lia.
      by exists 0%nat, i, ms, n.
    + rewrite lookup_app_r in Hr by lia. rewrite lookup_app_r in Hm by lia.
      rewrite Hlen in Hm.
      destruct (IH _ _ _ Hr Hm) as (j & i' & ms' & a & ?).
      by exists (S j), i', ms', a.
Qed.

(** ** Compaction: the rounds of a pass *)

Section Rounds.

(** The chunk size; the program passes 256. *)
Context (chunk : Z) (chunk_pos : 0 < chunk).

Lemma chunk_index_window i r :
  (i * chunk < rowid r ∧ rowid r ≤ (i + 1) * chunk) ↔ chunk_index chunk r = i.
Proof.
  unfold chunk_index. split.
  - intros [H1 H2]. symmetry. apply (Z.div_unique _ _ _ (rowid r - 1 - i * chunk)); lia.
  - intros <-.
    pose proof (Z.mul_div_le (rowid r - 1) chunk chunk_pos).
    pose proof (Z.mul_succ_div_gt (rowid r - 1) chunk chunk_pos). lia.
Qed.

Lemma select_rows_chunk_index i tbl :
  select_rows (i * chunk) ((i + 1) * chunk) tbl
  = filter (λ r, chunk_index chunk r = i) tbl.
Proof.
  unfold select_rows. apply list_filter_iff.
  intros r. apply chunk_index_window.
Qed.

Lemma select_rows_elem i tbl r :
  r ∈ select_rows (i * chunk) ((i + 1) * chunk) tbl ↔ chunk_index chunk r = i ∧ r ∈ tbl.
Proof.
  unfold select_rows. rewrite list_elem_of_filter.
  by rewrite chunk_index_window.
Qed.

Lemma chunk_index_table (i : nat) t :
  chunk_index chunk (mkRow (1 + Z.of_nat i) t) = Z.of_nat i / chunk.
Proof. unfold chunk_index. simpl. f_equal. lia. Qed.

Lemma round_in_range (n i : nat) :
  (i < n)%nat →
  Z.of_nat i / chunk ∈ range (Z.of_nat n / chunk + 1).
Proof.
  pose proof chunk_pos. intros Hi. unfold range. apply elem_of_seqZ.
  assert (0 ≤ Z.of_nat i / chunk) by (apply Z.div_pos; lia).
  assert (Z.of_nat i / chunk ≤ Z.of_nat n / chunk) by (apply Z.div_le_mono; lia).
  lia.
Qed.

(** A table whose rowids are [1 .. n] is cut by the rounds of
    [compression_do] into consecutive pieces: no row is skipped and none is
    read twice. *)
Lemma rounds_cover ts :
  concat ((λ i, select_rows (i * chunk) ((i + 1) * chunk) (table_of ts))
          <$> range (Z.of_nat (length ts) / chunk + 1))
  = table_of ts.
Proof.
  pose proof chunk_pos. unfold range, table_of.
  set (n := Z.of_nat (length ts)).
  etrans; [|apply (concat_filter_sorted (chunk_index chunk) _) with (lo := 0) (m := n / chunk + 1)].
  - replace (n / chunk + 1 - 0) with (n / chunk + 1) by lia.
    f_equal. apply list_fmap_ext. intros k i _.
    apply select_rows_chunk_index.
  - eapply StronglySorted_impl; [|apply number_from_sorted].
    intros a b Hab. simpl in Hab. unfold chunk_index. apply Z.div_le_mono; lia.
  - eapply Forall_impl; [apply number_from_bounds|].
    intros r Hr. simpl in Hr. unfold chunk_index. fold n in Hr. split.
    + apply Z.div_pos; lia.
    + assert ((rowid r - 1) / chunk ≤ n / chunk) by (apply Z.div_le_mono; lia).
      lia.
Qed.

Lemma do_chunk_spec tbl i p :
  pass_wf p →
  let rows := select_rows (i * chunk) ((i + 1) * chunk) tbl in
  ∃ fs ms p',
    do_chunk chunk tbl i p = Some p'
    ∧ pass_wf p'
    ∧ images p' = images p ++ zip_with mkImage fs (seqZ (last_id p + 1) (Z.of_nat (length fs)))
    ∧ map_rows p' = map_rows p ++ ms
    ∧ round_rel (images p') rows ms
    ∧ length ms = length rows
    ∧ (length fs ≤ length rows)%nat
    ∧ (length fs = length rows ↔ NoDup (tile_data ∘ row <$> rows)).
Proof.
  intros Hwf rows. pose proof (pass_wf_length p Hwf) as Hlen.
  destruct Hwf as [Hpos Hids].
  destruct (do_rows_spec (row <$> rows) (last_id p) (mkSeen [] []) p)
    as (fs & ms & sn' & p' & Hrun & Hwf' & Hfiles & Himgs & Hmap & Hall & Hle & Hiff).
  { split_and!; simpl; [done|lia|constructor]. }
  simpl in Hfiles. destruct Hwf' as (_ & Hlast' & Hnd').
  rewrite Hfiles in Hlast', Hnd', Hall.
  rewrite length_fmap in Hle, Hiff.
  apply Forall2_fmap_l in Hall.
  exists fs, ms, p'. unfold do_chunk. fold rows. rewrite Hrun. simpl.
  split_and!; try done.
  - split; [lia|]. rewrite Himgs, fmap_app, Hids, img_ids_zip, Hlast'.
    symmetry. replace (last_id p + 1) with (1 + last_id p) by lia.
    apply seqZ_app; lia.
  - exists (last_id p), fs. split_and!; try done.
    intros k b Hk. rewrite Himgs.
    rewrite lookup_app_r by lia.
    replace (Z.to_nat (last_id p) + k - length (images p))%nat with k by lia.
    rewrite (img_zip_lookup _ _ _ _ Hk). do 2 f_equal.
  - symmetry. by eapply Forall2_length.
  - rewrite Hiff. rewrite list_fmap_compose. split; [by intros [? _]|].
    intros Hnd. split; [done|]. apply Forall_forall. intros r _.
    apply not_elem_of_nil.
Qed.

(** The rounds of one pass, from any round on. *)
Lemma rounds_spec tbl (rounds : list Z) : ∀ p,
  pass_wf p →
  ∃ mss more p',
    for_each (do_chunk chunk tbl) rounds p = Some p'
    ∧ pass_wf p'
    ∧ images p' = images p ++ more
    ∧ map_rows p' = map_rows p ++ concat mss
    ∧ Forall2 (λ i ms,
         round_rel (images p') (select_rows (i * chunk) ((i + 1) * chunk) tbl) ms
         ∧ length ms = length (select_rows (i * chunk) ((i + 1) * chunk) tbl))
        rounds mss
    ∧ (length more ≤ length (concat mss))%nat
    ∧ (length more = length (concat mss) ↔
         Forall (λ i, NoDup (tile_data ∘ row <$>
                   select_rows (i * chunk) ((i + 1) * chunk) tbl)) rounds).
Proof.
  induction rounds as [|i rounds IH]; intros p Hwf.
  - exists [], [], p. simpl. rewrite !app_nil_r. split_and!; try done.
  - destruct (do_chunk_spec tbl i p Hwf)
      as (fs & ms & p1 & Hrun1 & Hwf1 & Himgs1 & Hmap1 & Hrel1 & Hlen1 & Hle1 & Hiff1).
    destruct (IH p1 Hwf1)
      as (mss & more & p' & Hrun & Hwf' & Himgs & Hmap & Hall & Hle & Hiff).
    exists (ms :: mss), (zip_with mkImage fs (seqZ (last_id p + 1) (Z.of_nat (length fs))) ++ more), p'.
    rewrite (for_each_cons _ _ _ _ _ Hrun1).
    assert (Hzl : length (zip_with mkImage fs (seqZ (last_id p + 1) (Z.of_nat (length fs))))
                  = length fs).
    { rewrite length_zip_with, length_seqZ. lia. }
    split_and!; try done.
    + by rewrite Himgs, Himgs1, <- app_assoc.
    + by rewrite Hmap, Hmap1, <- app_assoc.
    + constructor; [|done]. split; [|done]. rewrite Himgs. by apply round_rel_mono.
    + simpl. rewrite !length_app, Hzl. lia.
    + simpl. rewrite !length_app, Hzl, Forall_cons, <- Hiff1, <- Hiff. lia.
Qed.

(** The pass over an imported table. *)
Lemma compression_do_spec ts :
  let tbl := table_of ts in
  let sel := λ i, select_rows (i * chunk) ((i + 1) * chunk) tbl in
  let rounds := range (Z.of_nat (length ts) / chunk + 1) in
  ∃ imgs mss,
    compression_do chunk (compression_prepare (imported ts))
      = Some (mkDb tbl (Some imgs) (Some (concat mss)))
    ∧ img_tile_id <$> imgs = seqZ 1 (Z.of_nat (length imgs))
    ∧ Forall2 (λ i ms, round_rel imgs (sel i) ms ∧ length ms = length (sel i))
              rounds mss
    ∧ (length imgs ≤ length (concat mss))%nat
    ∧ (length imgs = length (concat mss) ↔
         Forall (λ i, NoDup (tile_data ∘ row <$> sel i)) rounds).
Proof.
  pose proof chunk_pos. intros tbl sel rounds.
  destruct (rounds_spec tbl rounds (mkPass 0 [] []))
    as (mss & more & p' & Hrun & Hwf' & Himgs & Hmap & Hall & Hle & Hiff).
  { split; [done|]. by rewrite seqZ_nil. }
  simpl in Himgs, Hmap. exists (images p'), mss.
  pose proof (pass_wf_length _ Hwf') as Hlen. destruct Hwf' as [_ Hids].
  unfold compression_do, compression_prepare, imported. simpl.
  rewrite bool_decide_eq_false_2 by lia.
  replace (length (table_of ts)) with (length ts)
    by (unfold table_of; by rewrite number_from_length).
  fold tbl rounds. rewrite Hrun. simpl. rewrite Hmap.
  split_and!; try done.
  - by rewrite Hlen.
  - by rewrite Himgs.
  - by rewrite Himgs.
Qed.

(** No two rows of one round hold the same blob, said of rounds and said of
    positions in the table. *)
Lemma rounds_NoDup_pairwise ts :
  Forall (λ i, NoDup (tile_data ∘ row <$>
            select_rows (i * chunk) ((i + 1) * chunk) (table_of ts)))
         (range (Z.of_nat (length ts) / chunk + 1))
  ↔ ∀ (i j : nat) ti tj,
      i ≠ j → ts !! i = Some ti → ts !! j = Some tj →
      Z.of_nat i / chunk = Z.of_nat j / chunk → tile_data ti ≠ tile_data tj.
Proof.
  rewrite Forall_forall. split.
  - intros Hall i j ti tj Hij Hi Hj Hsame Hdata.
    assert (Hlt : (i < length ts)%nat) by (by eapply lookup_lt_Some).
    specialize (Hall _ (round_in_range _ _ Hlt)).
    assert (Hri : table_of ts !! i = Some (mkRow (1 + Z.of_nat i) ti))
      by (apply table_of_lookup; eauto).
    assert (Hrj : table_of ts !! j = Some (mkRow (1 + Z.of_nat j) tj))
      by (apply table_of_lookup; eauto).
    assert (Heq : mkRow (1 + Z.of_nat i) ti = mkRow (1 + Z.of_nat j) tj).
    { apply (NoDup_fmap_elem _ _ _ _ Hall); [| |done].
      - apply select_rows_elem. split; [apply chunk_index_table|].
        by eapply list_elem_of_lookup_2.
      - apply select_rows_elem. rewrite chunk_index_table.
        split; [done|]. by eapply list_elem_of_lookup_2. }
    injection Heq as Heq _. lia.
  - intros Hpair c _. apply NoDup_alt. intros a b d Ha Hb.
    rewrite list_lookup_fmap in Ha, Hb.
    destruct (select_rows _ _ _ !! a) as [ra|] eqn:Hra; [|done].
    destruct (select_rows _ _ _ !! b) as [rb|] eqn:Hrb; [|done].
    simpl in Ha, Hb. injection Ha as Ha. injection Hb as Hb.
    destruct (decide (a = b)) as [|Hab]; [done|exfalso].
    assert (Hnd : NoDup (select_rows (c * chunk) ((c + 1) * chunk) (table_of ts)))
      by apply NoDup_filter, table_of_NoDup.
    assert (Hne : ra ≠ rb).
    { intros ->. apply Hab. by eapply (NoDup_lookup _ a b rb Hnd). }
    apply list_elem_of_lookup_2 in Hra, Hrb.
    apply select_rows_elem in Hra as [Hca Hra].
    apply select_rows_elem in Hrb as [Hcb Hrb].
    apply list_elem_of_lookup in Hra as [i Hi]. apply list_elem_of_lookup in Hrb as [j Hj].
    apply table_of_lookup in Hi as (ti & Hi & ->).
    apply table_of_lookup in Hj as (tj & Hj & ->).
    rewrite chunk_index_table in Hca, Hcb. simpl in Ha, Hb.
    apply (Hpair i j ti tj); [congruence|done|done|lia|congruence].
Qed.

(** The address map of a pass read against the table it was made from. *)
Lemma compression_do_resolves ts imgs mss :
  Forall2 (λ i ms,
     round_rel imgs (select_rows (i * chunk) ((i + 1) * chunk) (table_of ts)) ms
     ∧ length ms = length (select_rows (i * chunk) ((i + 1) * chunk) (table_of ts)))
    (range (Z.of_nat (length ts) / chunk + 1)) mss →
  Forall2 (resolves imgs) (table_of ts) (concat mss).
Proof.
  intros Hall. rewrite <- (rounds_cover ts) at 1.
  by apply (rounds_resolve imgs
              (λ i, select_rows (i * chunk) ((i + 1) * chunk) (table_of ts))).
Qed.

End Rounds.

(** ** Compaction: the claims *)

(** C1 (as amended): for every list of tiles and every positive chunk size the
    pass returns; the address map has one entry per tile, in table order, with
    the tile's coordinates; two tiles read in the same round (rowids in the same
    window of [chunk] rowids) with equal blobs get the same blob id; and two
    tiles with different blobs get different blob ids, wherever they are. *)
Theorem compression_do_blob_ids (chunk : Z) (ts : list Tile) :
  0 < chunk →
  ∃ imgs mp,
    compression_do chunk (compression_prepare (imported ts))
      = Some (mkDb (table_of ts) (Some imgs) (Some mp))
    ∧ length mp = length ts
    ∧ ∀ (i j : nat) ti tj mi mj,
        ts !! i = Some ti → ts !! j = Some tj →
        mp !! i = Some mi → mp !! j = Some mj →
        map_coords mi = coords ti
        ∧ (Z.of_nat i / chunk = Z.of_nat j / chunk →
           tile_data ti = tile_data tj → map_tile_id mi = map_tile_id mj)
        ∧ (tile_data ti ≠ tile_data tj → map_tile_id mi ≠ map_tile_id mj).
Proof.
  intros Hc.
  destruct (compression_do_spec chunk Hc ts) as (imgs & mss & Hrun & Hids & Hall & _).
  pose proof (compression_do_resolves chunk Hc ts imgs mss Hall) as Hres.
  exists imgs, (concat mss). split; [done|]. split.
  { rewrite <- (Forall2_length _ _ _ Hres). apply number_from_length. }
  intros i j ti tj mi mj Hi Hj Hmi Hmj.
  assert (Hri : table_of ts !! i = Some (mkRow (1 + Z.of_nat i) ti))
    by (apply table_of_lookup; eauto).
  assert (Hrj : table_of ts !! j = Some (mkRow (1 + Z.of_nat j) tj))
    by (apply table_of_lookup; eauto).
  destruct (Forall2_lookup_lr _ _ _ _ _ _ Hres Hri Hmi) as (Hci & _ & Himi).
  destruct (Forall2_lookup_lr _ _ _ _ _ _ Hres Hrj Hmj) as (_ & _ & Himj).
  simpl in Hci, Himi, Himj. split_and!; [done| |].
  - intros Hsame Hdata.
    set (sel := λ c, select_rows (c * chunk) ((c + 1) * chunk) (table_of ts)) in *.
    pose proof (rounds_lookup (λ c ms, round_rel imgs (sel c) ms) sel _ _ Hall) as Hpos.
    rewrite <- (rounds_cover chunk Hc ts) in Hri, Hrj. fold sel in Hri, Hrj.
    destruct (Hpos _ _ _ Hri Hmi) as (n1 & c1 & ms1 & a1 & Hn1 & Hms1 & Hrel & Ha1 & Hb1).
    destruct (Hpos _ _ _ Hrj Hmj) as (n2 & c2 & ms2 & a2 & Hn2 & Hms2 & _ & Ha2 & Hb2).
    destruct (proj1 (select_rows_elem chunk Hc c1 (table_of ts) _)
                (list_elem_of_lookup_2 _ _ _ Ha1)) as [Hc1 _].
    destruct (proj1 (select_rows_elem chunk Hc c2 (table_of ts) _)
                (list_elem_of_lookup_2 _ _ _ Ha2)) as [Hc2 _].
    rewrite chunk_index_table in Hc1, Hc2.
    assert (c1 = c2) as <- by lia.
    assert (n1 = n2) as <-.
    { unfold range in Hn1, Hn2. eapply NoDup_lookup; [apply NoDup_seqZ|done..]. }
    assert (ms1 = ms2) as <- by congruence.
    by apply (round_rel_same_blob _ _ _ _ _ _ _ _ _ Hrel Ha1 Ha2 Hb1 Hb2).
  - intros Hdata Hid. rewrite Hid in Himi. congruence.
Qed.

Lemma compression_do_blob_ids_witness :
  0 < 256 ∧
  ∃ imgs mp,
    compression_do 256 (compression_prepare (imported sample_tiles))
      = Some (mkDb (table_of sample_tiles) (Some imgs) (Some mp))
    ∧ length mp = length sample_tiles
    ∧ ∀ (i j : nat) ti tj mi mj,
        sample_tiles !! i = Some ti → sample_tiles !! j = Some tj →
        mp !! i = Some mi → mp !! j = Some mj →
        map_coords mi = coords ti
        ∧ (Z.of_nat i / 256 = Z.of_nat j / 256 →
           tile_data ti = tile_data tj → map_tile_id mi = map_tile_id mj)
        ∧ (tile_data ti ≠ tile_data tj → map_tile_id mi ≠ map_tile_id mj).
Proof. split; [lia|]. apply (compression_do_blob_ids 256 sample_tiles). lia. Defined.

Lemma wrap_tiles_run :
  (db' ← compression_do 256 (compression_prepare (imported wrap_tiles));
   imgs ← db_images db'; mp ← db_map db';
   m0 ← mp !! 0%nat; m256 ← mp !! 256%nat;
   Some (length imgs, length mp, map_tile_id m0, map_tile_id m256))
  = Some (257%nat, 257%nat, 1, 257).
Proof. vm_compute. reflexivity. Qed.

Lemma wrap_tiles_ends :
  wrap_tiles !! 0%nat = Some (mkTile 9 0 0 [x00])
  ∧ wrap_tiles !! 256%nat = Some (mkTile 9 0 256 [x00]).
Proof. split; vm_compute; reflexivity. Qed.

(** C1 (as stated) fails: with the chunk size 256 of [disk_to_mbtiles], the
    first and the 257th tile of [wrap_tiles] hold the same blob and get the
    blob ids 1 and 257. *)
Lemma dedup_exact_counterexample : ¬ dedup_exact 256 wrap_tiles.
Proof.
  intros H. pose proof wrap_tiles_run as Hrun.
  destruct (compression_do 256 _) as [db'|] eqn:Hdb; [|done]. simpl in Hrun.
  destruct (db_images db') as [imgs|]; [|done]. simpl in Hrun.
  destruct (db_map db') as [mp|] eqn:Hmp; [|done]. simpl in Hrun.
  destruct (mp !! 0%nat) as [m0|] eqn:Hm0; [|done]. simpl in Hrun.
  destruct (mp !! 256%nat) as [m256|] eqn:Hm256; [|done]. simpl in Hrun.
  injection Hrun as _ _ H0 H256.
  destruct wrap_tiles_ends as [Ht0 Ht256].
  destruct (H db' mp _ _ _ _ _ _ Hdb Hmp Ht0 Ht256 Hm0 Hm256) as [Hsame _].
  specialize (Hsame eq_refl). lia.
Qed.

(** C2 (as amended): for every list of tiles and every positive chunk size the
    pass returns; the address map has as many rows as there are tiles; every
    address entry's blob id is the id of exactly one row of [images]; [images]
    has at most as many rows as [map]; and it has as many exactly when no two
    tiles read in the same round hold the same blob. *)
Theorem compression_do_counts (chunk : Z) (ts : list Tile) :
  0 < chunk →
  ∃ imgs mp,
    compression_do chunk (compression_prepare (imported ts))
      = Some (mkDb (table_of ts) (Some imgs) (Some mp))
    ∧ length mp = length ts
    ∧ (∀ m, m ∈ mp →
         ∃ im, filter (λ im, img_tile_id im = map_tile_id m) imgs = [im])
    ∧ (length imgs ≤ length mp)%nat
    ∧ (length imgs = length mp ↔
         ∀ (i j : nat) ti tj,
           i ≠ j → ts !! i = Some ti → ts !! j = Some tj →
           Z.of_nat i / chunk = Z.of_nat j / chunk →
           tile_data ti ≠ tile_data tj).
Proof.
  intros Hc.
  destruct (compression_do_spec chunk Hc ts)
    as (imgs & mss & Hrun & Hids & Hall & Hle & Hiff).
  pose proof (compression_do_resolves chunk Hc ts imgs mss Hall) as Hres.
  exists imgs, (concat mss). split_and!; [done| | |done|].
  - rewrite <- (Forall2_length _ _ _ Hres). apply number_from_length.
  - intros m Hm. apply list_elem_of_lookup in Hm as [k Hk].
    destruct (Forall2_lookup_r _ _ _ _ _ Hres Hk) as (r & _ & _ & _ & Him).
    eexists. eapply filter_unique; [|exact Him|done].
    rewrite Hids. apply NoDup_seqZ.
  - rewrite Hiff. by apply rounds_NoDup_pairwise.
Qed.

Lemma compression_do_counts_witness :
  0 < 256 ∧
  ∃ imgs mp,
    compression_do 256 (compression_prepare (imported sample_tiles))
      = Some (mkDb (table_of sample_tiles) (Some imgs) (Some mp))
    ∧ length mp = length sample_tiles
    ∧ (∀ m, m ∈ mp →
         ∃ im, filter (λ im, img_tile_id im = map_tile_id m) imgs = [im])
    ∧ (length imgs ≤ length mp)%nat
    ∧ (length imgs = length mp ↔
         ∀ (i j : nat) ti tj,
           i ≠ j → sample_tiles !! i = Some ti → sample_tiles !! j = Some tj →
           Z.of_nat i / 256 = Z.of_nat j / 256 →
           tile_data ti ≠ tile_data tj).
Proof. split; [lia|]. apply (compression_do_counts 256 sample_tiles). lia. Defined.

(** C2 (as stated) fails: [wrap_tiles] holds one blob twice, yet with the
    chunk size 256 the pass stores 257 blobs for its 257 addresses. *)
Lemma counts_exact_counterexample : ¬ counts_exact 256 wrap_tiles.
Proof.
  intros H. pose proof wrap_tiles_run as Hrun.
  destruct (compression_do 256 _) as [db'|] eqn:Hdb; [|done]. simpl in Hrun.
  destruct (db_images db') as [imgs|] eqn:Himgs; [|done]. simpl in Hrun.
  destruct (db_map db') as [mp|] eqn:Hmp; [|done]. simpl in Hrun.
  destruct (mp !! 0%nat) as [m0|]; [|done]. simpl in Hrun.
  destruct (mp !! 256%nat) as [m256|]; [|done]. simpl in Hrun.
  injection Hrun as Hli Hlm _ _.
  destruct (H db' imgs mp Hdb Himgs Hmp) as (_ & _ & _ & Hiff).
  assert (Hnd : NoDup (tile_data <$> wrap_tiles)) by (apply Hiff; congruence).
  destruct wrap_tiles_ends as [Ht0 Ht256].
  assert (0 = 256)%nat; [|done].
  apply (NoDup_lookup _ _ _ [x00] Hnd); rewrite list_lookup_fmap.
  - by rewrite Ht0.
  - by rewrite Ht256.
Qed.

(** Under distinct coordinates the blobs read at a coordinate do not depend
    on the order of the rows. *)
Lemma blobs_at_perm (c : Z * Z * Z) (rows ts : list Tile) :
  NoDup (coords <$> ts) → rows ≡ₚ ts → blobs_at c rows = blobs_at c ts.
Proof.
  intros Hnd Hp. unfold blobs_at. f_equal.
  assert (Hf : filter (λ t, coords t = c) rows ≡ₚ filter (λ t, coords t = c) ts)
    by (by rewrite Hp).
  assert (Hsub : NoDup (coords <$> filter (λ t, coords t = c) ts)).
  { apply (sublist_NoDup _ (coords <$> ts)); [exact Hnd|].
    apply fmap_sublist. apply sublist_filter. }
  destruct (filter (λ t, coords t = c) ts) as [|a [|b l]] eqn:Hts.
  - by apply Permutation_nil_r in Hf.
  - by apply Permutation_singleton_r in Hf.
  - exfalso.
    assert (Ha : a ∈ filter (λ t, coords t = c) ts) by (rewrite Hts; left).
    assert (Hb : b ∈ filter (λ t, coords t = c) ts) by (rewrite Hts; right; left).
    apply list_elem_of_filter in Ha as [Ha _], Hb as [Hb _].
    rewrite !fmap_cons in Hsub. apply NoDup_cons in Hsub as [Hin _].
    apply Hin. rewrite Ha, <- Hb. left.
Qed.

(** C7: for every list of tiles with pairwise different coordinates (what the
    unique index [tile_index] allows), each coordinate a 64-bit integer, and
    every positive chunk size, the inserts, the pass and the finalization all
    return, and the view [tiles] holds the rows of the original table: in
    whatever order its rows are read, they are the rows of the table up to
    order, and every coordinate reads the same blobs as before. *)
Theorem tiles_view_preserved (chunk : Z) (ts : list Tile) :
  0 < chunk →
  NoDup (coords <$> ts) →
  Forall sql_coords ts →
  ∃ cdb,
    insert_tiles ts mbtiles_setup = Some (imported ts)
    ∧ compress chunk (imported ts) = Some cdb
    ∧ ∀ rows, rows ≡ₚ read_tiles_view cdb →
        rows ≡ₚ read_tiles (imported ts)
        ∧ ∀ c, blobs_at c rows = blobs_at c (read_tiles (imported ts)).
Proof.
  intros Hc Hnd _.
  destruct (compression_do_spec chunk Hc ts) as (imgs & mss & Hrun & Hids & Hall & _).
  pose proof (compression_do_resolves chunk Hc ts imgs mss Hall) as Hres.
  assert (Hidnd : NoDup (img_tile_id <$> imgs)) by (rewrite Hids; apply NoDup_seqZ).
  assert (Hread : read_tiles (imported ts) = ts) by apply number_from_row.
  assert (Hview : join_view (concat mss) imgs = ts).
  { rewrite (resolves_join _ _ _ Hidnd Hres). apply number_from_row. }
  assert (Hcoords : map_coords <$> concat mss = coords <$> ts).
  { transitivity (coords <$> (row <$> table_of ts)); [|unfold table_of; by rewrite number_from_row].
    symmetry. apply list_eq_Forall2, Forall2_fmap, Forall2_fmap_l.
    eapply Forall2_impl; [exact Hres|]. by intros r m (Heq & _). }
  exists (mkCompactDb imgs (concat mss)). split_and!.
  - apply (insert_tiles_imported ts []). by rewrite app_nil_l.
  - unfold compress. rewrite Hrun. simpl. unfold compression_finalize. simpl.
    rewrite bool_decide_eq_true_2; [done|]. by rewrite Hcoords.
  - intros rows Hrows. unfold read_tiles_view in Hrows. simpl in Hrows.
    rewrite Hview in Hrows. rewrite Hread. split; [done|].
    intros c. by apply blobs_at_perm.
Qed.

Lemma tiles_view_preserved_witness :
  0 < 256 ∧ NoDup (coords <$> sample_tiles) ∧ Forall sql_coords sample_tiles ∧
  ∃ cdb,
    insert_tiles sample_tiles mbtiles_setup = Some (imported sample_tiles)
    ∧ compress 256 (imported sample_tiles) = Some cdb
    ∧ ∀ rows, rows ≡ₚ read_tiles_view cdb →
        rows ≡ₚ read_tiles (imported sample_tiles)
        ∧ ∀ c, blobs_at c rows = blobs_at c (read_tiles (imported sample_tiles)).
Proof.
  assert (Hnd : NoDup (coords <$> sample_tiles)).
  { apply (bool_decide_unpack (NoDup (coords <$> sample_tiles))).
    vm_compute. exact I. }
  assert (Hint : Forall sql_coords sample_tiles).
  { repeat constructor; by vm_compute. }
  split; [lia|]. split; [exact Hnd|]. split; [exact Hint|].
  apply (tiles_view_preserved 256 sample_tiles); [lia|exact Hnd|exact Hint].
Defined.

(** The rounds read the rowids [1 .. (total // chunk + 1) * chunk].  The tables
    [disk_to_mbtiles] builds have no rowid beyond their row count; on a table
    with a larger rowid (rows deleted before the pass) the row is not read and
    gets no address entry. *)
Lemma compression_do_rowid_gap :
  compression_do 256 (compression_prepare (mkDb gap_table None None))
  = Some (mkDb gap_table (Some [mkImage [x01] 1]) (Some [mkMap 0 0 0 1])).
Proof. vm_compute. reflexivity. Qed.

(** ** Coordinate transform *)

(** C8: [flip_y zoom y] is [(2^zoom - 1) - y]; for [0 ≤ zoom] and
    [0 ≤ y < 2^zoom] applying it twice gives [y] back, and the flipped row is
    again a row of that zoom level. *)
Theorem flip_y_involution (zoom y : Z) :
  0 ≤ zoom → 0 ≤ y < 2 ^ zoom →
  flip_y zoom y = (2 ^ zoom - 1) - y
  ∧ flip_y zoom (flip_y zoom y) = y
  ∧ 0 ≤ flip_y zoom y < 2 ^ zoom.
Proof. intros Hz Hy. unfold flip_y. lia. Qed.

Lemma flip_y_involution_witness :
  0 ≤ 3 ∧ 0 ≤ 5 < 2 ^ 3 ∧
  flip_y 3 5 = (2 ^ 3 - 1) - 5
  ∧ flip_y 3 (flip_y 3 5) = 5
  ∧ 0 ≤ flip_y 3 5 < 2 ^ 3.
Proof.
  split; [lia|]. split; [simpl; lia|].
  apply (flip_y_involution 3 5); simpl; lia.
Defined.

(** ** The producer of [mbtiles_to_url] *)

Lemma submitted_act a p :
  submitted (act a p)
  = submitted p ++ match a with ActSubmit t => [t] | _ => [] end.
Proof. unfold submitted, act. simpl. rewrite omap_app. by destruct a. Qed.

Lemma reported_counts_act a p :
  reported_counts (act a p)
  = reported_counts p ++ match a with ActLogExported _ c _ => [c] | _ => [] end.
Proof. unfold reported_counts, act. simpl. rewrite omap_app. by destruct a. Qed.

Lemma submit_tile_submitted silent count t p :
  submitted (submit_tile silent count t p) = submitted p ++ [t].
Proof.
  unfold submit_tile, doneCb.
  destruct silent; simpl; rewrite ?submitted_act; simpl;
    unfold submitted; simpl; rewrite ?omap_app; simpl; by rewrite ?app_nil_r.
Qed.

Lemma submit_tile_reported silent count t p :
  reported_counts (submit_tile silent count t p)
  = reported_counts p ++ (if silent then [] else [count]).
Proof.
  unfold submit_tile, doneCb.
  destruct silent; simpl; unfold reported_counts; simpl;
    rewrite ?omap_app; simpl; by rewrite ?app_nil_r.
Qed.

Lemma submit_tiles_submitted silent count rows : ∀ p,
  submitted (submit_tiles silent count rows p) = submitted p ++ rows.
Proof.
  induction rows as [|t rows IH]; intros p; simpl.
  - by rewrite app_nil_r.
  - by rewrite IH, submit_tile_submitted, <- app_assoc.
Qed.

Lemma submit_tiles_reported silent count rows : ∀ p,
  reported_counts (submit_tiles silent count rows p)
  = reported_counts p ++ (if silent then [] else replicate (length rows) count).
Proof.
  induction rows as [|t rows IH]; intros p; simpl.
  - destruct silent; by rewrite app_nil_r.
  - rewrite IH, submit_tile_reported, <- app_assoc. by destruct silent.
Qed.

(** The producer up to the grid phase, whatever the store holds as grids. *)
Lemma mbtiles_to_url_tiles st maxzoom prefix silent p0 :
  let p := (mbtiles_to_url st maxzoom prefix silent p0).1 in
  submitted p = submitted p0 ++ tiles_upto maxzoom st
  ∧ reported_counts p
    = reported_counts p0
      ++ (if silent then []
          else replicate (length (tiles_upto maxzoom st)) (count_upto maxzoom st)).
Proof.
  unfold mbtiles_to_url.
  set (p1 := act _ p0).
  set (p2 := match dict_get _ _ with Some _ => _ | None => _ end).
  assert (Hs : submitted p2 = submitted p0).
  { unfold p2. destruct (dict_get _ _) as [f|]; [case_bool_decide|];
      unfold p1; rewrite ?submitted_act; simpl; by rewrite ?app_nil_r. }
  assert (Hr : reported_counts p2 = reported_counts p0).
  { unfold p2. destruct (dict_get _ _) as [f|]; [case_bool_decide|];
      unfold p1; rewrite ?reported_counts_act; simpl; by rewrite ?app_nil_r. }
  destruct (st_grids st ≫= head); simpl;
    (split;
     [ change (submitted (submit_tiles silent (count_upto maxzoom st)
                 (tiles_upto maxzoom st) (mkProducer 0 0 (permits p2) (actions p2)))
               = submitted p0 ++ tiles_upto maxzoom st);
       by rewrite submit_tiles_submitted, <- Hs
     | change (reported_counts (submit_tiles silent (count_upto maxzoom st)
                 (tiles_upto maxzoom st) (mkProducer 0 0 (permits p2) (actions p2)))
               = reported_counts p0 ++
                 (if silent then []
                  else replicate (length (tiles_upto maxzoom st)) (count_upto maxzoom st)));
       by rewrite submit_tiles_reported, <- Hr ]).
Qed.

(** C10: in every run of [mbtiles_to_url] with an integer [maxzoom], the tiles
    handed to the executor are the tiles of the store with
    [zoom_level ≤ maxzoom], each once and in storage order; so a tile is
    submitted exactly when its zoom level is at most [maxzoom]; and every
    progress line reports as total the number of those tiles. *)
Theorem mbtiles_to_url_maxzoom (st : Store) (maxzoom : Z) (prefix : string)
    (silent : bool) :
  let p := (mbtiles_to_url st maxzoom prefix silent idle).1 in
  submitted p = filter (λ t, zoom_level t ≤ maxzoom) (st_tiles st)
  ∧ (∀ t, t ∈ submitted p ↔ t ∈ st_tiles st ∧ zoom_level t ≤ maxzoom)
  ∧ count_upto maxzoom st
    = Z.of_nat (length (filter (λ t, zoom_level t ≤ maxzoom) (st_tiles st)))
  ∧ Forall (λ c, c = count_upto maxzoom st) (reported_counts p)
  ∧ (silent = false → length (reported_counts p) = length (submitted p)).
Proof.
  intros p.
  destruct (mbtiles_to_url_tiles st maxzoom prefix silent idle) as [Hs Hr].
  fold p in Hs, Hr. simpl in Hs, Hr. unfold tiles_upto in Hs.
  split_and!.
  - done.
  - intros t. rewrite Hs, list_elem_of_filter. tauto.
  - done.
  - rewrite Hr. destruct silent; [constructor|].
    apply Forall_forall. intros c Hc. by apply elem_of_replicate in Hc as [-> _].
  - intros ->. rewrite Hr, Hs, length_replicate. done.
Qed.

(** C9: when the [grids] table holds a row, the run raises "grids are not
    supported" in the grid phase, after every tile up to [maxzoom] has been
    handed to the executor; without a [grids] table, or with an empty one, the
    run completes. *)
Theorem mbtiles_to_url_grids (st : Store) (maxzoom : Z) (prefix : string)
    (silent : bool) :
  let r := mbtiles_to_url st maxzoom prefix silent idle in
  ((∃ g gs, st_grids st = Some (g :: gs)) ↔ r.2 = Raised GridsNotSupported)
  ∧ (st_grids st = None ∨ st_grids st = Some [] ↔ r.2 = Completed)
  ∧ submitted r.1 = tiles_upto maxzoom st.
Proof.
  intros r.
  destruct (mbtiles_to_url_tiles st maxzoom prefix silent idle) as [Hs _].
  fold r in Hs. simpl in Hs. split_and!; [| |done].
  - unfold r, mbtiles_to_url.
    destruct (st_grids st) as [[|g gs]|]; simpl; split; try done.
    + by intros (g & gs & ?).
    + intros _. by exists g, gs.
    + by intros (g & gs & ?).
  - unfold r, mbtiles_to_url.
    destruct (st_grids st) as [[|g gs]|]; simpl; split; try done; auto.
    by intros [?|?].
Qed.

(** ** Token acquisition: the library under [http.request] *)

Lemma posts_app tr1 tr2 : posts (tr1 ++ tr2) = posts tr1 ++ posts tr2.
Proof. apply omap_app. Qed.
Lemma key_lines_app tr1 tr2 : key_lines (tr1 ++ tr2) = key_lines tr1 ++ key_lines tr2.
Proof. apply omap_app. Qed.

(** Reading the POSTs and the key lines off a trace that ends in known events. *)
Ltac trace_norm := rewrite ?posts_app, ?key_lines_app; simpl; rewrite ?app_nil_r.

(** One request of the library, written out. *)
Lemma urlopen_unfold n w :
  urlopen n w
  = match lease_replies w with
    | [] => Blocked (mkWorld (upload_urls w) [] (post_replies w) (next_obj w)
                             (trace w ++ [EvGet]))
    | resp :: rest =>
        let w1 := mkWorld (upload_urls w) rest (post_replies w) (next_obj w)
                          (trace w ++ [EvGet]) in
        match n with
        | S n' =>
            if urllib3_retry resp then
              match header_seconds resp with
              | Some m =>
                  urlopen n'
                    (mkWorld (upload_urls w) rest (post_replies w) (next_obj w)
                       (trace w ++ EvGet :: (if bool_decide (m = 0) then []
                                             else [EvSleep m])))
              | None => Raise InvalidHeader w1
              end
            else Ret resp w1
        | O => Ret resp w1
        end
    end.
Proof.
  destruct n as [|n]; simpl; unfold bind at 1; unfold wire_get;
    destruct (lease_replies w) as [|resp rest]; try done.
  destruct (urllib3_retry resp); [|done].
  unfold bind at 1. unfold sleep_for_retry, header_seconds.
  destruct (lease_retry_after resp ≫= parse_retry_after) as [m|]; [|done].
  case_bool_decide; unfold ret, emit; simpl; [done|]. by rewrite <- app_assoc.
Qed.

(** A reply the library hands on. *)
Lemma urlopen_pass n r rest w :
  lease_replies w = r :: rest →
  n = O ∨ urllib3_retry r = false →
  urlopen n w
  = Ret r (mkWorld (upload_urls w) rest (post_replies w) (next_obj w)
                   (trace w ++ [EvGet])).
Proof.
  intros Hw Hr. rewrite urlopen_unfold, Hw. simpl.
  destruct n as [|n]; [done|]. destruct Hr as [Hn|Hr]; [done|]. by rewrite Hr.
Qed.

Lemma http_get_pass r rest w :
  lease_replies w = r :: rest → urllib3_retry r = false →
  http_get w
  = Ret r (mkWorld (upload_urls w) rest (post_replies w) (next_obj w)
                   (trace w ++ [EvGet])).
Proof. intros Hw Hr. apply urlopen_pass; auto. Qed.


(** What one request of the library leaves behind: the pool, the upload
    replies and the objects are untouched, nothing is posted or logged, and
    the replies used up are those the library answered itself and the one it
    hands on. *)
Lemma urlopen_spec n : ∀ w,
  upload_urls (world_of (urlopen n w)) = upload_urls w
  ∧ post_replies (world_of (urlopen n w)) = post_replies w
  ∧ next_obj (world_of (urlopen n w)) = next_obj w
  ∧ posts (trace (world_of (urlopen n w))) = posts (trace w)
  ∧ key_lines (trace (world_of (urlopen n w))) = key_lines (trace w)
  ∧ ∃ hdr, Forall (λ r, urllib3_retry r = true) hdr
      ∧ match urlopen n w with
        | Ret resp w1 => lease_replies w = hdr ++ resp :: lease_replies w1
        | Raise e w1 => lease_replies w = hdr ++ lease_replies w1
        | Blocked w1 => lease_replies w = hdr ∧ lease_replies w1 = []
        end.
Proof.
  induction n as [|n IH]; intros w; rewrite urlopen_unfold;
    destruct (lease_replies w) as [|resp rest] eqn:Hw; simpl.
  - trace_norm. split_and!; try done. by exists [].
  - trace_norm. split_and!; try done. by exists [].
  - trace_norm. split_and!; try done. by exists [].
  - destruct (urllib3_retry resp) eqn:Hr.
    + destruct (header_seconds resp) as [m|].
      * match goal with |- context [urlopen n ?w'] => specialize (IH w') end.
        destruct IH as (-> & -> & -> & -> & -> & hdr & Hhdr & Hrest). simpl.
        split_and!; try done.
        -- trace_norm. by case_bool_decide; simpl; rewrite ?app_nil_r.
        -- trace_norm. by case_bool_decide; simpl; rewrite ?app_nil_r.
        -- exists (resp :: hdr). split; [by constructor|].
           match goal with |- context [urlopen n ?w'] => destruct (urlopen n w') end;
             simpl in *.
           ++ by rewrite Hrest.
           ++ by rewrite Hrest.
           ++ destruct Hrest as [-> ?]. done.
      * simpl. trace_norm. split_and!; try done. exists [resp]. split; [|done].
        by constructor.
    + simpl. trace_norm. split_and!; try done. by exists [].
Qed.




(** ** Token acquisition: the retry rounds *)


(** One round of the loop, written out. *)
Lemma get_upload_url_loop_step fuel s w :
  get_upload_url_loop (S fuel) s w
  = match http_get w with
    | Ret resp w1 =>
        let w2 := mkWorld (upload_urls w1) (lease_replies w1) (post_replies w1)
                          (next_obj w1) (trace w1 ++ [EvSleep s]) in
        if bool_decide (lease_status resp = 200) then
          match lease_json resp with
          | Some (u, a) =>
              let t := mkToken (next_obj w1) u a in
              Ret t (mkWorld (upload_urls w1) (lease_replies w1) (post_replies w1)
                             (S (next_obj w1))
                             (trace w1 ++ [EvLog (LogAddedWorker t)]))
          | None => Raise JSONDecodeError w1
          end
        else if bool_decide (lease_status resp = 429) then
          match lease_retry_after resp with
          | Some _ => Raise TypeError w1
          | None => get_upload_url_loop fuel 1 w2
          end
        else if bool_decide (lease_status resp = 503) then
          get_upload_url_loop fuel (s * 2) w2
        else Raise CouldNotAccessUrl w1
    | Raise e w1 => Raise e w1
    | Blocked w1 => Blocked w1
    end.
Proof.
  simpl. unfold bind at 1.
  destruct (http_get w) as [resp w1|e w1|w1]; [|done..]. simpl.
  repeat case_bool_decide; try done.
  - unfold bind, json_loads, log, emit, ret.
    by destruct (lease_json resp) as [[u a]|].
  - unfold bind, headers_get_retry_after, time_sleep, emit, raise.
    by destruct (lease_retry_after resp).
Qed.



Lemma backoff_503 (n j : nat) :
  backoff j (replicate n lease_503) = (λ k, 2 ^ (Z.of_nat j + k)) <$> seqZ 0 (Z.of_nat n).
Proof.
  revert j. induction n as [|n IH]; intros j; [done|].
  rewrite (seqZ_cons 0) by lia. simpl. rewrite IH. f_equal.
  - f_equal. lia.
  - replace (Z.pred (Z.of_nat (S n))) with (Z.of_nat n) by lia.
    rewrite <- (fmap_add_seqZ 1 0), <- list_fmap_compose.
    apply list_fmap_ext. intros _ k _. simpl. f_equal. lia.
Qed.

(** After [n] 503 replies a 429 without header sleeps [2^n] seconds, not one;
    the reply after it is met with a sleep of one second again. *)
Lemma backoff_429_after_503 (n : nat) tail :
  backoff 0 (replicate n lease_503 ++ lease_429 :: tail)
  = ((λ k, 2 ^ k) <$> seqZ 0 (Z.of_nat n)) ++ 2 ^ Z.of_nat n :: backoff 0 tail.
Proof.
  enough (H : ∀ j, backoff j (replicate n lease_503 ++ lease_429 :: tail)
            = backoff j (replicate n lease_503)
              ++ 2 ^ Z.of_nat (j + n) :: backoff 0 tail).
  { rewrite H, backoff_503. simpl. done. }
  induction n as [|n IH]; intros j; simpl.
  - by rewrite Nat.add_0_r.
  - rewrite IH. by replace (S j + n)%nat with (j + S n)%nat by lia.
Qed.

Lemma sleeps_retry_events j pre : sleeps (retry_events j pre) = backoff j pre.
Proof.
  unfold retry_events, sleeps. generalize (backoff j pre).
  induction l as [|d l IH]; [done|]. csimpl. by rewrite IH.
Qed.


(** *** Rounds with replies the library answers *)

Lemma round_events_cons j rd rds :
  round_events j (rd :: rds)
  = library_events rd.1 ++ [EvGet; EvSleep (2 ^ Z.of_nat j)]
    ++ round_events (if bool_decide (lease_status rd.2 = 429) then O else S j) rds.
Proof. unfold round_events. rewrite fmap_cons. cbn [backoff zip_with concat]. by rewrite <- app_assoc. Qed.




(** Rounds in which the library answers nothing are the rounds of
    [retry_events]. *)
Lemma round_events_plain pre : ∀ j,
  round_events j ((λ r, ([], r)) <$> pre) = retry_events j pre.
Proof.
  induction pre as [|r pre IH]; intros j; [done|].
  rewrite fmap_cons, round_events_cons, IH. done.
Qed.







(** The scenario of a 429 that carries [Retry-After: 3]: the library sleeps
    three seconds and asks again, and the call returns the token of the 200
    that follows. *)
Lemma get_upload_url_retry_after_header :
  get_upload_url (fresh_world [lease_429_after "3"; lease_200 "u" "a"] [])
  = Ret (mkToken 0 "u" "a")
        (mkWorld [] [] [] 1
           [EvGet; EvSleep 3; EvGet; EvLog (LogAddedWorker (mkToken 0 "u" "a"))]).
Proof. reflexivity. Qed.

(** The caller of [get_upload_url] survives its exception: the token
    endpoint refuses with a 403, [upload_file] logs the exception as the
    failure of attempt 1 and goes on to attempt 2, which succeeds. *)
Lemma upload_file_after_lease_refusal :
  key_lines (trace (world_of
    (upload_file (load_resume None None) (Bytes [x01]) "9/0/0.png"
       (fresh_world [mkLease 403 None None; lease_200 "https://pod/upload" "token"]
                    [PostReply 200 true]))))
  = [LogAttemptException 1 "9/0/0.png" CouldNotAccessUrl; LogSuccess "9/0/0.png"].
Proof. vm_compute. reflexivity. Qed.

(** ** Token acquisition in any world *)

(** A call touches neither the pool nor the upload replies, posts nothing and
    logs nothing about a key; it makes one new object when it returns and none
    otherwise. *)
Lemma get_upload_url_loop_effect fuel : ∀ s w r,
  get_upload_url_loop fuel s w = r →
  upload_urls (world_of r) = upload_urls w
  ∧ post_replies (world_of r) = post_replies w
  ∧ posts (trace (world_of r)) = posts (trace w)
  ∧ key_lines (trace (world_of r)) = key_lines (trace w)
  ∧ match r with
    | Ret t w' => tok_obj t = next_obj w ∧ next_obj w' = S (next_obj w)
    | Raise _ w' | Blocked w' => next_obj w' = next_obj w
    end.
Proof.
  induction fuel as [|fuel IH]; intros s w r <-; [done|].
  rewrite get_upload_url_loop_step.
  destruct (urlopen_spec 3 w) as (Hp & Hq & Hobj & Hps & Hkl & _).
  fold http_get in Hp, Hq, Hobj, Hps, Hkl.
  destruct (http_get w) as [resp w1|e w1|w1]; simpl in *; [|done..].
  repeat case_bool_decide.
  - destruct (lease_json resp) as [[u a]|]; simpl;
      trace_norm; rewrite ?Hobj; done.
  - destruct (lease_retry_after resp); simpl.
    { by trace_norm. }
    edestruct (IH 1) as (-> & -> & -> & -> & IH'); [done|]. simpl.
    rewrite !posts_app, !key_lines_app, !app_nil_r, <- Hobj. done.
  - edestruct (IH (s * 2)) as (-> & -> & -> & -> & IH'); [done|]. simpl.
    rewrite !posts_app, !key_lines_app, !app_nil_r, <- Hobj. done.
  - simpl. done.
Qed.

Lemma get_upload_url_effect w r :
  get_upload_url w = r →
  upload_urls (world_of r) = upload_urls w
  ∧ post_replies (world_of r) = post_replies w
  ∧ posts (trace (world_of r)) = posts (trace w)
  ∧ key_lines (trace (world_of r)) = key_lines (trace w)
  ∧ match r with
    | Ret t w' => tok_obj t = next_obj w ∧ next_obj w' = S (next_obj w)
    | Raise _ w' | Blocked w' => next_obj w' = next_obj w
    end.
Proof. apply get_upload_url_loop_effect. Qed.





Lemma list_pop_None {A} (l : list A) : list_pop l = None → l = [].
Proof. destruct l as [|y l]; simpl; [done|]. by destruct (list_pop l) as [[? ?]|]. Qed.

Lemma list_pop_Some {A} (l : list A) rest x :
  list_pop l = Some (rest, x) → l = rest ++ [x].
Proof.
  revert rest. induction l as [|y l IH]; intros rest; simpl; [done|].
  destruct (list_pop l) as [[init z]|] eqn:Hl.
  - intros [= <- <-]. by rewrite (IH init eq_refl).
  - apply list_pop_None in Hl as ->. by intros [= <- <-].
Qed.

Lemma take_token_cases w :
  (∃ rest t, list_pop (upload_urls w) = Some (rest, t)
             ∧ take_token w = Ret t (mkWorld rest (lease_replies w) (post_replies w)
                                             (next_obj w) (trace w)))
  ∨ (list_pop (upload_urls w) = None ∧ take_token w = get_upload_url w).
Proof.
  unfold take_token. destruct (list_pop (upload_urls w)) as [[rest t]|]; eauto.
Qed.


(** Taking a token: out of a well-formed pool comes a token that is in the
    pool no more; a leased token is a new object. *)
Lemma take_token_tokens w r :
  wf_world w → take_token w = r →
  posts (trace (world_of r)) = posts (trace w)
  ∧ (next_obj w ≤ next_obj (world_of r))%nat
  ∧ (∀ x, x ∈ pool_ids (world_of r) → x ∈ pool_ids w)
  ∧ wf_world (world_of r)
  ∧ match r with
    | Ret t w1 =>
        (tok_obj t ∉ pool_ids w1) ∧ (tok_obj t < next_obj w1)%nat
        ∧ (tok_obj t ∈ pool_ids w ∨ tok_obj t = next_obj w)
    | _ => True
    end.
Proof.
  intros [Hnd Hlt] <-.
  destruct (take_token_cases w) as [(rest & t & Hpop & ->)|[_ ->]].
  - apply list_pop_Some in Hpop. unfold wf_world, pool_ids in *. simpl.
    rewrite Hpop, fmap_app in Hnd, Hlt |- *. simpl in *.
    apply NoDup_app in Hnd as (Hnd1 & Hdis & _).
    apply Forall_app in Hlt as [Hlt1 Hlt2]. rewrite Forall_singleton in Hlt2.
    split_and!; try done.
    + intros x Hx. apply elem_of_app. by left.
    + intros Hin. apply (Hdis _ Hin). by apply list_elem_of_singleton.
    + left. apply elem_of_app. right. by apply list_elem_of_singleton.
  - destruct (get_upload_url_effect w _ eq_refl) as (Hpool & _ & Hps & _ & Hobj).
    unfold wf_world, pool_ids in *.
    destruct (get_upload_url w) as [t w1|e w1|w1]; simpl in *; rewrite Hpool.
    + destruct Hobj as [Ht Hn]. rewrite Hn, Ht. split_and!; try done; [lia| | |lia|by right].
      * eapply Forall_impl; [exact Hlt|]. simpl. lia.
      * intros Hin. rewrite Forall_forall in Hlt. specialize (Hlt _ Hin). lia.
    + rewrite Hobj. split_and!; done.
    + rewrite Hobj. split_and!; done.
Qed.


Lemma posts_since_app w w' ps :
  posts (trace w') = posts (trace w) ++ ps → posts_since w w' = ps.
Proof. intros H. unfold posts_since. rewrite H. apply drop_app_length. Qed.

(** ** The attempts of one [upload_file] call *)

Section Attempts.

(** The payload and the key of the call. *)
Context (data : Payload) (key : string).

Lemma upload_attempt_unfold a :
  upload_attempt data key a
  = try_except
      (let* _ := sha1 data in
       let* uploadurl := take_token in
       post_with key a uploadurl)
      (λ e, let* _ := log (LogAttemptException (a + 1) key e) in ret false).
Proof. reflexivity. Qed.



(** Posting with a token that is held outside the pool. *)
Lemma post_with_tokens a t w1 r :
  wf_world w1 → tok_obj t ∉ pool_ids w1 → (tok_obj t < next_obj w1)%nat →
  post_with key a t w1 = r →
  next_obj (world_of r) = next_obj w1
  ∧ wf_world (world_of r)
  ∧ (∀ x, x ∈ pool_ids (world_of r) → x ∈ pool_ids w1 ∨ x = tok_obj t)
  ∧ ∃ ps, posts (trace (world_of r)) = posts (trace w1) ++ ps
          ∧ (ps = [] ∨ ∃ pr, ps = [(t, pr)] ∧ token_after pr t (world_of r)).
Proof.
  intros [Hnd Hlt] Hout Hnew Hr.
  unfold post_with, bind, http_post, pool_append, time_sleep, log, emit, ret,
    raise in Hr.
  destruct (post_replies w1) as [|pr prs] eqn:Hw; simpl in Hr.
  { subst r. simpl. split_and!; try done; [by left|]. exists [].
    rewrite app_nil_r. eauto. }
  assert (Hwf' : ∀ tr, wf_world (mkWorld (upload_urls w1 ++ [t]) (lease_replies w1) prs
                                         (next_obj w1) tr)).
  { intros tr. unfold wf_world, pool_ids in *. simpl. rewrite fmap_app. simpl. split.
    - apply NoDup_app. split_and!; [done| |apply NoDup_singleton].
      intros x Hx Hx'. apply list_elem_of_singleton in Hx'. by subst.
    - apply Forall_app. split; [done|]. by apply Forall_singleton. }
  assert (Hin' : ∀ x, x ∈ tok_obj <$> upload_urls w1 ++ [t]
                      → x ∈ pool_ids w1 ∨ x = tok_obj t).
  { intros x Hx. rewrite fmap_app in Hx. apply elem_of_app in Hx as [?|Hx]; [by left|].
    right. by apply list_elem_of_singleton in Hx. }
  destruct pr as [status decodes|]; simpl in Hr.
  - destruct (decide (status = 401)) as [->|H401].
    + simpl in Hr. destruct decodes; simpl in Hr; subst r; simpl;
        (split_and!; [done|done|by left|]);
        trace_norm; eexists;
        (split; [reflexivity|]); right; eexists; (split; [reflexivity|]); done.
    + rewrite (bool_decide_eq_true_2 (status ≠ 401)) in Hr by done.
      destruct (bool_decide (status = 200)),
        (bool_decide (status = 408 ∨ status = 429)), decodes; simpl in Hr;
        subst r; simpl;
        (split_and!; [done|apply Hwf'|apply Hin'|]);
        trace_norm; eexists;
        (split; [reflexivity|]); right; eexists; (split; [reflexivity|]);
        unfold token_after; rewrite (bool_decide_eq_false_2 (status = 401)) by done;
        simpl; by rewrite last_snoc.
  - subst r. simpl. split_and!; [done|done|by left|].
    eexists. rewrite posts_app. simpl. split; [reflexivity|].
    right. eexists. split; [reflexivity|]. done.
Qed.

(** One attempt and the tokens: the pool stays well formed; whatever is in
    the pool afterwards was there before or is a new object; and the attempt
    makes at most one POST, with a token taken out of the pool or newly made,
    which is afterwards where [token_after] says. *)
Lemma upload_attempt_tokens a w r :
  wf_world w → upload_attempt data key a w = r →
  wf_world (world_of r)
  ∧ (next_obj w ≤ next_obj (world_of r))%nat
  ∧ (∀ x, x ∈ pool_ids (world_of r) → x ∈ pool_ids w ∨ (next_obj w ≤ x)%nat)
  ∧ ∃ ps, posts (trace (world_of r)) = posts (trace w) ++ ps
          ∧ (ps = []
             ∨ ∃ t pr, ps = [(t, pr)]
                       ∧ (tok_obj t < next_obj (world_of r))%nat
                       ∧ (tok_obj t ∈ pool_ids w ∨ (next_obj w ≤ tok_obj t)%nat)
                       ∧ token_after pr t (world_of r)).
Proof.
  intros Hwf Hr. rewrite upload_attempt_unfold in Hr.
  unfold try_except in Hr. unfold bind at 1 in Hr.
  assert (Hlog : ∀ l w2 r2,
            (let* _ := log l in ret false) w2 = r2 →
            r2 = Ret false (mkWorld (upload_urls w2) (lease_replies w2)
                              (post_replies w2) (next_obj w2) (trace w2 ++ [EvLog l]))).
  { by intros l w2 r2 <-. }
  assert (Hsha : (∃ obj, data = JsonStr obj) ∨ sha1 data w = Ret tt w).
  { destruct data; eauto. }
  destruct Hsha as [[obj ->]|Hsha].
  { simpl in Hr. apply Hlog in Hr as ->. simpl.
    split_and!; [done|done|by left|]. exists []. rewrite posts_app. eauto. }
  rewrite Hsha in Hr. unfold bind at 1 in Hr.
  destruct (take_token w) as [t w1|e w1|w1] eqn:Htake;
    destruct (take_token_tokens w _ Hwf Htake) as (Hps1 & Hn1 & Hin1 & Hwf1 & Ht);
    simpl in Hps1, Hn1, Hin1, Hwf1, Ht.
  - destruct Ht as (Hout & Hnew & Hfrom).
    destruct (post_with key a t w1) as [b w2|e w2|w2] eqn:Hpost;
      destruct (post_with_tokens a t w1 _ Hwf1 Hout Hnew Hpost)
        as (Hn2 & Hwf2 & Hin2 & ps & Hps2 & Hps);
      simpl in Hn2, Hwf2, Hin2, Hps2, Hps;
      try (apply Hlog in Hr); subst r; simpl;
      (split_and!;
       [ exact Hwf2
       | lia
       | intros x Hx; destruct (Hin2 x Hx) as [Hx'| ->];
         [ left; by apply Hin1 | destruct Hfrom as [?| ->]; [by left|right; lia] ]
       | exists ps; rewrite ?posts_app, ?app_nil_r, Hps2, Hps1; split; [done|];
         destruct Hps as [->|(pr & -> & Hafter)]; [by left|];
         right; exists t, pr; split_and!;
         [ done | lia | destruct Hfrom as [?| ->]; [by left|right; lia] | exact Hafter ] ]).
  - apply Hlog in Hr as ->. simpl.
    split_and!; [done|lia|intros x Hx; left; by apply Hin1|].
    exists []. rewrite posts_app, Hps1. eauto.
  - subst r. simpl.
    split_and!; [done|lia|intros x Hx; left; by apply Hin1|].
    exists []. rewrite Hps1, app_nil_r. eauto.
Qed.

(** The retry loop and the tokens: a token whose POST came back with a 401
    is in the pool no more when the loop ends, and no later POST of the loop
    uses it. *)
Lemma upload_attempts_tokens attempts : ∀ w r,
  wf_world w → upload_attempts data key attempts w = r →
  wf_world (world_of r)
  ∧ (next_obj w ≤ next_obj (world_of r))%nat
  ∧ (∀ x, x ∈ pool_ids (world_of r) → x ∈ pool_ids w ∨ (next_obj w ≤ x)%nat)
  ∧ ∃ ps, posts (trace (world_of r)) = posts (trace w) ++ ps
          ∧ (length ps ≤ length attempts)%nat
          ∧ (∀ t pr, (t, pr) ∈ ps →
               (tok_obj t < next_obj (world_of r))%nat
               ∧ (tok_obj t ∈ pool_ids w ∨ (next_obj w ≤ tok_obj t)%nat))
          ∧ (∀ (i : nat) t d,
               ps !! i = Some (t, PostReply 401 d) →
               (tok_obj t ∉ pool_ids (world_of r))
               ∧ ∀ (j : nat) t' pr',
                   (i < j)%nat → ps !! j = Some (t', pr') → tok_obj t' ≠ tok_obj t).
Proof.
  induction attempts as [|a attempts IH]; intros w r Hwf Hr.
  - subst r. simpl. split_and!; [done|done|by left|].
    exists []. rewrite posts_app. simpl. split_and!; [done|done| |].
    + by intros t pr ?%elem_of_nil.
    + by intros i t d ?.
  - simpl in Hr. unfold bind in Hr.
    destruct (upload_attempt data key a w) as [ok w1|e w1|w1] eqn:Hatt;
      destruct (upload_attempt_tokens a w _ Hwf Hatt)
        as (Hwf1 & Hn1 & Hin1 & ps1 & Hps1 & Hone);
      simpl in Hwf1, Hn1, Hin1, Hps1, Hone.
    2,3: subst r; simpl; split_and!; [done|done|done|];
         exists ps1; split; [done|];
         destruct Hone as [->|(t & pr & -> & Hlt & Hfrom & Hafter)];
         [ split_and!; [simpl; lia|by intros ? ? ?%elem_of_nil|by intros ? ? ? ?]
         | split_and!;
           [ simpl; lia
           | intros t0 pr0 [= -> ->]%list_elem_of_singleton; done
           | intros [|i] t0 d0 Hi; [|done]; injection Hi as -> ->;
             split; [by apply bool_decide_eq_true_1 in Hafter || exact Hafter|];
             intros [|[|j]] t' pr' Hj Hl; simpl in Hl; (lia || done) ] ].
    destruct ok.
    + subst r; simpl; split_and!; [done|done|done|].
      exists ps1; split; [done|].
      destruct Hone as [->|(t & pr & -> & Hlt & Hfrom & Hafter)].
      * split_and!; [simpl; lia|by intros ? ? ?%elem_of_nil|by intros ? ? ? ?].
      * split_and!.
        -- simpl; lia.
        -- intros t0 pr0 [= -> ->]%list_elem_of_singleton; done.
        -- intros [|i] t0 d0 Hi; [|done]. injection Hi as -> ->.
           split; [exact Hafter|].
           intros [|[|j]] t' pr' Hj Hl; simpl in Hl; (lia || done).
    + destruct (IH w1 r Hwf1 Hr) as (Hwf' & Hn' & Hin' & ps2 & Hps2 & Hlen2 & Hmem2 & H401).
      split_and!; [done|lia| |].
      { intros x Hx. destruct (Hin' x Hx) as [Hx1|Hx1]; [|right; lia].
        destruct (Hin1 x Hx1); [by left|right; lia]. }
      exists (ps1 ++ ps2). rewrite Hps2, Hps1, <- app_assoc. split; [done|].
      assert (Hmem : ∀ t pr, (t, pr) ∈ ps2 →
                (tok_obj t < next_obj (world_of r))%nat
                ∧ (tok_obj t ∈ pool_ids w ∨ (next_obj w ≤ tok_obj t)%nat)).
      { intros t pr Hin. destruct (Hmem2 t pr Hin) as [Hlt [Hfrom|Hfrom]].
        - split; [done|]. destruct (Hin1 _ Hfrom); [by left|right; lia].
        - split; [done|]. right. lia. }
      destruct Hone as [->|(t & pr & -> & Hlt & Hfrom & Hafter)].
      * simpl. split_and!; [lia|done|done].
      * split_and!.
        -- simpl. lia.
        -- intros t0 pr0 Hin. apply elem_of_app in Hin as [Hin|Hin]; [|by eapply Hmem].
           apply list_elem_of_singleton in Hin as [= -> ->]. split; [lia|done].
        -- intros [|i] t0 d0 Hi; simpl in Hi.
           ++ injection Hi as -> ->. unfold token_after in Hafter. simpl in Hafter.
              split.
              ** intros Hx. destruct (Hin' _ Hx) as [Hx1|Hx1]; [done|lia].
              ** intros [|j] t' pr' Hj Hl; [lia|]. simpl in Hl.
                 apply list_elem_of_lookup_2 in Hl.
                 destruct (Hmem2 t' pr' Hl) as [_ [Hfrom'|Hfrom']].
                 --- intros Heq. by rewrite Heq in Hfrom'.
                 --- lia.
           ++ destruct (H401 i t0 d0 Hi) as [Hout Hlater]. split; [done|].
              intros [|j] t' pr' Hj Hl; [lia|]. simpl in Hl.
              apply (Hlater j t' pr'); [lia|done].
Qed.

Lemma post_with_true a t w w1 :
  post_with key a t w = Ret true w1 → last (trace w1) = Some (EvLog (LogSuccess key)).
Proof.
  unfold post_with, bind, http_post, pool_append, time_sleep, log, emit, ret, raise.
  destruct (post_replies w) as [|[status decodes|] prs]; simpl; [done| |done].
  destruct (bool_decide (status ≠ 401)), (bool_decide (status = 200)),
    (bool_decide (status = 408 ∨ status = 429)), decodes; simpl;
    intros [= <-]; simpl; by rewrite last_snoc.
Qed.

Lemma upload_attempt_true a w w1 :
  upload_attempt data key a w = Ret true w1 →
  last (trace w1) = Some (EvLog (LogSuccess key)).
Proof.
  rewrite upload_attempt_unfold. unfold try_except. unfold bind at 1.
  destruct (sha1 data w) as [[] w0|e w0|w0]; [|done..].
  unfold bind at 1. destruct (take_token w0) as [t w2|e w2|w2]; [|done..].
  destruct (post_with key a t w2) as [b w3|e w3|w3] eqn:Hpost; [|done..].
  intros [= -> ->]. by eapply post_with_true.
Qed.

(** A call that went through the attempts and returned ends its trace with
    "Success" or "Failure", never with "Skip". *)
Lemma upload_attempts_last attempts : ∀ w w',
  upload_attempts data key attempts w = Ret tt w' →
  last (trace w') = Some (EvLog (LogSuccess key))
  ∨ last (trace w') = Some (EvLog (LogFailure key)).
Proof.
  induction attempts as [|a attempts IH]; intros w w'; simpl.
  - intros [= <-]. simpl. right. by rewrite last_snoc.
  - unfold bind.
    destruct (upload_attempt data key a w) as [[] w1|e w1|w1] eqn:Hatt; [| |done..].
    + intros [= <-]. left. by eapply upload_attempt_true.
    + apply IH.
Qed.

Lemma upload_attempts_not_skip attempts w :
  upload_attempts data key attempts w ≠ log (LogSkip key) w.
Proof.
  intros Heq. apply upload_attempts_last in Heq. simpl in Heq.
  rewrite last_snoc in Heq. by destruct Heq.
Qed.

End Attempts.

(** ** [upload_file]: the claims *)







(** On [expiring_world]: the first POST uses object 0 and gets the 401, the
    second uses the newly leased object 1 and succeeds; only object 1 is in
    the pool afterwards. *)
Lemma expiring_world_run :
  let w' := world_of (upload_file (load_resume None None) (Bytes [x01])
                                  "9/0/0.png" expiring_world) in
  posts_since expiring_world w'
  = [(mkToken 0 "https://pod/upload" "stale", PostReply 401 true);
     (mkToken 1 "https://pod/upload" "valid", PostReply 200 true)]
  ∧ upload_urls w' = [mkToken 1 "https://pod/upload" "valid"]
  ∧ key_lines (trace w')
    = [LogAttemptFailure 1 "9/0/0.png"; LogSuccess "9/0/0.png"].
Proof. vm_compute. done. Qed.

Lemma read_keys_elem file key :
  key ∈ default (∅ : gset string) (read_keys file)
  ↔ ∃ lines line, file = Some lines ∧ line ∈ lines ∧ strip line = key.
Proof.
  destruct file as [lines|]; simpl.
  - rewrite elem_of_list_to_set, list_elem_of_fmap. split.
    + intros (line & -> & Hin). by exists lines, line.
    + intros (? & line & [= <-] & Hin & <-). by exists line.
  - split; [by intros ?%not_elem_of_empty|]. by intros (? & ? & ? & _).
Qed.

(** C3 (as amended): the mode is fixed by [load_resume]: [use_failures] holds
    exactly when the failure list could be read, also when it is empty.  In
    that mode [upload_file] skips a key exactly when it is not a (stripped)
    line of the failure list, and goes on to the upload attempts otherwise; in
    the other mode it skips exactly the (stripped) lines of the success list.
    Going on to the attempts is never the same as skipping. *)
Theorem upload_file_resume_mode (success_urls failure_urls : option (list string))
    (data : Payload) (key : string) (w : World) :
  let R := load_resume success_urls failure_urls in
  (use_failures R = true ↔ is_Some failure_urls)
  ∧ (key ∈ failures R ↔
       ∃ lines line, failure_urls = Some lines ∧ line ∈ lines ∧ strip line = key)
  ∧ (key ∈ processed R ↔
       ∃ lines line, success_urls = Some lines ∧ line ∈ lines ∧ strip line = key)
  ∧ (is_Some failure_urls →
       (key ∈ failures R →
          upload_file R data key w = upload_attempts data key (seqZ 0 5) w)
       ∧ (key ∉ failures R → upload_file R data key w = log (LogSkip key) w))
  ∧ (failure_urls = None →
       (key ∈ processed R → upload_file R data key w = log (LogSkip key) w)
       ∧ (key ∉ processed R →
            upload_file R data key w = upload_attempts data key (seqZ 0 5) w))
  ∧ upload_attempts data key (seqZ 0 5) w ≠ log (LogSkip key) w.
Proof.
  intros R.
  assert (Hmode : use_failures R = true ↔ is_Some failure_urls).
  { unfold R, load_resume. simpl. rewrite bool_decide_eq_true.
    unfold read_keys. by rewrite fmap_is_Some. }
  split_and!.
  - done.
  - apply read_keys_elem.
  - apply read_keys_elem.
  - intros Hsome. apply Hmode in Hsome. unfold upload_file. rewrite Hsome.
    split; intros Hk.
    + by rewrite bool_decide_eq_false_2 by (by intros ?).
    + by rewrite bool_decide_eq_true_2.
  - intros ->. unfold upload_file.
    replace (use_failures R) with false by done.
    split; intros Hk.
    + by rewrite bool_decide_eq_true_2.
    + by rewrite bool_decide_eq_false_2.
  - apply upload_attempts_not_skip.
Qed.

(** C3 (as stated) fails: with a failure list that is present and empty, a
    key that is in neither list is skipped. *)
Lemma resume_as_stated_counterexample :
  ¬ resume_as_stated (Some ["9/0/0.png"]) (Some []) (Bytes [x01]) "9/0/1.png"
                     refusing_world.
Proof.
  unfold resume_as_stated. intros [Hskip _].
  assert (H : "9/0/1.png" ∈ processed (load_resume (Some ["9/0/0.png"]) (Some []))).
  { apply Hskip. vm_compute. reflexivity. }
  apply (proj1 (read_keys_elem _ _)) in H as (lines & line & [= <-] & Hin & Hstrip).
  apply list_elem_of_singleton in Hin as ->. vm_compute in Hstrip. done.
Qed.

(** * Properties of the blob store, the pool, the keys and the import *)

Lemma for_each_invariant {A S} (f : A → S → option S) (P : S → Prop) l :
  (∀ a s s', P s → f a s = Some s' → P s') →
  ∀ s s', P s → for_each f l s = Some s' → P s'.
Proof.
  intros Hstep. induction l as [|a l IH]; intros s s' Hs; simpl.
  - by intros [= <-].
  - destruct (f a s) as [s1|] eqn:Hf; simpl; [|done]. eauto.
Qed.

Lemma do_row_referenced r sn p sn' p' :
  referenced (images p) (map_rows p) →
  do_row r (sn, p) = Some (sn', p') →
  referenced (images p') (map_rows p').
Proof.
  intros Href. unfold do_row. case_bool_decide.
  - destruct (index _ _) as [k|]; simpl; [|done].
    destruct (ids sn !! k) as [id|]; simpl; [|done].
    intros [= <- <-]. simpl. intros im Him.
    destruct (Href im Him) as (m & Hm & Hid). exists m. split; [|done].
    apply elem_of_app. by left.
  - intros [= <- <-]. simpl. intros im Him.
    apply elem_of_app in Him as [Him|Him].
    + destruct (Href im Him) as (m & Hm & Hid). exists m. split; [|done].
      apply elem_of_app. by left.
    + apply list_elem_of_singleton in Him as ->. eexists. split.
      * apply elem_of_app. right. by apply list_elem_of_singleton.
      * done.
Qed.

Lemma do_chunk_referenced chunk tbl i p p' :
  referenced (images p) (map_rows p) →
  do_chunk chunk tbl i p = Some p' →
  referenced (images p') (map_rows p').
Proof.
  intros Href. unfold do_chunk.
  destruct (for_each do_row _ _) as [[sn' p1]|] eqn:Hrun; simpl; [|done].
  intros [= <-].
  apply (for_each_invariant do_row
           (λ st, referenced (images st.2) (map_rows st.2)) _) in Hrun; [done| |done].
  intros r [sn p0] [sn1 p1'] H0 Hstep. by eapply do_row_referenced.
Qed.

(** The blob store and the address map after a pass over an imported table. *)
Lemma compression_do_store (chunk : Z) (ts : list Tile) :
  0 < chunk →
  ∃ imgs mp,
    compression_do chunk (compression_prepare (imported ts))
      = Some (mkDb (table_of ts) (Some imgs) (Some mp))
    ∧ img_tile_id <$> imgs = seqZ 1 (Z.of_nat (length imgs))
    ∧ Forall2 (resolves imgs) (table_of ts) mp
    ∧ referenced imgs mp
    ∧ ∀ (i j : nat) ti tj mi mj,
        ts !! i = Some ti → ts !! j = Some tj →
        mp !! i = Some mi → mp !! j = Some mj →
        Z.of_nat i / chunk = Z.of_nat j / chunk →
        tile_data ti = tile_data tj → map_tile_id mi = map_tile_id mj.
Proof.
  intros Hc.
  destruct (compression_do_spec chunk Hc ts) as (imgs & mss & Hrun & Hids & Hall & _).
  pose proof (compression_do_resolves chunk Hc ts imgs mss Hall) as Hres.
  exists imgs, (concat mss). split_and!; [done|done|done| |].
  - pose proof Hrun as Hrun'. unfold compression_do, compression_prepare, imported in Hrun'.
    simpl in Hrun'. rewrite bool_decide_eq_false_2 in Hrun' by lia.
    destruct (for_each _ _ _) as [p|] eqn:Hp; simpl in Hrun'; [|done].
    injection Hrun' as <- <-.
    apply (for_each_invariant _ (λ p, referenced (images p) (map_rows p)) _) in Hp;
      [done| |by intros im ?%elem_of_nil].
    intros i p0 p1 H0 Hstep. by eapply do_chunk_referenced.
  - intros i j ti tj mi mj Hi Hj Hmi Hmj Hsame Hdata.
    assert (Hri : table_of ts !! i = Some (mkRow (1 + Z.of_nat i) ti))
      by (apply table_of_lookup; eauto).
    assert (Hrj : table_of ts !! j = Some (mkRow (1 + Z.of_nat j) tj))
      by (apply table_of_lookup; eauto).
    set (sel := λ c, select_rows (c * chunk) ((c + 1) * chunk) (table_of ts)) in *.
    pose proof (rounds_lookup (λ c ms, round_rel imgs (sel c) ms) sel _ _ Hall) as Hpos.
    rewrite <- (rounds_cover chunk Hc ts) in Hri, Hrj. fold sel in Hri, Hrj.
    destruct (Hpos _ _ _ Hri Hmi) as (n1 & c1 & ms1 & a1 & Hn1 & Hms1 & Hrel & Ha1 & Hb1).
    destruct (Hpos _ _ _ Hrj Hmj) as (n2 & c2 & ms2 & a2 & Hn2 & Hms2 & _ & Ha2 & Hb2).
    destruct (proj1 (select_rows_elem chunk Hc c1 (table_of ts) _)
                (list_elem_of_lookup_2 _ _ _ Ha1)) as [Hc1 _].
    destruct (proj1 (select_rows_elem chunk Hc c2 (table_of ts) _)
                (list_elem_of_lookup_2 _ _ _ Ha2)) as [Hc2 _].
    rewrite chunk_index_table in Hc1, Hc2.
    assert (c1 = c2) as <- by lia.
    assert (n1 = n2) as <-.
    { unfold range in Hn1, Hn2. eapply NoDup_lookup; [apply NoDup_seqZ|done..]. }
    assert (ms1 = ms2) as <- by congruence.
    by apply (round_rel_same_blob _ _ _ _ _ _ _ _ _ Hrel Ha1 Ha2 Hb1 Hb2).
Qed.

(** A stored blob read back through an address entry that points at it. *)
Lemma referenced_tile ts imgs mp im :
  NoDup (img_tile_id <$> imgs) →
  Forall2 (resolves imgs) (table_of ts) mp →
  referenced imgs mp → im ∈ imgs →
  ∃ (i : nat) t m,
    ts !! i = Some t ∧ mp !! i = Some m
    ∧ map_tile_id m = img_tile_id im ∧ tile_data t = img_tile_data im.
Proof.
  intros Hnd Hres Href Him.
  destruct (Href im Him) as (m & Hm & Hid).
  apply list_elem_of_lookup in Hm as [i Hi].
  destruct (Forall2_lookup_r _ _ _ _ _ Hres Hi) as (r & Hr & _ & _ & Himg).
  apply table_of_lookup in Hr as (t & Ht & ->). simpl in Himg.
  exists i, t, m. split_and!; [done|done|done|].
  apply list_elem_of_lookup_2 in Himg.
  by rewrite <- (NoDup_fmap_elem img_tile_id imgs _ _ Hnd Himg Him Hid).
Qed.

(** X1: the blob store of a compaction.  With a positive chunk size the pass
    over a freshly imported table runs to its end and leaves the [tiles]
    table as it was; the ids of [images] are 1, 2, ... in the order the
    blobs were stored; every stored blob is the blob of a tile whose [map]
    row carries its id; and the blobs stored are exactly the blobs of the
    tiles. *)
Theorem compression_do_blob_store (chunk : Z) (ts : list Tile) :
  0 < chunk →
  ∃ imgs mp,
    compression_do chunk (compression_prepare (imported ts))
      = Some (mkDb (table_of ts) (Some imgs) (Some mp))
    ∧ img_tile_id <$> imgs = seqZ 1 (Z.of_nat (length imgs))
    ∧ (∀ im, im ∈ imgs →
         ∃ (i : nat) t m,
           ts !! i = Some t ∧ mp !! i = Some m
           ∧ map_tile_id m = img_tile_id im ∧ tile_data t = img_tile_data im)
    ∧ (∀ b, b ∈ img_tile_data <$> imgs ↔ b ∈ tile_data <$> ts).
Proof.
  intros Hc.
  destruct (compression_do_store chunk ts Hc) as (imgs & mp & Hrun & Hids & Hres & Href & _).
  assert (Hnd : NoDup (img_tile_id <$> imgs)) by (rewrite Hids; apply NoDup_seqZ).
  exists imgs, mp. split_and!; [done|done| |].
  - intros im Him. by eapply referenced_tile.
  - intros b. rewrite !list_elem_of_fmap. split.
    + intros (im & -> & Him).
      destruct (referenced_tile ts imgs mp im Hnd Hres Href Him) as (i & t & m & Ht & _ & _ & Hd).
      exists t. split; [done|]. by eapply list_elem_of_lookup_2.
    + intros (t & -> & Ht). apply list_elem_of_lookup in Ht as [i Hi].
      assert (Hr : table_of ts !! i = Some (mkRow (1 + Z.of_nat i) t))
        by (apply table_of_lookup; eauto).
      destruct (Forall2_lookup_l _ _ _ _ _ Hres Hr) as (m & _ & _ & _ & Himg).
      simpl in Himg. eexists. split; [|by eapply list_elem_of_lookup_2]. done.
Qed.

Lemma compression_do_blob_store_witness :
  0 < 256 ∧
  ∃ imgs mp,
    compression_do 256 (compression_prepare (imported sample_tiles))
      = Some (mkDb (table_of sample_tiles) (Some imgs) (Some mp))
    ∧ img_tile_id <$> imgs = seqZ 1 (Z.of_nat (length imgs))
    ∧ (∀ im, im ∈ imgs →
         ∃ (i : nat) t m,
           sample_tiles !! i = Some t ∧ mp !! i = Some m
           ∧ map_tile_id m = img_tile_id im ∧ tile_data t = img_tile_data im)
    ∧ (∀ b, b ∈ img_tile_data <$> imgs ↔ b ∈ tile_data <$> sample_tiles).
Proof. split; [lia|]. apply (compression_do_blob_store 256 sample_tiles). lia. Defined.

(** X2: a table that fits into one chunk is stored without a repeated blob.
    When the number of tiles is at most the chunk size, two tiles get the
    same [tile_id] exactly when their blobs are equal, no blob is in
    [images] twice, and [images] has as many rows as the tiles have
    distinct blobs. *)
Theorem compression_do_one_round (chunk : Z) (ts : list Tile) :
  0 < chunk → Z.of_nat (length ts) ≤ chunk →
  ∃ imgs mp,
    compression_do chunk (compression_prepare (imported ts))
      = Some (mkDb (table_of ts) (Some imgs) (Some mp))
    ∧ (∀ (i j : nat) ti tj mi mj,
         ts !! i = Some ti → ts !! j = Some tj →
         mp !! i = Some mi → mp !! j = Some mj →
         (map_tile_id mi = map_tile_id mj ↔ tile_data ti = tile_data tj))
    ∧ NoDup (img_tile_data <$> imgs)
    ∧ length imgs = length (remove_dups (tile_data <$> ts)).
Proof.
  intros Hc Hlen.
  destruct (compression_do_store chunk ts Hc)
    as (imgs & mp & Hrun & Hids & Hres & Href & Hsame).
  assert (Hnd : NoDup (img_tile_id <$> imgs)) by (rewrite Hids; apply NoDup_seqZ).
  assert (Hround : ∀ (i : nat) t, ts !! i = Some t → Z.of_nat i / chunk = 0).
  { intros i t Hi. apply lookup_lt_Some in Hi. apply Z.div_small. lia. }
  assert (Hdata : NoDup (img_tile_data <$> imgs)).
  { apply NoDup_alt. intros a b d Ha Hb. rewrite list_lookup_fmap in Ha, Hb.
    destruct (imgs !! a) as [ia|] eqn:Hia; [|done].
    destruct (imgs !! b) as [ib|] eqn:Hib; [|done].
    simpl in Ha, Hb. injection Ha as Ha. injection Hb as Hb.
    destruct (referenced_tile ts imgs mp ia Hnd Hres Href)
      as (i & ti & mi & Hti & Hmi & Hidi & Hdi); [by eapply list_elem_of_lookup_2|].
    destruct (referenced_tile ts imgs mp ib Hnd Hres Href)
      as (j & tj & mj & Htj & Hmj & Hidj & Hdj); [by eapply list_elem_of_lookup_2|].
    assert (Heq : map_tile_id mi = map_tile_id mj).
    { apply (Hsame i j ti tj); try done.
      - by rewrite (Hround _ _ Hti), (Hround _ _ Htj).
      - congruence. }
    apply (NoDup_lookup _ a b (img_tile_id ia) Hnd); rewrite list_lookup_fmap.
    + by rewrite Hia.
    + rewrite Hib. simpl. f_equal. congruence. }
  exists imgs, mp. split_and!; [done| |done|].
  - intros i j ti tj mi mj Hi Hj Hmi Hmj. split.
    + intros Hid.
      assert (Hri : table_of ts !! i = Some (mkRow (1 + Z.of_nat i) ti))
        by (apply table_of_lookup; eauto).
      assert (Hrj : table_of ts !! j = Some (mkRow (1 + Z.of_nat j) tj))
        by (apply table_of_lookup; eauto).
      destruct (Forall2_lookup_lr _ _ _ _ _ _ Hres Hri Hmi) as (_ & _ & Himi).
      destruct (Forall2_lookup_lr _ _ _ _ _ _ Hres Hrj Hmj) as (_ & _ & Himj).
      simpl in Himi, Himj. rewrite Hid in Himi. congruence.
    + intros Hd. apply (Hsame i j ti tj); try done.
      by rewrite (Hround _ _ Hi), (Hround _ _ Hj).
  - rewrite <- (length_fmap img_tile_data). apply Permutation_length.
    apply NoDup_Permutation; [done|apply NoDup_remove_dups|].
    intros b. rewrite elem_of_remove_dups.
    rewrite !list_elem_of_fmap. split.
    + intros (im & -> & Him).
      destruct (referenced_tile ts imgs mp im Hnd Hres Href Him) as (i & t & m & Ht & _ & _ & Hd).
      exists t. split; [done|]. by eapply list_elem_of_lookup_2.
    + intros (t & -> & Ht). apply list_elem_of_lookup in Ht as [i Hi].
      assert (Hr : table_of ts !! i = Some (mkRow (1 + Z.of_nat i) t))
        by (apply table_of_lookup; eauto).
      destruct (Forall2_lookup_l _ _ _ _ _ Hres Hr) as (m & _ & _ & _ & Himg).
      simpl in Himg. eexists. split; [|by eapply list_elem_of_lookup_2]. done.
Qed.

Lemma compression_do_one_round_witness :
  0 < 256 ∧ Z.of_nat (length sample_tiles) ≤ 256 ∧
  ∃ imgs mp,
    compression_do 256 (compression_prepare (imported sample_tiles))
      = Some (mkDb (table_of sample_tiles) (Some imgs) (Some mp))
    ∧ (∀ (i j : nat) ti tj mi mj,
         sample_tiles !! i = Some ti → sample_tiles !! j = Some tj →
         mp !! i = Some mi → mp !! j = Some mj →
         (map_tile_id mi = map_tile_id mj ↔ tile_data ti = tile_data tj))
    ∧ NoDup (img_tile_data <$> imgs)
    ∧ length imgs = length (remove_dups (tile_data <$> sample_tiles)).
Proof.
  split; [lia|]. split; [simpl; lia|].
  apply (compression_do_one_round 256 sample_tiles); [lia|simpl; lia].
Defined.

Lemma StronglySorted_filter {A} (R : A → A → Prop) (P : A → Prop)
    `{!∀ x, Decision (P x)} (l : list A) :
  StronglySorted R l → StronglySorted R (filter P l).
Proof.
  induction 1 as [|a l Hs IH Hall]; [constructor|].
  destruct (decide (P a)).
  - rewrite filter_cons_True by done. constructor; [done|].
    rewrite Forall_forall in Hall |- *. intros x Hx.
    apply list_elem_of_filter in Hx as [_ Hx]. by apply Hall.
  - by rewrite filter_cons_False.
Qed.

Section RowsRead.

Context (chunk : Z) (chunk_pos : 0 < chunk).

(** The rounds of a pass over any table in rowid order read the rows up to
    [last_rowid_read], each once and in order. *)
Lemma rounds_read (tbl : list TileRow) :
  StronglySorted (λ a b, rowid a < rowid b) tbl →
  Forall (λ r, 0 < rowid r) tbl →
  concat ((λ i, select_rows (i * chunk) ((i + 1) * chunk) tbl)
          <$> range (Z.of_nat (length tbl) / chunk + 1))
  = filter (λ r, rowid r ≤ last_rowid_read chunk (length tbl)) tbl.
Proof.
  pose proof chunk_pos. intros Hsorted Hpos. unfold range, last_rowid_read.
  set (m := Z.of_nat (length tbl) / chunk + 1).
  set (read := filter (λ r, rowid r ≤ m * chunk) tbl).
  assert (Hm : 0 < m).
  { assert (0 ≤ Z.of_nat (length tbl) / chunk) by (apply Z.div_pos; lia). lia. }
  etrans; [|apply (concat_filter_sorted (chunk_index chunk) read) with (lo := 0) (m := m)].
  - replace (m - 0) with m by lia. f_equal.
    apply list_fmap_ext. intros k i Hi. apply lookup_seqZ in Hi as [-> Hk].
    rewrite (select_rows_chunk_index chunk chunk_pos). unfold read.
    rewrite list_filter_filter. apply list_filter_iff. intros r. split; [|tauto].
    intros Hr. split; [done|].
    apply (chunk_index_window chunk chunk_pos) in Hr. nia.
  - apply StronglySorted_filter.
    eapply StronglySorted_impl; [|exact Hsorted].
    intros a b Hab. simpl in Hab. unfold chunk_index. apply Z.div_le_mono; lia.
  - apply Forall_forall. intros r Hr. apply list_elem_of_filter in Hr as [Hle Hr].
    rewrite Forall_forall in Hpos. specialize (Hpos r Hr). unfold chunk_index. split.
    + apply Z.div_pos; lia.
    + apply Z.div_lt_upper_bound; lia.
Qed.

End RowsRead.

(** X3: the rows the pass reads.  A [tiles] table whose rowids are positive
    and increasing may have gaps; with [n] rows and a positive chunk size
    the rounds cover the rowids up to [(n // chunk + 1) * chunk] and no
    more.  The pass runs to its end, [map] has one row for each tile with
    a rowid in this range, resolving to the tile's blob, and the joined view
    shows exactly these tiles: a tile with a larger rowid gets no row. *)
Theorem compression_do_rows_read (chunk : Z) (tbl : list TileRow) :
  0 < chunk →
  StronglySorted (λ a b, rowid a < rowid b) tbl →
  Forall (λ r, 0 < rowid r) tbl →
  let read := filter (λ r, rowid r ≤ last_rowid_read chunk (length tbl)) tbl in
  ∃ imgs mp,
    compression_do chunk (compression_prepare (mkDb tbl None None))
      = Some (mkDb tbl (Some imgs) (Some mp))
    ∧ Forall2 (resolves imgs) read mp
    ∧ join_view mp imgs = row <$> read.
Proof.
  intros Hc Hsorted Hpos read.
  destruct (rounds_spec chunk tbl (range (Z.of_nat (length tbl) / chunk + 1))
              (mkPass 0 [] []))
    as (mss & more & p' & Hrun & Hwf' & Himgs & Hmap & Hall & _).
  { split; [done|]. by rewrite seqZ_nil. }
  simpl in Himgs, Hmap.
  assert (Hres : Forall2 (resolves (images p')) read (concat mss)).
  { unfold read. rewrite <- (rounds_read chunk Hc tbl Hsorted Hpos).
    by apply (rounds_resolve (images p')
                (λ i, select_rows (i * chunk) ((i + 1) * chunk) tbl)). }
  exists (images p'), (concat mss). split_and!.
  - unfold compression_do, compression_prepare. simpl.
    rewrite bool_decide_eq_false_2 by lia. rewrite Hrun. simpl. by rewrite Hmap.
  - done.
  - apply resolves_join; [|done]. destruct Hwf' as [_ ->]. apply NoDup_seqZ.
Qed.

Lemma compression_do_rows_read_witness :
  0 < 256
  ∧ StronglySorted (λ a b, rowid a < rowid b) gap_table
  ∧ Forall (λ r, 0 < rowid r) gap_table
  ∧ ∃ imgs mp,
      compression_do 256 (compression_prepare (mkDb gap_table None None))
        = Some (mkDb gap_table (Some imgs) (Some mp))
      ∧ Forall2 (resolves imgs)
          (filter (λ r, rowid r ≤ last_rowid_read 256 (length gap_table)) gap_table) mp
      ∧ join_view mp imgs
        = row <$> filter (λ r, rowid r ≤ last_rowid_read 256 (length gap_table)) gap_table.
Proof.
  assert (H1 : StronglySorted (λ a b, rowid a < rowid b) gap_table).
  { repeat constructor; simpl; lia. }
  assert (H2 : Forall (λ r, 0 < rowid r) gap_table).
  { repeat constructor; simpl; lia. }
  split; [lia|]. split; [exact H1|]. split; [exact H2|].
  apply (compression_do_rows_read 256 gap_table); [lia|exact H1|exact H2].
Defined.

(** X4: the sign of the chunk size.  A chunk size of 0 makes the pass fail
    (a division by zero), whatever the database.  A negative chunk size
    makes it succeed without touching a row: the prepared database comes
    back unchanged, and the view of a file compacted this way shows no tile
    at all. *)
Theorem compression_do_chunk_sign (chunk : Z) (db : Db) (ts : list Tile) :
  chunk < 0 →
  compression_do 0 db = None
  ∧ compression_do chunk (compression_prepare db) = Some (compression_prepare db)
  ∧ read_tiles_view <$> compress chunk (imported ts) = Some [].
Proof.
  intros Hneg. split; [done|].
  assert (Hrounds : ∀ (tbl : list TileRow) p,
            for_each (do_chunk chunk tbl)
                     (range (Z.of_nat (length tbl) / chunk + 1)) p = Some p).
  { intros tbl p. destruct tbl as [|r tbl].
    - change (Z.of_nat (length (@nil TileRow))) with 0.
      rewrite Z.div_0_l by lia. done.
    - unfold range. rewrite seqZ_nil; [done|].
      pose proof (Z.div_mod (Z.of_nat (length (r :: tbl))) chunk).
      pose proof (Z.mod_neg_bound (Z.of_nat (length (r :: tbl))) chunk Hneg).
      simpl length in *. nia. }
  assert (Hdo : ∀ db0, compression_do chunk (compression_prepare db0)
                       = Some (compression_prepare db0)).
  { intros db0. unfold compression_do, compression_prepare. simpl.
    rewrite bool_decide_eq_false_2 by lia. by rewrite Hrounds. }
  split; [apply Hdo|].
  unfold compress. rewrite Hdo. done.
Qed.

Lemma compression_do_chunk_sign_witness :
  -1 < 0
  ∧ compression_do 0 (imported sample_tiles) = None
  ∧ compression_do (-1) (compression_prepare (imported sample_tiles))
    = Some (compression_prepare (imported sample_tiles))
  ∧ read_tiles_view <$> compress (-1) (imported sample_tiles) = Some [].
Proof.
  split; [lia|].
  apply (compression_do_chunk_sign (-1) (imported sample_tiles) sample_tiles). lia.
Defined.

Lemma insert_tiles_prefix ts : ∀ pre db,
  NoDup (coords <$> pre) →
  insert_tiles ts (imported pre) = Some db →
  NoDup (coords <$> pre ++ ts) ∧ db = imported (pre ++ ts).
Proof.
  induction ts as [|t ts IH]; intros pre db Hnd; unfold insert_tiles; simpl.
  - intros [= <-]. by rewrite app_nil_r.
  - destruct (decide (coords t ∈ coords <$> pre)) as [Hin|Hnin].
    + unfold insert_tile. rewrite bool_decide_eq_true_2; [done|].
      unfold imported, table_of. simpl.
      by rewrite list_fmap_compose, number_from_row.
    + rewrite (insert_tile_imported t pre Hnin). simpl. intros Hrun.
      destruct (IH (pre ++ [t]) db) as [Hnd' ->].
      * rewrite fmap_app. apply NoDup_app. split_and!; [done| |apply NoDup_singleton].
        intros x Hx Hx'. apply list_elem_of_singleton in Hx'. by subst.
      * done.
      * by rewrite <- app_assoc in *.
Qed.

(** X5: the unique index of [tiles] (created by [mbtiles_setup]) during an
    import.  Inserting a list of tiles whose coordinates are 64-bit integers
    into a fresh database succeeds, with the table holding the tiles in
    their order, exactly when no two of them have the same zoom level,
    column and row; otherwise it fails, and it fails at the first tile whose
    coordinates were inserted before. *)
Theorem insert_tiles_unique_index (ts : list Tile) :
  Forall sql_coords ts →
  (insert_tiles ts mbtiles_setup = Some (imported ts) ↔ NoDup (coords <$> ts))
  ∧ (insert_tiles ts mbtiles_setup = None ↔ ¬ NoDup (coords <$> ts))
  ∧ (∀ pre t post, ts = pre ++ t :: post → coords t ∈ coords <$> pre →
       insert_tiles (pre ++ [t]) mbtiles_setup = None).
Proof.
  intros _.
  assert (H1 : ∀ db, insert_tiles ts mbtiles_setup = Some db →
                     NoDup (coords <$> ts) ∧ db = imported ts).
  { intros db Hrun. apply (insert_tiles_prefix ts [] db); [constructor|done]. }
  assert (H2 : NoDup (coords <$> ts) → insert_tiles ts mbtiles_setup = Some (imported ts)).
  { intros Hnd. by apply (insert_tiles_imported ts []). }
  split_and!.
  - split; [|done]. intros Hrun. by apply H1 in Hrun as [? _].
  - split.
    + intros Hnone Hnd. by rewrite (H2 Hnd) in Hnone.
    + intros Hnd. destruct (insert_tiles ts mbtiles_setup) as [db|] eqn:Hrun; [|done].
      by destruct (H1 db eq_refl) as [? _].
  - intros pre t post -> Hin.
    destruct (insert_tiles (pre ++ [t]) mbtiles_setup) as [db|] eqn:Hrun; [|done].
    apply (insert_tiles_prefix _ [] db) in Hrun as [Hnd _]; [|constructor].
    simpl in Hnd. rewrite fmap_app in Hnd. apply NoDup_app in Hnd as (_ & Hdis & _).
    exfalso. apply (Hdis _ Hin). simpl. left.
Qed.

Lemma insert_tiles_unique_index_witness :
  let ts := [mkTile 0 0 0 [x01]; mkTile 1 0 0 [x02]; mkTile 0 0 0 [x03]] in
  Forall sql_coords ts
  ∧ insert_tiles ts mbtiles_setup = None
  ∧ (insert_tiles ts mbtiles_setup = Some (imported ts) ↔ NoDup (coords <$> ts))
  ∧ (insert_tiles ts mbtiles_setup = None ↔ ¬ NoDup (coords <$> ts))
  ∧ (∀ pre t post, ts = pre ++ t :: post → coords t ∈ coords <$> pre →
       insert_tiles (pre ++ [t]) mbtiles_setup = None).
Proof.
  intros ts.
  assert (Hint : Forall sql_coords ts) by (repeat constructor; by vm_compute).
  split; [exact Hint|]. split; [reflexivity|].
  exact (insert_tiles_unique_index ts Hint).
Defined.

Lemma gets_app tr1 tr2 : gets (tr1 ++ tr2) = gets tr1 ++ gets tr2.
Proof. apply omap_app. Qed.

(** *** No exception leaves [upload_file] *)

Lemma log_ret_false l w :
  (let* _ := log l in ret false) w
  = Ret false (mkWorld (upload_urls w) (lease_replies w) (post_replies w)
                       (next_obj w) (trace w ++ [EvLog l])).
Proof. reflexivity. Qed.







(** *** A payload that is a [str] *)

Lemma upload_attempts_str obj key w :
  upload_attempts (JsonStr obj) key (seqZ 0 5) w
  = Ret tt (mkWorld (upload_urls w) (lease_replies w) (post_replies w) (next_obj w)
                    (trace w ++ exhausted_by TypeError key)).
Proof.
  change (seqZ 0 5) with [0; 1; 2; 3; 4].
  unfold exhausted_by. destruct w as [pool ls ps n tr]. cbn.
  unfold log, emit. simpl. by rewrite <- !app_assoc.
Qed.

(** X7: a [str] payload is never sent.  [sha1] rejects a [str] with a
    [TypeError], at the first statement of each attempt; so for a key that
    is not skipped the call with the text of [json.dumps] (the [layer.json]
    upload) makes no request at all, logs five attempts that ended in this
    exception and then the failure of the key, and returns with the token
    pool and the replies untouched. *)
Theorem upload_file_str_payload (R : Resume) (obj : list (string * string))
    (key : string) (w : World) :
  eligible R key →
  upload_file R (JsonStr obj) key w
  = Ret tt (mkWorld (upload_urls w) (lease_replies w) (post_replies w) (next_obj w)
                    (trace w ++ exhausted_by TypeError key))
  ∧ gets (exhausted_by TypeError key) = []
  ∧ posts (exhausted_by TypeError key) = []
  ∧ key_lines (exhausted_by TypeError key)
    = ((λ n, LogAttemptException n key TypeError) <$> [1; 2; 3; 4; 5])
      ++ [LogFailure key].
Proof.
  intros Hel. split; [|done].
  unfold upload_file, eligible in *. destruct (use_failures R).
  - rewrite bool_decide_eq_false_2 by (by intros ?). apply upload_attempts_str.
  - rewrite bool_decide_eq_false_2 by done. apply upload_attempts_str.
Qed.

Lemma upload_file_str_payload_witness :
  let R := load_resume None None in
  eligible R "layer.json"
  ∧ upload_file R (JsonStr [("formatter", "f")]) "layer.json" refusing_world
    = Ret tt (mkWorld (upload_urls refusing_world) (lease_replies refusing_world)
                (post_replies refusing_world) (next_obj refusing_world)
                (trace refusing_world ++ exhausted_by TypeError "layer.json"))
  ∧ gets (exhausted_by TypeError "layer.json") = []
  ∧ posts (exhausted_by TypeError "layer.json") = []
  ∧ key_lines (exhausted_by TypeError "layer.json")
    = ((λ n, LogAttemptException n "layer.json" TypeError) <$> [1; 2; 3; 4; 5])
      ++ [LogFailure "layer.json"].
Proof.
  intros R.
  assert (H1 : eligible R "layer.json") by apply not_elem_of_empty.
  split; [exact H1|].
  exact (upload_file_str_payload R [("formatter", "f")] "layer.json" refusing_world H1).
Defined.

Lemma list_pop_snoc {A} (l : list A) x : list_pop (l ++ [x]) = Some (l, x).
Proof.
  induction l as [|y l IH]; simpl; [done|]. by rewrite IH.
Qed.

Lemma list_pop_nonempty {A} (l : list A) :
  l ≠ [] → ∃ rest x, l = rest ++ [x] ∧ list_pop l = Some (rest, x).
Proof.
  intros Hl. destruct (list_pop l) as [[rest x]|] eqn:Hpop.
  - exists rest, x. split; [by apply list_pop_Some|done].
  - by apply list_pop_None in Hpop.
Qed.

Lemma sha1_bytes data w : (∀ obj, data ≠ JsonStr obj) → sha1 data w = Ret tt w.
Proof. intros H. destruct data; try done. by destruct (H obj). Qed.

(** *** The first attempt succeeds *)

(** One attempt whose POST, made with the token [t], is answered with a 200. *)
Lemma upload_attempt_200 data key a w t w1 d prs :
  (∀ obj, data ≠ JsonStr obj) →
  take_token w = Ret t w1 →
  post_replies w1 = PostReply 200 d :: prs →
  upload_attempt data key a w
  = Ret true (mkWorld (upload_urls w1 ++ [t]) (lease_replies w1) prs (next_obj w1)
                (trace w1 ++ [EvPost t key (PostReply 200 d); EvLog (LogSuccess key)])).
Proof.
  intros Hdata Htake Hpost.
  rewrite upload_attempt_unfold. unfold try_except. unfold bind at 1.
  rewrite (sha1_bytes data w Hdata). unfold bind at 1. rewrite Htake.
  unfold post_with, bind, http_post. rewrite Hpost. simpl.
  unfold pool_append, log, emit, ret. simpl. by rewrite <- app_assoc.
Qed.

Lemma upload_file_attempts R data key w :
  eligible R key →
  upload_file R data key w = upload_attempts data key (seqZ 0 5) w.
Proof.
  intros Hel. unfold upload_file, eligible in *. destruct (use_failures R).
  - by rewrite bool_decide_eq_false_2 by (by intros ?).
  - by rewrite bool_decide_eq_false_2.
Qed.

(** X8: the first attempt succeeds.  For a key that is not skipped and a
    [bytes] payload, when the first reply to a POST is a 200: with a token
    in the pool the call takes the last one, posts once, puts the token back
    and logs the success; with an empty pool and a 200 from the lease
    endpoint it leases one token, logs it, posts once, and leaves this
    token as the pool. *)
Theorem upload_file_success (R : Resume) (data : Payload) (key : string)
    (w : World) (d : bool) (prs : list PostResp) :
  eligible R key →
  (∀ obj, data ≠ JsonStr obj) →
  post_replies w = PostReply 200 d :: prs →
  (∀ pool t,
     upload_urls w = pool ++ [t] →
     upload_file R data key w
     = Ret tt (mkWorld (pool ++ [t]) (lease_replies w) prs (next_obj w)
                 (trace w ++ [EvPost t key (PostReply 200 d);
                              EvLog (LogSuccess key)])))
  ∧ (∀ u a ls,
       upload_urls w = [] →
       lease_replies w = lease_200 u a :: ls →
       let t := mkToken (next_obj w) u a in
       upload_file R data key w
       = Ret tt (mkWorld [t] ls prs (S (next_obj w))
                   (trace w ++ [EvGet; EvLog (LogAddedWorker t);
                                EvPost t key (PostReply 200 d);
                                EvLog (LogSuccess key)]))).
Proof.
  intros Hel Hdata Hpost. split.
  - intros pool t Hpool. rewrite (upload_file_attempts R data key w Hel).
    assert (Htake : take_token w
              = Ret t (mkWorld pool (lease_replies w) (post_replies w)
                               (next_obj w) (trace w))).
    { unfold take_token. by rewrite Hpool, list_pop_snoc. }
    change (seqZ 0 5) with (0 :: seqZ 1 4). simpl. unfold bind.
    by rewrite (upload_attempt_200 data key 0 w t _ d prs Hdata Htake Hpost).
  - intros u a ls Hpool Hlease t. rewrite (upload_file_attempts R data key w Hel).
    assert (Htake : take_token w
              = Ret t (mkWorld [] ls (post_replies w) (S (next_obj w))
                         (trace w ++ [EvGet; EvLog (LogAddedWorker t)]))).
    { unfold take_token. rewrite Hpool. simpl. unfold get_upload_url.
      rewrite get_upload_url_loop_step,
        (http_get_pass (lease_200 u a) ls w Hlease eq_refl). simpl. rewrite Hpool.
      by rewrite <- app_assoc. }
    change (seqZ 0 5) with (0 :: seqZ 1 4). simpl. unfold bind.
    rewrite (upload_attempt_200 data key 0 w t _ d prs Hdata Htake Hpost).
    simpl. by rewrite <- !app_assoc.
Qed.

Lemma upload_file_success_witness :
  let R := load_resume None None in
  let w := fresh_world [lease_200 "https://pod/upload" "token"] [PostReply 200 true] in
  eligible R "9/0/0.png"
  ∧ (∀ obj, Bytes [x01] ≠ JsonStr obj)
  ∧ post_replies w = PostReply 200 true :: []
  ∧ (∀ pool t,
       upload_urls w = pool ++ [t] →
       upload_file R (Bytes [x01]) "9/0/0.png" w
       = Ret tt (mkWorld (pool ++ [t]) (lease_replies w) [] (next_obj w)
                   (trace w ++ [EvPost t "9/0/0.png" (PostReply 200 true);
                                EvLog (LogSuccess "9/0/0.png")])))
  ∧ (∀ u a ls,
       upload_urls w = [] →
       lease_replies w = lease_200 u a :: ls →
       let t := mkToken (next_obj w) u a in
       upload_file R (Bytes [x01]) "9/0/0.png" w
       = Ret tt (mkWorld [t] ls [] (S (next_obj w))
                   (trace w ++ [EvGet; EvLog (LogAddedWorker t);
                                EvPost t "9/0/0.png" (PostReply 200 true);
                                EvLog (LogSuccess "9/0/0.png")]))).
Proof.
  intros R w.
  assert (H1 : eligible R "9/0/0.png") by apply not_elem_of_empty.
  assert (H2 : ∀ obj, Bytes [x01] ≠ JsonStr obj) by done.
  split; [exact H1|]. split; [exact H2|]. split; [reflexivity|].
  exact (upload_file_success R (Bytes [x01]) "9/0/0.png" w true [] H1 H2 eq_refl).
Defined.

(** *** Tokens are reused *)

Section Reuse.

Context (data : Payload) (key : string).

(** One attempt in a world whose pool holds a token and whose uploads are
    never answered with a 401 nor cut off: no request goes to the token
    endpoint, and when the attempt is over the pool is as it was. *)
Lemma upload_attempt_reuse a w r :
  upload_urls w ≠ [] → Forall keeps_token (post_replies w) →
  upload_attempt data key a w = r →
  gets (trace (world_of r)) = gets (trace w)
  ∧ lease_replies (world_of r) = lease_replies w
  ∧ Forall keeps_token (post_replies (world_of r))
  ∧ (∀ b w', r = Ret b w' → upload_urls w' = upload_urls w).
Proof.
  intros Hpool Hkeep Hr.
  rewrite upload_attempt_unfold in Hr. unfold try_except in Hr.
  unfold bind at 1 in Hr.
  assert (Hsha : (∃ obj, data = JsonStr obj) ∨ sha1 data w = Ret tt w).
  { destruct data; eauto. }
  destruct Hsha as [[obj ->]|Hsha].
  { simpl in Hr. subst r. simpl. rewrite gets_app, app_nil_r.
    split_and!; try done. by intros b w' [= _ <-]. }
  rewrite Hsha in Hr. unfold bind at 1 in Hr.
  destruct (list_pop_nonempty _ Hpool) as (rest & t & Hw & Hpop).
  unfold take_token in Hr. rewrite Hpop in Hr.
  unfold post_with, bind, http_post in Hr. simpl in Hr.
  destruct (post_replies w) as [|pr prs] eqn:Hp; simpl in Hr.
  { subst r. simpl. split_and!; try done. }
  apply Forall_cons in Hkeep as [Hpr Hkeep].
  destruct pr as [status decodes|]; [|done]. simpl in Hpr.
  rewrite (bool_decide_eq_true_2 (status ≠ 401)) in Hr by done.
  unfold pool_append, time_sleep, log, emit, ret, raise in Hr. simpl in Hr.
  destruct (bool_decide (status = 200)),
    (bool_decide (status = 408 ∨ status = 429)), decodes; simpl in Hr;
    subst r; simpl;
    rewrite ?gets_app; simpl; rewrite ?app_nil_r;
    (split_and!; [done|done|done|]); intros b w' [= _ <-]; simpl; by rewrite Hw.
Qed.

Lemma upload_attempts_reuse attempts : ∀ w r,
  upload_urls w ≠ [] → Forall keeps_token (post_replies w) →
  upload_attempts data key attempts w = r →
  gets (trace (world_of r)) = gets (trace w)
  ∧ lease_replies (world_of r) = lease_replies w
  ∧ (∀ w', r = Ret tt w' → upload_urls w' = upload_urls w).
Proof.
  induction attempts as [|a attempts IH]; intros w r Hpool Hkeep <-; simpl.
  - rewrite gets_app, app_nil_r. split_and!; try done. by intros w' [= <-].
  - unfold bind.
    destruct (upload_attempt_reuse a w _ Hpool Hkeep eq_refl) as (Hg & Hl & Hk & Hu).
    destruct (upload_attempt data key a w) as [[] w1|e w1|w1] eqn:Hatt; simpl in *.
    + split_and!; try done. intros w' [= <-]. by apply (Hu true).
    + specialize (Hu false w1 eq_refl).
      destruct (IH w1 _ (ltac:(by rewrite Hu)) Hk eq_refl) as (Hg' & Hl' & Hu').
      split_and!; [congruence|congruence|]. intros w' Hr. rewrite (Hu' w' Hr). done.
    + split_and!; done.
    + split_and!; done.
Qed.

(** One attempt and the size of the pool: a token is leased only when the
    pool is empty. *)
Lemma upload_attempt_pool_size a w :
  (length (upload_urls (world_of (upload_attempt data key a w)))
   ≤ length (upload_urls w) `max` 1)%nat.
Proof.
  assert (Hr : ∃ r, upload_attempt data key a w = r) by eauto.
  destruct Hr as [r Hr]. rewrite Hr.
  rewrite upload_attempt_unfold in Hr. unfold try_except in Hr.
  unfold bind at 1 in Hr.
  assert (Hsha : (∃ obj, data = JsonStr obj) ∨ sha1 data w = Ret tt w).
  { destruct data; eauto. }
  destruct Hsha as [[obj ->]|Hsha]; [simpl in Hr; subst r; simpl; lia|].
  rewrite Hsha in Hr. unfold bind at 1 in Hr.
  assert (Htake : ∀ r, take_token w = r →
            (length (upload_urls (world_of r)) ≤ length (upload_urls w))%nat
            ∧ match r with
              | Ret _ w1 => (S (length (upload_urls w1)) ≤ length (upload_urls w) `max` 1)%nat
              | _ => True
              end).
  { intros r0 <-. destruct (take_token_cases w) as [(rest & t & Hpop & ->)|[Hpop ->]].
    - apply list_pop_Some in Hpop. rewrite Hpop, length_app. simpl. lia.
    - apply list_pop_None in Hpop.
      destruct (get_upload_url_effect w _ eq_refl) as (Hu & _).
      rewrite Hu, Hpop. destruct (get_upload_url w); simpl in *; rewrite ?Hu, ?Hpop; simpl; lia. }
  destruct (take_token w) as [t w1|e w1|w1] eqn:Ht;
    destruct (Htake _ eq_refl) as [Hle Hs]; simpl in Hle, Hs;
    [|simpl in Hr; subst r; simpl; lia..].
  unfold post_with, bind, http_post in Hr.
  destruct (post_replies w1) as [|[status decodes|] prs]; simpl in Hr;
    [subst r; simpl; lia| |subst r; simpl; lia].
  unfold pool_append, time_sleep, log, emit, ret, raise in Hr.
  destruct (bool_decide (status ≠ 401)), (bool_decide (status = 200)),
    (bool_decide (status = 408 ∨ status = 429)), decodes; simpl in Hr;
    subst r; simpl; rewrite ?length_app; simpl; lia.
Qed.

Lemma upload_attempts_pool_size attempts : ∀ w,
  (length (upload_urls (world_of (upload_attempts data key attempts w)))
   ≤ length (upload_urls w) `max` 1)%nat.
Proof.
  induction attempts as [|a attempts IH]; intros w; simpl; [lia|].
  unfold bind. pose proof (upload_attempt_pool_size a w) as Ha.
  destruct (upload_attempt data key a w) as [[] w1|e w1|w1]; simpl in *; try lia.
  specialize (IH w1). lia.
Qed.

End Reuse.

(** X9: a token is reused as long as the answers are not a 401 or a failed
    request.  With a token in the pool and only such answers to come, the
    call asks the lease endpoint for nothing, and when it returns the pool
    is what it was. *)
Theorem upload_file_reuses_token (R : Resume) (data : Payload) (key : string)
    (w : World) :
  upload_urls w ≠ [] →
  Forall keeps_token (post_replies w) →
  let r := upload_file R data key w in
  gets (trace (world_of r)) = gets (trace w)
  ∧ lease_replies (world_of r) = lease_replies w
  ∧ (∀ w', r = Ret tt w' → upload_urls w' = upload_urls w).
Proof.
  intros Hpool Hkeep r.
  assert (Hskip : ∀ r0, log (LogSkip key) w = r0 →
            gets (trace (world_of r0)) = gets (trace w)
            ∧ lease_replies (world_of r0) = lease_replies w
            ∧ (∀ w', r0 = Ret tt w' → upload_urls w' = upload_urls w)).
  { intros r0 <-. simpl. rewrite gets_app, app_nil_r. split_and!; try done.
    by intros w' [= <-]. }
  pose proof (upload_attempts_reuse data key (seqZ 0 5) w _ Hpool Hkeep eq_refl) as Hatt.
  unfold r, upload_file. destruct (use_failures R); case_bool_decide; eauto.
Qed.

Lemma upload_file_reuses_token_witness :
  let R := load_resume None None in
  let w := mkWorld [mkToken 0 "https://pod/upload" "token"] []
                   [PostReply 500 true; PostReply 200 true] 1 [] in
  let r := upload_file R (Bytes [x01]) "9/0/0.png" w in
  upload_urls w ≠ []
  ∧ Forall keeps_token (post_replies w)
  ∧ gets (trace (world_of r)) = gets (trace w)
  ∧ lease_replies (world_of r) = lease_replies w
  ∧ (∀ w', r = Ret tt w' → upload_urls w' = upload_urls w).
Proof.
  intros R w r.
  assert (H1 : upload_urls w ≠ []) by done.
  assert (H2 : Forall keeps_token (post_replies w)) by (repeat constructor; done).
  split; [exact H1|]. split; [exact H2|].
  exact (upload_file_reuses_token R (Bytes [x01]) "9/0/0.png" w H1 H2).
Defined.

(** X10: the pool does not grow.  After a call the pool has at most as many
    tokens as before, or one if it was empty: each attempt takes a token
    before it may put one back. *)
Theorem upload_file_pool_bound (R : Resume) (data : Payload) (key : string)
    (w : World) :
  let w' := world_of (upload_file R data key w) in
  (length (upload_urls w') ≤ length (upload_urls w) `max` 1)%nat
  ∧ (upload_urls w = [] → (length (upload_urls w') ≤ 1)%nat).
Proof.
  intros w'.
  assert (H : (length (upload_urls w') ≤ length (upload_urls w) `max` 1)%nat).
  { unfold w', upload_file.
    pose proof (upload_attempts_pool_size data key (seqZ 0 5) w).
    destruct (use_failures R); case_bool_decide; simpl; try done; lia. }
  split; [done|]. intros Hw. rewrite Hw in H. simpl in H. lia.
Qed.

(** *** A POST that raises *)

Lemma app_eq_self {A} (l k : list A) : l = l ++ k → k = [].
Proof. intros H. apply (app_inv_head l). by rewrite app_nil_r. Qed.

Section Dropped.

Context (data : Payload) (key : string).

(** One attempt whose POST raised: the token it held is in the pool no more,
    and the attempt is logged as an exception. *)
Lemma upload_attempt_post_fails a w r :
  wf_world w → upload_attempt data key a w = r →
  ∀ t, posts (trace (world_of r)) = posts (trace w) ++ [(t, PostFails)] →
    (tok_obj t ∉ pool_ids (world_of r))
    ∧ (tok_obj t < next_obj (world_of r))%nat
    ∧ last (key_lines (trace (world_of r)))
      = Some (LogAttemptException (a + 1) key HTTPError).
Proof.
  intros Hwf Hr t Hps.
  rewrite upload_attempt_unfold in Hr. unfold try_except in Hr.
  unfold bind at 1 in Hr.
  assert (Hsha : (∃ obj, data = JsonStr obj) ∨ sha1 data w = Ret tt w).
  { destruct data; eauto. }
  destruct Hsha as [[obj ->]|Hsha].
  { simpl in Hr. subst r. simpl in Hps. rewrite posts_app in Hps. simpl in Hps.
    by apply app_inv_head in Hps. }
  rewrite Hsha in Hr. unfold bind at 1 in Hr.
  destruct (take_token w) as [t0 w1|e w1|w1] eqn:Htake;
    destruct (take_token_tokens w _ Hwf Htake) as (Hps1 & _ & _ & _ & Ht);
    simpl in Hps1, Ht.
  2,3: simpl in Hr; subst r; simpl in Hps;
       rewrite ?posts_app, Hps1 in Hps; simpl in Hps;
       rewrite ?app_nil_r in Hps;
       by apply app_eq_self in Hps.
  destruct Ht as (Hout & Hnew & _).
  unfold post_with, bind, http_post in Hr.
  destruct (post_replies w1) as [|[status decodes|] prs] eqn:Hp; simpl in Hr.
  - subst r. simpl in Hps. rewrite Hps1 in Hps.
    by apply app_eq_self in Hps.
  - unfold pool_append, time_sleep, log, emit, ret, raise in Hr.
    destruct (bool_decide (status ≠ 401)), (bool_decide (status = 200)),
      (bool_decide (status = 408 ∨ status = 429)), decodes; simpl in Hr;
      subst r; simpl in Hps; rewrite ?posts_app, Hps1 in Hps; simpl in Hps;
      rewrite ?app_nil_r in Hps; by apply app_inv_head in Hps.
  - unfold log, emit, ret in Hr. simpl in Hr. subst r. simpl in *.
    rewrite !posts_app, Hps1 in Hps. simpl in Hps. rewrite app_nil_r in Hps.
    apply app_inv_head in Hps. injection Hps as <-.
    split_and!; [done|done|]. rewrite key_lines_app. simpl. by rewrite last_snoc.
Qed.

(** The retry loop and the tokens whose POST raised. *)
Lemma upload_attempts_post_fails attempts : ∀ w r,
  wf_world w → upload_attempts data key attempts w = r →
  ∃ ps, posts (trace (world_of r)) = posts (trace w) ++ ps
        ∧ ∀ (i : nat) t,
            ps !! i = Some (t, PostFails) →
            (tok_obj t ∉ pool_ids (world_of r))
            ∧ ∀ (j : nat) t' pr',
                (i < j)%nat → ps !! j = Some (t', pr') → tok_obj t' ≠ tok_obj t.
Proof.
  induction attempts as [|a attempts IH]; intros w r Hwf Hr.
  - subst r. simpl. exists []. rewrite posts_app. simpl. split; [done|].
    by intros i t ?.
  - simpl in Hr. unfold bind in Hr.
    destruct (upload_attempt_tokens data key a w _ Hwf eq_refl)
      as (Hwf1 & Hn1 & Hin1 & ps1 & Hps1 & Hone).
    pose proof (upload_attempt_post_fails a w _ Hwf eq_refl) as Hfail.
    assert (Hlast : ∀ (i : nat) t,
              ps1 !! i = Some (t, PostFails) →
              (tok_obj t ∉ pool_ids (world_of (upload_attempt data key a w)))
              ∧ (tok_obj t < next_obj (world_of (upload_attempt data key a w)))%nat
              ∧ ∀ (j : nat) t' pr',
                  (i < j)%nat → ps1 !! j = Some (t', pr') → tok_obj t' ≠ tok_obj t).
    { intros i t Hi. destruct Hone as [->|(t0 & pr & -> & _)]; [done|].
      destruct i as [|i]; [|done]. injection Hi as -> ->.
      destruct (Hfail t Hps1) as (Hout & Hlt & _). split_and!; [done|done|].
      intros [|[|j]] t' pr' Hj Hl; simpl in Hl; (lia || done). }
    destruct (upload_attempt data key a w) as [ok w1|e w1|w1] eqn:Hatt;
      simpl in Hwf1, Hn1, Hin1, Hps1, Hlast.
    2,3: subst r; simpl; exists ps1; split; [done|];
         intros i t Hi; destruct (Hlast i t Hi) as (? & _ & ?); done.
    destruct ok.
    + subst r; simpl; exists ps1; split; [done|].
      intros i t Hi; destruct (Hlast i t Hi) as (? & _ & ?); done.
    + destruct (IH w1 r Hwf1 Hr) as (ps2 & Hps2 & Hdrop2).
      destruct (upload_attempts_tokens data key attempts w1 r Hwf1 Hr)
        as (_ & _ & Hin' & ps2' & Hps2' & _ & Hmem2 & _).
      assert (ps2' = ps2) as -> by (rewrite Hps2 in Hps2'; by apply app_inv_head in Hps2').
      exists (ps1 ++ ps2). rewrite Hps2, Hps1, <- app_assoc. split; [done|].
      intros i t Hi.
      destruct (decide (i < length ps1)%nat) as [Hlt|Hge].
      * rewrite lookup_app_l in Hi by done.
        destruct (Hlast i t Hi) as (Hout & Hnew & Hlater). split.
        -- intros Hx. destruct (Hin' _ Hx) as [Hx1|Hx1]; [done|lia].
        -- intros j t' pr' Hj Hl.
           destruct (decide (j < length ps1)%nat) as [Hjl|Hjg].
           ++ rewrite lookup_app_l in Hl by done. by eapply Hlater.
           ++ rewrite lookup_app_r in Hl by lia.
              apply list_elem_of_lookup_2 in Hl.
              destruct (Hmem2 t' pr' Hl) as [_ [Hfrom'|Hfrom']].
              ** intros Heq. by rewrite Heq in Hfrom'.
              ** lia.
      * rewrite lookup_app_r in Hi by lia.
        destruct (Hdrop2 _ t Hi) as [Hout Hlater]. split; [done|].
        intros j t' pr' Hj Hl. rewrite lookup_app_r in Hl by lia.
        apply (Hlater (j - length ps1)%nat t' pr'); [lia|done].
Qed.

End Dropped.

(** X11: a token whose POST failed in transit is lost.  The exception
    skips the [append] that follows the POST, so the token is neither in
    the pool after the call nor used by a later attempt of it; the attempt
    itself ends with the line of the exception handler. *)
Theorem upload_file_drops_failed_token (R : Resume) (data : Payload)
    (key : string) (w : World) :
  wf_world w →
  let w' := world_of (upload_file R data key w) in
  (∀ (i : nat) t,
     posts_since w w' !! i = Some (t, PostFails) →
     (t ∉ upload_urls w')
     ∧ ∀ (j : nat) t' pr',
         (i < j)%nat → posts_since w w' !! j = Some (t', pr') →
         tok_obj t' ≠ tok_obj t)
  ∧ (∀ a w0 t,
       wf_world w0 →
       let w1 := world_of (upload_attempt data key a w0) in
       posts_since w0 w1 = [(t, PostFails)] →
       (t ∉ upload_urls w1)
       ∧ last (key_lines (trace w1))
         = Some (LogAttemptException (a + 1) key HTTPError)).
Proof.
  intros Hwf w'.
  assert (Hnotin : ∀ (t : Token) w2, tok_obj t ∉ pool_ids w2 → t ∉ upload_urls w2).
  { intros t w2 Hid Hin. apply Hid. unfold pool_ids. by apply list_elem_of_fmap_2. }
  split.
  - assert (Hrun : ∃ ps, posts (trace w') = posts (trace w) ++ ps
              ∧ ∀ (i : nat) t,
                  ps !! i = Some (t, PostFails) →
                  (tok_obj t ∉ pool_ids w')
                  ∧ ∀ (j : nat) t' pr',
                      (i < j)%nat → ps !! j = Some (t', pr') → tok_obj t' ≠ tok_obj t).
    { assert (Hskip : ∃ ps,
                posts (trace (world_of (log (LogSkip key) w))) = posts (trace w) ++ ps
                ∧ ∀ (i : nat) t,
                    ps !! i = Some (t, PostFails) →
                    (tok_obj t ∉ pool_ids (world_of (log (LogSkip key) w)))
                    ∧ ∀ (j : nat) t' pr',
                        (i < j)%nat → ps !! j = Some (t', pr') → tok_obj t' ≠ tok_obj t).
      { exists []. simpl. rewrite posts_app. simpl. split; [done|]. by intros i t ?. }
      pose proof (upload_attempts_post_fails data key (seqZ 0 5) w _ Hwf eq_refl) as Hatt.
      unfold w', upload_file. destruct (use_failures R); case_bool_decide; done. }
    destruct Hrun as (ps & Hps & Hdrop).
    rewrite (posts_since_app w w' ps Hps).
    intros i t Hi. destruct (Hdrop i t Hi) as [Hout Hlater]. split; [|done].
    by apply Hnotin.
  - intros a w0 t Hwf0 w1 Hsince.
    destruct (upload_attempt_tokens data key a w0 _ Hwf0 eq_refl)
      as (_ & _ & _ & ps0 & Hps0 & _).
    fold w1 in Hps0. rewrite (posts_since_app w0 w1 ps0 Hps0) in Hsince. subst ps0.
    destruct (upload_attempt_post_fails data key a w0 _ Hwf0 eq_refl t Hps0)
      as (Hout & _ & Hline).
    split; [by apply Hnotin|done].
Qed.

Lemma upload_file_drops_failed_token_witness :
  let R := load_resume None None in
  let key := "9/0/0.png" in
  let data := Bytes [x01] in
  let w := fresh_world [lease_200 "https://pod/upload" "a";
                        lease_200 "https://pod/upload" "b"]
                       [PostFails; PostReply 200 true] in
  let w' := world_of (upload_file R data key w) in
  wf_world w
  ∧ (∀ (i : nat) t,
       posts_since w w' !! i = Some (t, PostFails) →
       (t ∉ upload_urls w')
       ∧ ∀ (j : nat) t' pr',
           (i < j)%nat → posts_since w w' !! j = Some (t', pr') →
           tok_obj t' ≠ tok_obj t)
  ∧ (∀ a w0 t,
       wf_world w0 →
       let w1 := world_of (upload_attempt data key a w0) in
       posts_since w0 w1 = [(t, PostFails)] →
       (t ∉ upload_urls w1)
       ∧ last (key_lines (trace w1))
         = Some (LogAttemptException (a + 1) key HTTPError)).
Proof.
  intros R key data w w'.
  assert (Hwf : wf_world w) by (split; constructor).
  split; [exact Hwf|].
  exact (upload_file_drops_failed_token R data key w Hwf).
Defined.

(** *** A 429 that carries [Retry-After] *)

Lemma gets_retry_events j pre : length (gets (retry_events j pre)) = length pre.
Proof.
  unfold retry_events. revert j.
  induction pre as [|r pre IH]; intros j; [done|]. csimpl. by rewrite IH.
Qed.





(** *** The uploads of the producer *)

Lemma uploads_act a p :
  uploads (act a p)
  = uploads p ++ match a with ActUpload d k => [(d, k)] | _ => [] end.
Proof. unfold uploads, act. simpl. rewrite omap_app. by destruct a. Qed.

Lemma submit_tile_uploads silent count t p :
  uploads (submit_tile silent count t p) = uploads p.
Proof.
  unfold submit_tile, doneCb.
  destruct silent; simpl; unfold uploads; simpl;
    rewrite ?omap_app; simpl; by rewrite ?app_nil_r.
Qed.

Lemma submit_tiles_uploads silent count rows : ∀ p,
  uploads (submit_tiles silent count rows p) = uploads p.
Proof.
  induction rows as [|t rows IH]; intros p; simpl; [done|].
  by rewrite IH, submit_tile_uploads.
Qed.

Lemma submit_tiles_actions silent count rows : ∀ p,
  ∃ more, actions (submit_tiles silent count rows p) = actions p ++ more
          ∧ Forall (λ a, ∀ d k, a ≠ ActUpload d k) more.
Proof.
  induction rows as [|t rows IH]; intros p; simpl.
  - exists []. by rewrite app_nil_r.
  - destruct (IH (submit_tile silent count t p)) as (more & -> & Hmore).
    unfold submit_tile, doneCb, act.
    destruct silent; simpl; rewrite <- ?app_assoc; simpl;
      eexists; (split; [reflexivity|]); repeat (constructor; [done|]); done.
Qed.

(** X13: what [mbtiles_to_url] uploads itself.  The producer calls
    [upload_file] for [metadata.json], with the encoded metadata, then for
    [layer.json] when the metadata has a non-empty [formatter], with the
    [str] of [json.dumps], not encoded; both calls come before any tile is
    handed to the pool, and there is no other. *)
Theorem mbtiles_to_url_uploads (st : Store) (maxzoom : Z) (prefix : string)
    (silent : bool) :
  let p := (mbtiles_to_url st maxzoom prefix silent idle).1 in
  let layer :=
    match dict_get "formatter" (st_metadata st) with
    | Some f => if bool_decide (f = "") then []
                else [(JsonStr [("formatter", f)], path_join prefix "layer.json")]
    | None => []
    end in
  uploads p
  = (JsonBytes (st_metadata st), path_join prefix "metadata.json") :: layer
  ∧ ∃ more,
      actions p = ((λ dk, ActUpload dk.1 dk.2) <$> uploads p) ++ more
      ∧ Forall (λ a, ∀ d k, a ≠ ActUpload d k) more
  .
Proof.
  intros p layer. unfold p, mbtiles_to_url.
  set (p1 := act _ idle).
  set (p2 := match dict_get _ _ with Some _ => _ | None => _ end).
  assert (Hu : uploads p2
               = (JsonBytes (st_metadata st), path_join prefix "metadata.json") :: layer
             ∧ actions p2 = (λ dk, ActUpload dk.1 dk.2) <$> uploads p2).
  { unfold p2, layer. destruct (dict_get _ _) as [f|]; [case_bool_decide|];
      unfold p1; rewrite ?uploads_act; done. }
  destruct Hu as [Hu Ha].
  destruct (submit_tiles_actions silent (count_upto maxzoom st) (tiles_upto maxzoom st)
              (mkProducer 0 0 (permits p2) (actions p2))) as (more & Hact & Hmore).
  assert (Hup : uploads (submit_tiles silent (count_upto maxzoom st)
                  (tiles_upto maxzoom st) (mkProducer 0 0 (permits p2) (actions p2)))
                = uploads p2).
  { by rewrite submit_tiles_uploads. }
  destruct (st_grids st ≫= head); simpl;
    (split;
     [ change (uploads (submit_tiles silent (count_upto maxzoom st)
                 (tiles_upto maxzoom st) (mkProducer 0 0 (permits p2) (actions p2)))
               = (JsonBytes (st_metadata st), path_join prefix "metadata.json") :: layer);
       by rewrite Hup, Hu
     | exists more; split; [|done];
       change (actions (submit_tiles silent (count_upto maxzoom st)
                 (tiles_upto maxzoom st) (mkProducer 0 0 (permits p2) (actions p2)))
               = ((λ dk, ActUpload dk.1 dk.2) <$>
                    uploads (submit_tiles silent (count_upto maxzoom st)
                      (tiles_upto maxzoom st) (mkProducer 0 0 (permits p2) (actions p2))))
                 ++ more);
       by rewrite Hup, Hact, <- Ha ]).
Qed.

(** ** Strings *)

Lemma chars_app s1 s2 : chars (s1 +:+ s2) = chars s1 ++ chars s2.
Proof. induction s1 as [|c s1 IH]; simpl; [done|]. unfold chars in *. simpl. by rewrite IH. Qed.

Lemma chars_inj s1 s2 : chars s1 = chars s2 → s1 = s2.
Proof.
  intros H. rewrite <- (string_of_list_ascii_of_string s1),
    <- (string_of_list_ascii_of_string s2). unfold chars in H. by rewrite H.
Qed.

Lemma chars_rev_app s1 s2 : chars (String.rev_app s1 s2) = reverse (chars s1) ++ chars s2.
Proof.
  revert s2. induction s1 as [|c s1 IH]; intros s2; simpl; [done|].
  rewrite IH. unfold chars. simpl. rewrite reverse_cons, <- app_assoc. done.
Qed.

Lemma chars_rev s : chars (String.rev s) = reverse (chars s).
Proof. unfold String.rev. rewrite chars_rev_app. unfold chars at 2. simpl. by rewrite app_nil_r. Qed.

Lemma ends_with_slash_last s :
  ends_with_slash s = bool_decide (last (chars s) = Some "/"%char).
Proof.
  unfold ends_with_slash.
  assert (H : chars (String.rev s) = reverse (chars s)) by apply chars_rev.
  destruct (String.rev s) as [|c r]; unfold chars in H; simpl in H.
  - symmetry in H. apply (f_equal reverse) in H. rewrite reverse_involutive in H.
    change (chars s = reverse []) in H. rewrite H. simpl. done.
  - apply (f_equal reverse) in H. rewrite reverse_involutive, reverse_cons in H.
    change (reverse (list_ascii_of_string r) ++ [c] = chars s) in H.
    rewrite <- H, last_snoc. apply bool_decide_ext. split; congruence.
Qed.

Lemma path_join_chars path name :
  chars (path_join path name) = chars path ++ path_sep path ++ chars name.
Proof.
  unfold path_join, path_sep.
  destruct (bool_decide (path = "") || ends_with_slash path); simpl.
  - apply chars_app.
  - by rewrite !chars_app.
Qed.

(** After a name that is not empty and does not end in a slash,
    [os.path.join] puts a slash. *)
Lemma path_sep_after path l c :
  chars path = l ++ [c] → c ≠ "/"%char → path_sep path = ["/"%char].
Proof.
  intros Hp Hc. unfold path_sep.
  rewrite bool_decide_eq_false_2.
  - rewrite ends_with_slash_last, Hp, last_snoc, bool_decide_eq_false_2; [done|congruence].
  - intros ->. by destruct l.
Qed.

Lemma split_at_sep {A} (c : A) l1 l2 r1 r2 :
  c ∉ l1 → c ∉ l2 → l1 ++ c :: r1 = l2 ++ c :: r2 → l1 = l2 ∧ r1 = r2.
Proof.
  revert l2. induction l1 as [|a l1 IH]; intros [|b l2] H1 H2 Heq; simpl in Heq.
  - by injection Heq.
  - injection Heq as <- _. exfalso. apply H2. left.
  - injection Heq as -> _. exfalso. apply H1. left.
  - injection Heq as <- Heq. apply not_elem_of_cons in H1 as [_ H1].
    apply not_elem_of_cons in H2 as [_ H2].
    destruct (IH l2 H1 H2 Heq) as [-> ->]. done.
Qed.

(** ** The digits of [str(n)] *)

Lemma pretty_N_char_int x : int_char (pretty_N_char x).
Proof.
  unfold int_char, pretty_N_char.
  repeat case_match; by apply (bool_decide_unpack _).
Qed.

Lemma pretty_N_go_chars x : ∀ s,
  ∃ ds, chars (pretty_N_go x s) = ds ++ chars s ∧ Forall int_char ds
        ∧ ((0 < x)%N → ds ≠ [])
        ∧ Forall (λ c, c ≠ "-"%char) ds.
Proof.
  induction (N.lt_wf_0 x) as [x _ IH]; intros s.
  assert (x = 0 ∨ 0 < x)%N as [->|Hx] by lia.
  - exists []. rewrite pretty_N_go_0. split_and!; [done|constructor|lia|constructor].
  - rewrite pretty_N_go_step by done.
    destruct (IH (x `div` 10)%N (N.div_lt x 10 Hx eq_refl)
                 (String (pretty_N_char (x `mod` 10)) s)) as (ds & -> & Hds & _ & Hnd).
    exists (ds ++ [pretty_N_char (x `mod` 10)]). split_and!.
    + unfold chars. simpl. by rewrite <- app_assoc.
    + apply Forall_app. split; [done|]. apply Forall_singleton, pretty_N_char_int.
    + intros _. by destruct ds.
    + apply Forall_app. split; [done|]. apply Forall_singleton.
      unfold pretty_N_char. by repeat case_match.
Qed.

(** [str(n)] is made of digits and a sign, is not empty, and holds neither a
    slash nor a dot. *)
Lemma py_str_chars n :
  Forall int_char (chars (py_str n)) ∧ chars (py_str n) ≠ [].
Proof.
  assert (HN : ∀ p, Forall int_char (chars (pretty (N.pos p)))
                    ∧ chars (pretty (N.pos p)) ≠ []).
  { intros p. unfold pretty, pretty_N. rewrite decide_False by done.
    destruct (pretty_N_go_chars (N.pos p) "") as (ds & -> & Hds & Hne & _).
    change (chars "") with (@nil ascii). rewrite app_nil_r.
    split; [done|]. apply Hne. lia. }
  unfold py_str, pretty, pretty_Z. destruct n as [|p|p].
  - split; [|done]. apply Forall_singleton. by apply (bool_decide_unpack _).
  - apply HN.
  - change (pretty_positive p) with (pretty (N.pos p)). rewrite chars_app.
    destruct (HN p) as [H1 H2]. split.
    + apply Forall_app. split; [|done].
      apply Forall_singleton. by apply (bool_decide_unpack _).
    + done.
Qed.

Lemma int_char_not c (d : ascii) : int_char d → c ∉ chars "-0123456789" → d ≠ c.
Proof. unfold int_char. intros Hd Hc ->. done. Qed.

Lemma py_str_no_char n (c : ascii) :
  c ∉ chars "-0123456789" → c ∉ chars (py_str n).
Proof.
  intros Hc Hin. destruct (py_str_chars n) as [Hall _].
  rewrite Forall_forall in Hall. by apply Hc, Hall.
Qed.

Lemma py_str_last n : ∃ l c, chars (py_str n) = l ++ [c] ∧ c ≠ "/"%char.
Proof.
  destruct (py_str_chars n) as [Hall Hne]. revert Hall Hne.
  generalize (chars (py_str n)). intros l.
  induction l as [|a l _] using rev_ind; [done|]. intros Hall _.
  exists l, a. split; [done|].
  apply Forall_app in Hall as [_ Ha]. rewrite Forall_singleton in Ha.
  eapply int_char_not; [done|]. by apply (bool_decide_unpack _).
Qed.

Lemma py_str_inj n m : py_str n = py_str m → n = m.
Proof. apply pretty_Z_inj. Qed.

(** ** The key of a tile *)

(** The key of a tile for every scheme but ['wms'], character by character:
    the prefix and its separator, then [z/x/y.format]. *)
Lemma os_path_join_zxy prefix z x name :
  chars (path_join (os_path_join prefix [py_str z; py_str x]) name)
  = chars prefix ++ path_sep prefix
    ++ chars (py_str z) ++ "/"%char :: chars (py_str x) ++ "/"%char :: chars name.
Proof.
  unfold os_path_join. simpl. rewrite !path_join_chars.
  destruct (py_str_last z) as (lz & cz & Hz & Hcz).
  destruct (py_str_last x) as (lx & cx & Hx & Hcx).
  rewrite (path_sep_after (path_join prefix (py_str z)) (chars prefix ++ path_sep prefix ++ lz) cz);
    [|by rewrite path_join_chars, Hz, <- !app_assoc|done].
  rewrite (path_sep_after (path_join (path_join prefix (py_str z)) (py_str x))
             (chars prefix ++ path_sep prefix ++ chars (py_str z) ++ "/"%char :: lx) cx);
    [|rewrite !path_join_chars, Hx;
      rewrite (path_sep_after (path_join prefix (py_str z))
                 (chars prefix ++ path_sep prefix ++ lz) cz);
      [by rewrite <- !app_assoc|by rewrite path_join_chars, Hz, <- !app_assoc|done]
     |done].
  by rewrite <- !app_assoc.
Qed.

Lemma upload_tile_key scheme format prefix silent t :
  scheme ≠ Some "wms" →
  chars (tc_key (upload_tile scheme format prefix silent t))
  = chars prefix ++ path_sep prefix
    ++ chars (py_str (zoom_level t)) ++ "/"%char
       :: chars (py_str (tile_column t)) ++ "/"%char
       :: chars (py_str (if bool_decide (scheme = Some "xyz")
                         then flip_y (zoom_level t) (tile_row t) else tile_row t))
          ++ "."%char :: chars (default "png" format).
Proof.
  intros Hwms. unfold upload_tile.
  rewrite (bool_decide_eq_false_2 (scheme = Some "wms")) by done.
  case_bool_decide; cbn -[os_path_join path_join py_str flip_y chars];
    rewrite os_path_join_zxy, chars_app; done.
Qed.

(** X14: the key of a tile names the tile.  In the ['xyz'] layout and in the
    default one, for zoom levels from 0 on, two tiles that [upload_tile]
    sends to the same key have the same zoom level, column and row: no two
    tiles of a table overwrite one another, whatever the prefix and the
    format. *)
Theorem upload_tile_key_injective (scheme format : option string)
    (prefix : string) (silent : bool) (t1 t2 : Tile) :
  scheme ≠ Some "wms" →
  0 ≤ zoom_level t1 → 0 ≤ zoom_level t2 →
  tc_key (upload_tile scheme format prefix silent t1)
  = tc_key (upload_tile scheme format prefix silent t2) →
  coords t1 = coords t2.
Proof.
  intros Hwms Hz1 Hz2 Hkey. apply (f_equal chars) in Hkey.
  rewrite !upload_tile_key in Hkey by done.
  apply app_inv_head, app_inv_head in Hkey.
  assert (Hslash : "/"%char ∉ chars "-0123456789") by (by apply (bool_decide_unpack _)).
  assert (Hdot : "."%char ∉ chars "-0123456789") by (by apply (bool_decide_unpack _)).
  apply split_at_sep in Hkey as [Hz Hkey]; [|by apply py_str_no_char..].
  apply split_at_sep in Hkey as [Hx Hkey]; [|by apply py_str_no_char..].
  apply split_at_sep in Hkey as [Hy _]; [|by apply py_str_no_char..].
  apply chars_inj, py_str_inj in Hz, Hx, Hy.
  unfold coords. rewrite Hz, Hx. f_equal.
  case_bool_decide; [|done]. unfold flip_y in Hy. rewrite Hz in Hy. lia.
Qed.

Lemma upload_tile_key_injective_witness :
  let t1 := mkTile 1 0 0 [x01] in
  let t2 := mkTile 1 0 0 [x02] in
  Some "xyz" ≠ Some "wms"
  ∧ 0 ≤ zoom_level t1 ∧ 0 ≤ zoom_level t2
  ∧ tc_key (upload_tile (Some "xyz") None "tiles" false t1)
    = tc_key (upload_tile (Some "xyz") None "tiles" false t2)
  ∧ coords t1 = coords t2.
Proof.
  intros t1 t2.
  assert (H1 : Some "xyz" ≠ Some "wms") by done.
  assert (H2 : 0 ≤ zoom_level t1) by (simpl; lia).
  assert (H3 : 0 ≤ zoom_level t2) by (simpl; lia).
  assert (H4 : tc_key (upload_tile (Some "xyz") None "tiles" false t1)
               = tc_key (upload_tile (Some "xyz") None "tiles" false t2))
    by reflexivity.
  split; [exact H1|]. split; [exact H2|]. split; [exact H3|]. split; [exact H4|].
  exact (upload_tile_key_injective (Some "xyz") None "tiles" false t1 t2 H1 H2 H3 H4).
Defined.

(** ** The producer of [pmtiles_to_url] *)

Lemma shiftl_flip_y z y : 0 ≤ z → Z.shiftl 1 z - 1 - y = flip_y z y.
Proof. intros Hz. unfold flip_y. rewrite Z.shiftl_1_l. lia. Qed.

Lemma pm_submit_tiles_spec silent count tiles : ∀ p,
  Forall (λ t, 0 ≤ (pm_zxy t).1.1) tiles →
  let r := pm_submit_tiles silent count tiles p in
  r.2 = PmCompleted
  ∧ submitted r.1 = submitted p ++ (pm_row <$> tiles)
  ∧ reported_counts r.1
    = reported_counts p ++ (if silent then [] else replicate (length tiles) count)
  ∧ uploads r.1 = uploads p.
Proof.
  induction tiles as [|t tiles IH]; intros p Hall; simpl.
  - rewrite !app_nil_r. split_and!; try done. by destruct silent; rewrite app_nil_r.
  - apply Forall_cons in Hall as [Hz Hall].
    destruct t as [[[z x] y] d]. simpl in Hz |- *.
    rewrite bool_decide_eq_false_2 by lia.
    destruct (IH (submit_tile silent count (mkTile z x (Z.shiftl 1 z - 1 - y) d) p) Hall)
      as (H1 & H2 & H3 & H4).
    split_and!.
    + done.
    + rewrite H2, submit_tile_submitted, <- app_assoc. unfold pm_row at 2. simpl.
      by rewrite shiftl_flip_y.
    + rewrite H3, submit_tile_reported, <- app_assoc. by destruct silent.
    + by rewrite H4, submit_tile_uploads.
Qed.

(** X15: what [pmtiles_to_url] hands to the pool.  When every tile of the
    archive has a zoom level of 0 or more, the producer ends normally; it
    has uploaded [metadata.json] and nothing else itself, has submitted each
    tile of the archive, in order, with its row turned into [2^z - 1 - y],
    and reports against the header's [addressed_tiles_count].  [maxzoom] is
    read and has no effect. *)
Theorem pmtiles_to_url_submits (ar : Archive) (maxzoom : Z) (prefix : string)
    (silent : bool) :
  Forall (λ t, 0 ≤ (pm_zxy t).1.1) (ar_tiles ar) →
  let r := pmtiles_to_url ar maxzoom prefix silent idle in
  r.2 = PmCompleted
  ∧ submitted r.1 = pm_row <$> ar_tiles ar
  ∧ reported_counts r.1
    = (if silent then []
       else replicate (length (ar_tiles ar)) (ar_addressed_tiles_count ar))
  ∧ uploads r.1 = [(Bytes (ar_metadata ar), path_join prefix "metadata.json")].
Proof.
  intros Hall r. unfold r, pmtiles_to_url.
  destruct (pm_submit_tiles_spec silent (ar_addressed_tiles_count ar) (ar_tiles ar)
              (mkProducer 0 0
                 (permits (act (ActUpload (Bytes (ar_metadata ar))
                                  (path_join prefix "metadata.json")) idle))
                 (actions (act (ActUpload (Bytes (ar_metadata ar))
                                  (path_join prefix "metadata.json")) idle)))
              Hall) as (H1 & H2 & H3 & H4).
  split_and!; [done|by rewrite H2|by rewrite H3|by rewrite H4].
Qed.

Lemma pmtiles_to_url_submits_witness :
  let ar := mkArchive [x7b; x7d] 7
              [mkPmTile (0, 0, 0) [x01]; mkPmTile (3, 1, 2) [x02]] in
  let r := pmtiles_to_url ar 0 "tiles" false idle in
  Forall (λ t, 0 ≤ (pm_zxy t).1.1) (ar_tiles ar)
  ∧ r.2 = PmCompleted
  ∧ submitted r.1 = pm_row <$> ar_tiles ar
  ∧ reported_counts r.1
    = replicate (length (ar_tiles ar)) (ar_addressed_tiles_count ar)
  ∧ uploads r.1 = [(Bytes (ar_metadata ar), path_join "tiles" "metadata.json")].
Proof.
  intros ar r.
  assert (H : Forall (λ t, 0 ≤ (pm_zxy t).1.1) (ar_tiles ar))
    by (repeat constructor; simpl; lia).
  split; [exact H|].
  exact (pmtiles_to_url_submits ar 0 "tiles" false H).
Defined.

(** X16: the row in the key of a PMTiles tile.  [pmtiles_to_url] turns the
    row before [upload_tile] sees it; with the ['xyz'] scheme [upload_tile]
    turns it back, so the key has the archive's own [y]; without a scheme
    the key has [2^z - 1 - y].  The blob sent is the archive's. *)
Theorem pmtiles_key_row (format : option string) (prefix : string)
    (silent : bool) (t : PmTile) :
  0 ≤ (pm_zxy t).1.1 →
  let '(z, x, y) := pm_zxy t in
  tc_key (upload_tile (Some "xyz") format prefix silent (pm_row t))
  = path_join (os_path_join prefix [py_str z; py_str x])
              (py_str y +:+ "." +:+ default "png" format)
  ∧ tc_key (upload_tile None format prefix silent (pm_row t))
    = path_join (os_path_join prefix [py_str z; py_str x])
                (py_str (2 ^ z - 1 - y) +:+ "." +:+ default "png" format)
  ∧ tc_data (upload_tile (Some "xyz") format prefix silent (pm_row t))
    = Bytes (pm_data t).
Proof.
  destruct t as [[[z x] y] d]. simpl. intros Hz.
  unfold upload_tile, pm_row. simpl. split_and!; [|done..].
  do 3 f_equal. unfold flip_y. lia.
Qed.

Lemma pmtiles_key_row_witness :
  0 ≤ 3
  ∧ tc_key (upload_tile (Some "xyz") None "tiles" false (pm_row (mkPmTile (3, 1, 2) [x02])))
    = path_join (os_path_join "tiles" [py_str 3; py_str 1])
                (py_str 2 +:+ "." +:+ default "png" None)
  ∧ tc_key (upload_tile None None "tiles" false (pm_row (mkPmTile (3, 1, 2) [x02])))
    = path_join (os_path_join "tiles" [py_str 3; py_str 1])
                (py_str (2 ^ 3 - 1 - 2) +:+ "." +:+ default "png" None)
  ∧ tc_data (upload_tile (Some "xyz") None "tiles" false (pm_row (mkPmTile (3, 1, 2) [x02])))
    = Bytes [x02].
Proof.
  split; [lia|].
  apply (pmtiles_key_row None "tiles" false (mkPmTile (3, 1, 2) [x02])). simpl. lia.
Defined.

(** ** Reading back what [str] printed *)

Lemma to_string_chars s : to_string (chars s) = s.
Proof. apply string_of_list_ascii_of_string. Qed.

Lemma chars_to_string l : chars (to_string l) = l.
Proof. apply list_ascii_of_string_of_list_ascii. Qed.

Lemma rev_involutive s : String.rev (String.rev s) = s.
Proof. apply chars_inj. by rewrite !chars_rev, reverse_involutive. Qed.

Lemma lstrip_id s :
  match chars s with c :: _ => py_isspace c = false | [] => True end →
  lstrip s = s.
Proof. destruct s as [|c s]; simpl; [done|]. unfold chars. simpl. by intros ->. Qed.

(** A string with no white space at either end is left alone. *)
Lemma strip_id s :
  Forall (λ c, py_isspace c = false) (chars s) → strip s = s.
Proof.
  intros Hall. unfold strip. rewrite (lstrip_id s).
  2:{ destruct (chars s); [done|]. by apply Forall_cons in Hall as [? _]. }
  rewrite (lstrip_id (String.rev s)); [apply rev_involutive|].
  rewrite chars_rev. destruct (reverse (chars s)) as [|c l] eqn:Hr; [done|].
  rewrite Forall_forall in Hall. apply Hall.
  apply elem_of_reverse. rewrite Hr. left.
Qed.

Lemma digits_val_digits base digit ds : ∀ acc seen,
  Forall (λ c, c ≠ "_"%char ∧ is_Some (digit c)) ds →
  digits_val base digit acc seen ds
  = if seen || bool_decide (ds ≠ []) then Some (horner base digit acc ds) else None.
Proof.
  induction ds as [|c ds IH]; intros acc seen Hall; simpl.
  - rewrite orb_false_r. by destruct seen.
  - apply Forall_cons in Hall as [[Hc [d Hd]] Hall].
    rewrite bool_decide_eq_false_2 by done. rewrite Hd. simpl.
    rewrite IH by done. simpl. rewrite orb_true_r. unfold horner. simpl.
    by rewrite ?Hd.
Qed.

Lemma horner_app base digit acc l1 l2 :
  horner base digit acc (l1 ++ l2) = horner base digit (horner base digit acc l1) l2.
Proof. apply foldl_app. Qed.

Lemma horner_zeros k : horner 10 dec_digit 0 (replicate k "0"%char) = 0.
Proof. induction k as [|k IH]; [done|]. simpl. exact IH. Qed.

Lemma dec_digit_pretty x :
  (x < 10)%N →
  dec_digit (pretty_N_char x) = Some (Z.of_N x)
  ∧ pretty_N_char x ≠ "_"%char ∧ pretty_N_char x ≠ "-"%char
  ∧ py_isspace (pretty_N_char x) = false.
Proof.
  intros Hx.
  assert (x = 0 ∨ x = 1 ∨ x = 2 ∨ x = 3 ∨ x = 4 ∨ x = 5 ∨ x = 6 ∨ x = 7
          ∨ x = 8 ∨ x = 9)%N as H by lia.
  repeat destruct H as [->|H]; try subst x; done.
Qed.

(** The digits [str] prints for a natural number, read back. *)
Lemma pretty_N_go_digits x : ∀ s,
  ∃ ds, chars (pretty_N_go x s) = ds ++ chars s
        ∧ Forall (λ c, (c ≠ "_"%char ∧ is_Some (dec_digit c))
                       ∧ c ≠ "-"%char ∧ py_isspace c = false) ds
        ∧ horner 10 dec_digit 0 ds = Z.of_N x
        ∧ ((0 < x)%N → ds ≠ []).
Proof.
  induction (N.lt_wf_0 x) as [x _ IH]; intros s.
  assert (x = 0 ∨ 0 < x)%N as [->|Hx] by lia.
  - exists []. rewrite pretty_N_go_0. split_and!; [done|constructor|done|lia].
  - rewrite pretty_N_go_step by done.
    destruct (IH (x `div` 10)%N (N.div_lt x 10 Hx eq_refl)
                 (String (pretty_N_char (x `mod` 10)) s)) as (ds & -> & Hds & Hval & _).
    destruct (dec_digit_pretty (x `mod` 10)) as (Hd & H1 & H2 & H3).
    { apply N.mod_lt. lia. }
    exists (ds ++ [pretty_N_char (x `mod` 10)]). split_and!.
    + unfold chars. simpl. by rewrite <- app_assoc.
    + apply Forall_app. split; [done|]. apply Forall_singleton.
      split_and!; [done|by rewrite Hd|done|done].
    + rewrite horner_app, Hval. unfold horner. simpl. rewrite Hd. simpl.
      rewrite (N.div_mod x 10) at 3 by lia. lia.
    + intros _. by destruct ds.
Qed.

Lemma py_str_digits n :
  0 ≤ n →
  Forall (λ c, (c ≠ "_"%char ∧ is_Some (dec_digit c))
               ∧ c ≠ "-"%char ∧ py_isspace c = false) (chars (py_str n))
  ∧ horner 10 dec_digit 0 (chars (py_str n)) = n
  ∧ chars (py_str n) ≠ [].
Proof.
  intros Hn.
  assert (HN : ∀ p,
            Forall (λ c, (c ≠ "_"%char ∧ is_Some (dec_digit c))
                         ∧ c ≠ "-"%char ∧ py_isspace c = false)
                   (chars (pretty (N.pos p)))
            ∧ horner 10 dec_digit 0 (chars (pretty (N.pos p))) = Z.pos p
            ∧ chars (pretty (N.pos p)) ≠ []).
  { intros p. unfold pretty, pretty_N. rewrite decide_False by done.
    destruct (pretty_N_go_digits (N.pos p) "") as (ds & -> & Hds & Hval & Hne).
    change (chars "") with (@nil ascii). rewrite app_nil_r.
    split_and!; [done|by rewrite Hval|apply Hne; lia]. }
  unfold py_str, pretty, pretty_Z. destruct n as [|p|p]; [|apply HN|lia].
  split_and!; [|done..]. by repeat constructor.
Qed.

Lemma py_str_neg n : n < 0 → py_str n = "-" +:+ py_str (- n).
Proof. destruct n as [|p|p]; [lia..|]. done. Qed.

(** What [int] reads in a literal made of a sign, zeros and the digits of
    [str]. *)
Lemma signed_digits (neg : bool) k n :
  0 ≤ n →
  signed (digits_val 10 dec_digit 0 false)
         ((if neg then ["-"%char] else []) ++ replicate k "0"%char ++ chars (py_str n))
  = Some (if neg then - n else n).
Proof.
  intros Hn. destruct (py_str_digits n Hn) as (Hall & Hval & Hne).
  assert (Hbody : digits_val 10 dec_digit 0 false
                    (replicate k "0"%char ++ chars (py_str n)) = Some n).
  { rewrite digits_val_digits.
    - rewrite bool_decide_eq_true_2.
      + simpl. by rewrite horner_app, horner_zeros, Hval.
      + destruct k; simpl; [done|done].
    - apply Forall_app. split.
      + apply Forall_forall. intros c Hc. apply elem_of_replicate in Hc as [-> _].
        split; [done|]. by eexists.
      + eapply Forall_impl; [exact Hall|]. by intros c [? _]. }
  destruct neg; simpl.
  - by rewrite Hbody.
  - destruct (replicate k "0"%char ++ chars (py_str n)) as [|c l] eqn:Hl.
    { by destruct k, (chars (py_str n)). }
    assert (Hc : c ≠ "-"%char ∧ c ≠ "+"%char).
    { destruct k as [|k]; simpl in Hl.
      - rewrite Hl in Hall. apply Forall_cons in Hall as [[[_ Hd] [Hm _]] _].
        split; [done|]. intros ->. by destruct Hd.
      - injection Hl as <- _. done. }
    unfold signed. rewrite !bool_decide_eq_false_2 by apply Hc. done.
Qed.

Lemma py_str_no_space n : Forall (λ c, py_isspace c = false) (chars (py_str n)).
Proof.
  destruct (decide (0 ≤ n)) as [Hn|Hn].
  - destruct (py_str_digits n Hn) as (Hall & _). eapply Forall_impl; [exact Hall|].
    by intros c (_ & _ & ?).
  - rewrite py_str_neg by lia. rewrite chars_app. apply Forall_app. split.
    + by repeat constructor.
    + destruct (py_str_digits (- n)) as (Hall & _); [lia|].
      eapply Forall_impl; [exact Hall|]. by intros c (_ & _ & ?).
Qed.

(** What [int] skips is white space for [str.isspace]. *)
Lemma int_space_isspace c : py_isspace c = false → int_space c = false.
Proof. destruct c as [[] [] [] [] [] [] [] []]; by vm_compute. Qed.

Lemma int_lstrip_id s :
  match chars s with c :: _ => int_space c = false | [] => True end →
  int_lstrip s = s.
Proof. destruct s as [|c s]; simpl; [done|]. unfold chars. simpl. by intros ->. Qed.

Lemma int_strip_id s :
  Forall (λ c, py_isspace c = false) (chars s) → int_strip s = s.
Proof.
  intros Hall.
  assert (Hint : Forall (λ c, int_space c = false) (chars s)).
  { eapply Forall_impl; [exact Hall|]. apply int_space_isspace. }
  unfold int_strip. rewrite (int_lstrip_id s).
  2:{ destruct (chars s); [done|]. by apply Forall_cons in Hint as [? _]. }
  rewrite (int_lstrip_id (String.rev s)); [apply rev_involutive|].
  rewrite chars_rev. destruct (reverse (chars s)) as [|c l] eqn:Hr; [done|].
  rewrite Forall_forall in Hint. apply Hint.
  apply elem_of_reverse. rewrite Hr. left.
Qed.

(** [int] refuses an information separator next to the digits, which
    [str.strip] would have dropped. *)
Lemma py_int_separator :
  strip (String (Ascii.ascii_of_nat 28) "5") = "5"
  ∧ py_int (String (Ascii.ascii_of_nat 28) "5") = None
  ∧ py_int " 5 " = Some 5.
Proof. by vm_compute. Qed.

(** [int(str(n)) == n]. *)
Lemma py_int_str n : py_int (py_str n) = Some n.
Proof.
  unfold py_int. rewrite int_strip_id by apply py_str_no_space.
  destruct (decide (0 ≤ n)) as [Hn|Hn].
  - apply (signed_digits false 0 n Hn).
  - rewrite py_str_neg by lia. rewrite chars_app.
    pose proof (signed_digits true 0 (- n) ltac:(lia)) as H.
    cbn [app replicate] in H. change (chars "-") with ["-"%char].
    cbn [app]. rewrite H. f_equal. lia.
Qed.

Lemma chars_zeros k : chars (zeros k) = replicate k "0"%char.
Proof. apply chars_to_string. Qed.

Lemma fmt_0d_chars w n :
  ∃ k, chars (fmt_0d w n)
       = (if bool_decide (n < 0) then ["-"%char] else [])
         ++ replicate k "0"%char ++ chars (py_str (Z.abs n)).
Proof.
  unfold fmt_0d. eexists. rewrite !chars_app, chars_zeros.
  f_equal. by case_bool_decide.
Qed.

(** [int("%0wd" % n) == n]. *)
Lemma py_int_fmt_0d w n : py_int (fmt_0d w n) = Some n.
Proof.
  destruct (fmt_0d_chars w n) as [k Hk]. unfold py_int.
  rewrite int_strip_id.
  - rewrite Hk. case_bool_decide.
    + rewrite (signed_digits true k (Z.abs n)) by lia. f_equal. lia.
    + rewrite (signed_digits false k (Z.abs n)) by lia. f_equal. lia.
  - rewrite Hk. apply Forall_app. split; [by case_bool_decide; repeat constructor|].
    apply Forall_app. split; [|apply py_str_no_space].
    apply Forall_forall. intros c Hc. by apply elem_of_replicate in Hc as [-> _].
Qed.

Lemma fmt_0d_inj w n m : fmt_0d w n = fmt_0d w m → n = m.
Proof.
  intros H. apply (f_equal py_int) in H. rewrite !py_int_fmt_0d in H. congruence.
Qed.

(** ["%0wd" % n] is made of digits and a sign and is not empty. *)
Lemma fmt_0d_int_chars w n :
  Forall int_char (chars (fmt_0d w n)) ∧ chars (fmt_0d w n) ≠ [].
Proof.
  destruct (fmt_0d_chars w n) as [k ->].
  destruct (py_str_chars (Z.abs n)) as [Hall Hne]. split.
  - apply Forall_app. split.
    { case_bool_decide; [|constructor].
      apply Forall_singleton. by apply (bool_decide_unpack _). }
    apply Forall_app. split; [|done].
    apply Forall_forall. intros c Hc. apply elem_of_replicate in Hc as [-> _].
    by apply (bool_decide_unpack _).
  - intros H. apply app_eq_nil in H as [_ H]. apply app_eq_nil in H as [_ H]. done.
Qed.

(** ** The ['wms'] layout *)

Lemma open_ended_int l : Forall int_char l → l ≠ [] → open_ended l.
Proof.
  intros Hall Hne. induction l as [|a l _] using rev_ind; [done|].
  exists l, a. split; [done|].
  apply Forall_app in Hall as [_ Ha]. rewrite Forall_singleton in Ha.
  eapply int_char_not; [done|]. by apply (bool_decide_unpack _).
Qed.

Lemma open_ended_app l1 l2 : open_ended l2 → open_ended (l1 ++ l2).
Proof. intros (l' & c & -> & Hc). exists (l1 ++ l'), c. by rewrite app_assoc. Qed.

Lemma foldl_path_join_chars names : ∀ path,
  open_ended (chars path) →
  Forall (λ n, open_ended (chars n)) names →
  chars (foldl path_join path names)
  = chars path ++ concat ((λ n, "/"%char :: chars n) <$> names)
  ∧ open_ended (chars (foldl path_join path names)).
Proof.
  induction names as [|n names IH]; intros path Hp Hall; simpl.
  - by rewrite app_nil_r.
  - apply Forall_cons in Hall as [Hn Hall].
    assert (Hj : chars (path_join path n) = chars path ++ "/"%char :: chars n).
    { rewrite path_join_chars. destruct Hp as (l & c & Hl & Hc).
      by rewrite (path_sep_after path l c Hl Hc). }
    destruct (IH (path_join path n)) as [-> Hend]; [|done|].
    + rewrite Hj. change ("/"%char :: chars n) with (["/"%char] ++ chars n).
      rewrite app_assoc. by apply open_ended_app.
    + split; [|done]. rewrite Hj. csimpl. by rewrite <- app_assoc.
Qed.

(** The key of a tile in the ['wms'] layout, character by character. *)
Lemma upload_tile_key_wms format prefix silent t :
  let x := tile_column t in
  let y := tile_row t in
  chars (tc_key (upload_tile (Some "wms") format prefix silent t))
  = chars prefix ++ path_sep prefix
    ++ chars (fmt_0d 2 (zoom_level t))
    ++ "/"%char :: chars (fmt_0d 3 (Z.quot x 1000000))
    ++ "/"%char :: chars (fmt_0d 3 ((x / 1000) `mod` 1000))
    ++ "/"%char :: chars (fmt_0d 3 (x `mod` 1000))
    ++ "/"%char :: chars (fmt_0d 3 (Z.quot y 1000000))
    ++ "/"%char :: chars (fmt_0d 3 ((y / 1000) `mod` 1000))
    ++ "/"%char :: chars (fmt_0d 3 (y `mod` 1000))
    ++ "."%char :: chars (default "png" format).
Proof.
  intros x y. unfold upload_tile.
  rewrite (bool_decide_eq_false_2 (Some "wms" = Some "xyz")) by done.
  rewrite !(bool_decide_eq_true_2 (Some "wms" = Some "wms")) by done.
  cbn -[os_path_join path_join fmt_0d fmt_0d_quot fmt_0d_quot_mod chars Z.modulo Z.div Z.quot].
  fold x y. unfold os_path_join, fmt_0d_quot, fmt_0d_quot_mod.
  assert (Hend : ∀ w n, open_ended (chars (fmt_0d w n))).
  { intros w n. destruct (fmt_0d_int_chars w n). by apply open_ended_int. }
  cbn [foldl].
  rewrite path_join_chars.
  destruct (foldl_path_join_chars
              [fmt_0d 3 (Z.quot x 1000000); fmt_0d 3 ((x / 1000) `mod` 1000);
               fmt_0d 3 (x `mod` 1000); fmt_0d 3 (Z.quot y 1000000);
               fmt_0d 3 ((y / 1000) `mod` 1000)]
              (path_join prefix (fmt_0d 2 (zoom_level t)))) as [Hc Ho].
  { rewrite path_join_chars, app_assoc. apply open_ended_app, Hend. }
  { repeat constructor; apply Hend. }
  cbn [foldl] in Hc, Ho. rewrite Hc.
  destruct Ho as (l & c & Hl & Hne). rewrite (path_sep_after _ l c Hl Hne).
  rewrite path_join_chars, chars_app. csimpl. rewrite <- !app_assoc. csimpl.
  repeat (f_equal; try (rewrite <- !app_assoc; csimpl)).
Qed.

(** X17: the keys of the ['wms'] layout.  The six directories and the file
    name split the column and the row into three groups of three digits
    each; for columns and rows from 0 up to 2^32 two tiles with the same key
    have the same zoom level, column and row. *)
Theorem upload_tile_key_injective_wms (format : option string)
    (prefix : string) (silent : bool) (t1 t2 : Tile) :
  0 ≤ tile_column t1 < 2 ^ 32 → 0 ≤ tile_row t1 < 2 ^ 32 →
  0 ≤ tile_column t2 < 2 ^ 32 → 0 ≤ tile_row t2 < 2 ^ 32 →
  tc_key (upload_tile (Some "wms") format prefix silent t1)
  = tc_key (upload_tile (Some "wms") format prefix silent t2) →
  coords t1 = coords t2.
Proof.
  intros [Hx1 _] [Hy1 _] [Hx2 _] [Hy2 _] Hkey. apply (f_equal chars) in Hkey.
  rewrite !upload_tile_key_wms in Hkey.
  apply app_inv_head, app_inv_head in Hkey.
  assert (Hslash : ∀ w n, "/"%char ∉ chars (fmt_0d w n)).
  { intros w n Hin. destruct (fmt_0d_int_chars w n) as [Hall _].
    rewrite Forall_forall in Hall. specialize (Hall _ Hin). revert Hall.
    by apply (bool_decide_unpack _). }
  assert (Hdot : ∀ w n, "."%char ∉ chars (fmt_0d w n)).
  { intros w n Hin. destruct (fmt_0d_int_chars w n) as [Hall _].
    rewrite Forall_forall in Hall. specialize (Hall _ Hin). revert Hall.
    by apply (bool_decide_unpack _). }
  apply split_at_sep in Hkey as [H0 Hkey]; [|apply Hslash..].
  apply split_at_sep in Hkey as [H1 Hkey]; [|apply Hslash..].
  apply split_at_sep in Hkey as [H2 Hkey]; [|apply Hslash..].
  apply split_at_sep in Hkey as [H3 Hkey]; [|apply Hslash..].
  apply split_at_sep in Hkey as [H4 Hkey]; [|apply Hslash..].
  apply split_at_sep in Hkey as [H5 Hkey]; [|apply Hslash..].
  apply split_at_sep in Hkey as [H6 _]; [|apply Hdot..].
  apply chars_inj, fmt_0d_inj in H0, H1, H2, H3, H4, H5, H6.
  rewrite !Z.quot_div_nonneg in H1, H4 by lia.
  assert (Hsplit : ∀ a b, 0 ≤ a → 0 ≤ b →
            a / 1000000 = b / 1000000 →
            (a / 1000) `mod` 1000 = (b / 1000) `mod` 1000 →
            a `mod` 1000 = b `mod` 1000 → a = b).
  { intros a b Ha Hb Hq Hm Hr.
    rewrite <- !(Z.div_div _ 1000 1000) in Hq by lia.
    pose proof (Z.div_mod (a / 1000) 1000). pose proof (Z.div_mod (b / 1000) 1000).
    pose proof (Z.div_mod a 1000). pose proof (Z.div_mod b 1000). lia. }
  unfold coords. rewrite H0.
  by rewrite (Hsplit _ _ Hx1 Hx2 H1 H2 H3), (Hsplit _ _ Hy1 Hy2 H4 H5 H6).
Qed.

Lemma upload_tile_key_injective_wms_witness :
  let t1 := mkTile 13 1234567 7654321 [x01] in
  let t2 := mkTile 13 1234567 7654321 [x02] in
  0 ≤ tile_column t1 < 2 ^ 32 ∧ 0 ≤ tile_row t1 < 2 ^ 32
  ∧ 0 ≤ tile_column t2 < 2 ^ 32 ∧ 0 ≤ tile_row t2 < 2 ^ 32
  ∧ tc_key (upload_tile (Some "wms") None "tiles" false t1)
    = tc_key (upload_tile (Some "wms") None "tiles" false t2)
  ∧ coords t1 = coords t2.
Proof.
  intros t1 t2.
  assert (H1 : 0 ≤ tile_column t1 < 2 ^ 32) by (split; [simpl; lia|reflexivity]).
  assert (H2 : 0 ≤ tile_row t1 < 2 ^ 32) by (split; [simpl; lia|reflexivity]).
  assert (H3 : 0 ≤ tile_column t2 < 2 ^ 32) by (split; [simpl; lia|reflexivity]).
  assert (H4 : 0 ≤ tile_row t2 < 2 ^ 32) by (split; [simpl; lia|reflexivity]).
  assert (H5 : tc_key (upload_tile (Some "wms") None "tiles" false t1)
               = tc_key (upload_tile (Some "wms") None "tiles" false t2))
    by reflexivity.
  refine (conj H1 (conj H2 (conj H3 (conj H4 (conj H5 _))))).
  exact (upload_tile_key_injective_wms None "tiles" false t1 t2 H1 H2 H3 H4 H5).
Defined.

(** ** [disk_to_mbtiles] *)

Lemma for_each_res_invariant {A S} (f : A → S → Res S) (P : S → Prop) l :
  (∀ a s s', P s → f a s = Ok s' → P s') →
  ∀ s s', P s → for_each_res f l s = Ok s' → P s'.
Proof.
  intros Hstep. induction l as [|a l IH]; intros s s' Hs; simpl.
  - by intros [= <-].
  - destruct (f a s) as [s1|e] eqn:Hf; simpl; [|done]. eauto.
Qed.

Lemma for_each_res_fails {A S} (f : A → S → Res S) l a :
  a ∈ l → (∀ s, ∃ e, f a s = Err e) → ∀ s, ∃ e, for_each_res f l s = Err e.
Proof.
  intros Hin Hf. induction l as [|b l IH]; intros s; [by apply elem_of_nil in Hin|].
  simpl. apply elem_of_cons in Hin as [<-|Hin].
  - destruct (Hf s) as [e ->]. by exists e.
  - destruct (f b s) as [s1|e]; simpl; [by apply IH|by exists e].
Qed.

Lemma for_each_res_ext {A S} (f g : A → S → Res S) l :
  (∀ a s, f a s = g a s) → ∀ s, for_each_res f l s = for_each_res g l s.
Proof.
  intros Hfg. induction l as [|a l IH]; intros s; simpl; [done|].
  rewrite Hfg. destruct (g a s); simpl; [apply IH|done].
Qed.

Lemma for_each_res_fmap {A B S} (f : B → S → Res S) (g : A → B) l s :
  for_each_res f (g <$> l) s = for_each_res (λ a, f (g a)) l s.
Proof.
  revert s. induction l as [|a l IH]; intros s; simpl; [done|].
  destruct (f (g a) s); simpl; [apply IH|done].
Qed.

Lemma for_each_res_filter {A S} (f : A → S → Res S) (P : A → Prop)
    `{!∀ a, Decision (P a)} l :
  (∀ a s, ¬ P a → f a s = Ok s) →
  ∀ s, for_each_res f (filter P l) s = for_each_res f l s.
Proof.
  intros Hskip. induction l as [|a l IH]; intros s; [done|].
  destruct (decide (P a)).
  - rewrite filter_cons_True by done. simpl. destruct (f a s); simpl; [apply IH|done].
  - rewrite filter_cons_False by done. simpl. rewrite Hskip by done. simpl. apply IH.
Qed.

(** Running the exception monad of the import one step. *)
Ltac res_simpl := cbv [mbind Res_bind or_raise]; simpl.

Lemma get_dirs_elem entries name sub :
  (name, Dir sub) ∈ entries → (name, sub) ∈ get_dirs entries.
Proof.
  intros Hin. unfold get_dirs. apply list_elem_of_omap.
  by exists (name, Dir sub).
Qed.

Lemma get_dirs_fmap_dir {A} (f : A → string) (g : A → list (string * Node)) l :
  get_dirs ((λ a, (f a, Dir (g a))) <$> l) = (λ a, (f a, g a)) <$> l.
Proof. induction l as [|a l IH]; [done|]. unfold get_dirs in *. csimpl. by rewrite IH. Qed.

Lemma get_dirs_clean clean entries :
  get_dirs (clean_dir clean <$> entries)
  = (λ e, (e.1, clean e.2)) <$> get_dirs entries.
Proof.
  induction entries as [|[name [c|sub]] entries IH]; [done|..];
    unfold get_dirs in *; csimpl; by rewrite IH.
Qed.

Lemma open_file_clean clean entries name :
  open_file (clean_dir clean <$> entries) name = open_file entries name.
Proof.
  unfold open_file. induction entries as [|[n [c|sub]] entries IH]; [done|..]; csimpl.
  - case_decide; [done|].
    destruct (list_find _ (clean_dir clean <$> entries)) as [[i [n1 nd1]]|],
      (list_find _ entries) as [[j [n2 nd2]]|]; simpl in *;
      try destruct nd1; try destruct nd2; congruence.
  - case_decide; [done|].
    destruct (list_find _ (clean_dir clean <$> entries)) as [[i [n1 nd1]]|],
      (list_find _ entries) as [[j [n2 nd2]]|]; simpl in *;
      try destruct nd1; try destruct nd2; congruence.
Qed.

Lemma open_file_dirs entries name :
  Forall (λ e, ∃ sub, e.2 = Dir sub) entries → open_file entries name = None.
Proof.
  intros Hall. unfold open_file.
  destruct (list_find _ entries) as [[i [n nd]]|] eqn:Hf; [|done].
  apply list_find_Some in Hf as (Hi & _). apply list_elem_of_lookup_2 in Hi.
  rewrite Forall_forall in Hall. destruct (Hall _ Hi) as [sub Hsub].
  simpl in Hsub. by subst.
Qed.

(** The pass and the view over an imported table, as [disk_to_mbtiles] runs
    them. *)
Lemma compress_view chunk ts :
  0 < chunk → NoDup (coords <$> ts) →
  ∃ cdb, compress chunk (imported ts) = Some cdb ∧ read_tiles_view cdb = ts.
Proof.
  intros Hc Hnd.
  destruct (compression_do_spec chunk Hc ts) as (imgs & mss & Hrun & Hids & Hall & _).
  pose proof (compression_do_resolves chunk Hc ts imgs mss Hall) as Hres.
  assert (Hidnd : NoDup (img_tile_id <$> imgs)) by (rewrite Hids; apply NoDup_seqZ).
  assert (Hview : join_view (concat mss) imgs = ts).
  { rewrite (resolves_join _ _ _ Hidnd Hres). apply number_from_row. }
  assert (Hcoords : map_coords <$> concat mss = coords <$> ts).
  { transitivity (coords <$> (row <$> table_of ts));
      [|unfold table_of; by rewrite number_from_row].
    symmetry. apply list_eq_Forall2, Forall2_fmap, Forall2_fmap_l.
    eapply Forall2_impl; [exact Hres|]. by intros r m (Heq & _). }
  exists (mkCompactDb imgs (concat mss)). split; [|done].
  unfold compress. rewrite Hrun. simpl. unfold compression_finalize. simpl.
  rewrite bool_decide_eq_true_2; [done|]. by rewrite Hcoords.
Qed.

(** *** File names *)

Lemma split_once_chars_sep c u v :
  c ∉ u → split_once_chars c (u ++ c :: v) = Some (u, v).
Proof.
  induction u as [|a u IH]; intros Hc; simpl.
  - by rewrite bool_decide_eq_true_2.
  - apply not_elem_of_cons in Hc as [Hne Hc].
    rewrite bool_decide_eq_false_2 by done. by rewrite IH.
Qed.

(** [(str(n) + "." + ext).split('.', 1)]. *)
Lemma split_once_py_str n ext :
  split_once "." (py_str n +:+ "." +:+ ext) = Some (py_str n, ext).
Proof.
  unfold split_once. rewrite !chars_app. change (chars ".") with ["."%char].
  simpl. rewrite split_once_chars_sep.
  - simpl. by rewrite !to_string_chars.
  - apply py_str_no_char. by apply (bool_decide_unpack _).
Qed.

Lemma py_str_not_ds_store n ext : py_str n +:+ "." +:+ ext ≠ ".DS_Store".
Proof.
  intros H. apply (f_equal chars) in H. rewrite chars_app in H.
  destruct (py_str_chars n) as [Hall Hne].
  destruct (chars (py_str n)) as [|c l]; [done|].
  apply Forall_cons in Hall as [Hc _]. injection H as -> _.
  revert Hc. by apply (bool_decide_unpack _).
Qed.

Lemma name_of_empty scheme z vars : name_of scheme z "" vars = Err ValueError.
Proof. unfold name_of. by repeat case_bool_decide. Qed.

Section ImportProps.

Context (load_metadata : Blob → option (list (string * string))).
Context (read_utfgrid : Blob → option (Blob * list (string * string))).

(** *** No ['format'] entry *)

Lemma import_file_metadata silent scheme image_format z entry st st' :
  import_file read_utfgrid silent scheme image_format z entry st = Ok st' →
  mb_metadata st'.2 = mb_metadata st.2
  ∧ (image_format = None → mb_db st'.2 = mb_db st.2).
Proof.
  destruct entry as [current_file node], st as [vars mb]. unfold import_file.
  destruct (_ && _); [by intros [= <-]|].
  destruct (split_once "." current_file) as [[file_name ext]|]; res_simpl; [|done].
  destruct node as [content|sub]; res_simpl; [|done].
  destruct (name_of scheme z file_name vars) as [vars'|]; res_simpl; [|done].
  case_bool_decide as Hfmt.
  - destruct (var_x vars'); res_simpl; [|done].
    destruct (var_y vars'); res_simpl; [|done].
    destruct (insert_tile _ _); res_simpl; [|done].
    intros [= <-]. simpl. split; [done|]. by intros ->.
  - case_bool_decide; [|by intros [= <-]].
    destruct (read_utfgrid content) as [[compressed keys]|]; res_simpl; [|done].
    destruct (var_x vars'); res_simpl; [|done].
    destruct (var_y vars'); res_simpl; [|done].
    by intros [= <-].
Qed.

Lemma import_tree_metadata silent scheme image_format dirs st st' :
  for_each_res (import_zoom_dir read_utfgrid silent scheme image_format) dirs st
  = Ok st' →
  mb_metadata st'.2 = mb_metadata st.2
  ∧ (image_format = None → mb_db st'.2 = mb_db st.2).
Proof.
  set (P := λ s : Locals * Mbtiles,
         mb_metadata s.2 = mb_metadata st.2
         ∧ (image_format = None → mb_db s.2 = mb_db st.2)).
  intros Hrun0.
  refine (for_each_res_invariant _ P _ _ st st' _ Hrun0); [|by split].
  intros [zoom_dir rows] s s' Hs. unfold import_zoom_dir.
  destruct (zoom_of scheme zoom_dir) as [z|]; res_simpl; [|done].
  intros Hrun1.
  refine (for_each_res_invariant _ P _ _ _ s' Hs Hrun1).
  intros [row_dir files] s1 s1' Hs1. unfold import_row_dir.
  destruct (row_of scheme z row_dir s1.1) as [vars|]; res_simpl; [|done].
  intros Hrun2.
  refine (for_each_res_invariant _ P _ _ (vars, s1.2) s1' Hs1 Hrun2).
  intros entry s2 s2' [Hm Hd] Hrun. apply import_file_metadata in Hrun as [Hm' Hd'].
  split; [congruence|]. intros Hf. rewrite Hd', Hd; done.
Qed.

Lemma insert_metadata_rows rows : ∀ mb mb',
  for_each_res insert_metadata rows mb = Ok mb' →
  mb_db mb' = mb_db mb ∧ mb_metadata mb' = mb_metadata mb ++ rows.
Proof.
  induction rows as [|r rows IH]; intros mb mb'.
  - intros [= <-]. by rewrite app_nil_r.
  - cbn [for_each_res].
    destruct (insert_metadata r mb) as [mb1|] eqn:Hins; cbv [mbind Res_bind]; [|done].
    unfold insert_metadata in Hins. case_bool_decide; [done|]. injection Hins as <-.
    intros Hrun. destruct (IH _ _ Hrun) as [-> ->]. simpl. by rewrite <- app_assoc.
Qed.

(** X18: an import with [metadata.json] and no ['format'] option stores no
    tile.  Once [metadata.json] is loaded, [image_format] is
    [kwargs.get('format')], which is [None] without the option, and no
    extension equals it.  Such an import, if it ends normally, has an empty
    [tiles] table (an empty view, with [compression]) whatever the directory
    holds, and a [metadata] table with the entries of the file. *)
Theorem disk_to_mbtiles_format_unset (root : list (string * Node)) (kw : Kwargs)
    (content : Blob) (out : Imported) :
  kw_format kw = None →
  open_file root "metadata.json" = Some content →
  disk_to_mbtiles load_metadata read_utfgrid root kw = Ok out →
  stored_tiles (out_tiles out) = []
  ∧ load_metadata content = Some (out_metadata out).
Proof.
  intros Hfmt Hopen. unfold disk_to_mbtiles. rewrite Hopen, Hfmt.
  destruct (load_metadata content) as [rows|]; res_simpl; [|done].
  destruct (for_each_res insert_metadata rows _) as [mb1|] eqn:Hmeta; res_simpl; [|done].
  apply insert_metadata_rows in Hmeta as [Hdb1 Hrows1]. simpl in Hdb1, Hrows1.
  destruct (for_each_res _ (get_dirs root) _) as [[vars mb2]|] eqn:Hwalk;
    res_simpl; [|done].
  apply import_tree_metadata in Hwalk as [Hrows2 Hdb2]. simpl in Hrows2, Hdb2.
  rewrite Hdb2, Hdb1, Hrows2, Hrows1 by done.
  destruct (kw_compression kw); res_simpl; by intros [= <-].
Qed.

(** *** [.DS_Store] *)

Lemma import_file_ds_store scheme image_format z node :
  (∀ st, import_file read_utfgrid false scheme image_format z (".DS_Store", node) st
         = Ok st)
  ∧ (∀ st, ∃ e, import_file read_utfgrid true scheme image_format z
                  (".DS_Store", node) st = Err e).
Proof.
  split; intros [vars mb]; unfold import_file.
  - by rewrite bool_decide_eq_true_2.
  - rewrite andb_false_r.
    change (split_once "." ".DS_Store") with (Some ("", "DS_Store")). res_simpl.
    destruct node; res_simpl; [|by eexists].
    rewrite name_of_empty. by eexists.
Qed.

Lemma import_row_dir_clean scheme image_format z row_dir files st :
  import_row_dir read_utfgrid false scheme image_format z (row_dir, clean_files files) st
  = import_row_dir read_utfgrid false scheme image_format z (row_dir, files) st.
Proof.
  unfold import_row_dir.
  destruct (row_of scheme z row_dir st.1) as [vars|]; res_simpl; [|done].
  apply for_each_res_filter. intros [name node] s Hname.
  assert (name = ".DS_Store") as -> by (by apply dec_stable).
  apply import_file_ds_store.
Qed.

Lemma import_zoom_dir_clean scheme image_format zoom_dir rows st :
  import_zoom_dir read_utfgrid false scheme image_format (zoom_dir, clean_rows rows) st
  = import_zoom_dir read_utfgrid false scheme image_format (zoom_dir, rows) st.
Proof.
  unfold import_zoom_dir.
  destruct (zoom_of scheme zoom_dir) as [z|]; res_simpl; [|done].
  unfold clean_rows. rewrite get_dirs_clean, for_each_res_fmap.
  apply for_each_res_ext. intros [row_dir files] s. apply import_row_dir_clean.
Qed.

(** X19: [.DS_Store] in a row directory.  Without [silent] the entry is
    skipped: the import gives what it gives on the directory with these
    entries taken out.  With [silent] it is not skipped, and its name has
    no row number before the dot: the import ends in an exception. *)
Theorem disk_to_mbtiles_ds_store (root : list (string * Node))
    (format scheme : option string) (compression : bool) :
  disk_to_mbtiles load_metadata read_utfgrid root
    (mkKwargs false format scheme compression)
  = disk_to_mbtiles load_metadata read_utfgrid (clean_tree root)
      (mkKwargs false format scheme compression)
  ∧ ∀ zoom_dir rows row_dir files node,
      (zoom_dir, Dir rows) ∈ root → (row_dir, Dir files) ∈ rows →
      (".DS_Store", node) ∈ files →
      ∃ e, disk_to_mbtiles load_metadata read_utfgrid root
             (mkKwargs true format scheme compression) = Err e.
Proof.
  split.
  - unfold disk_to_mbtiles, clean_tree. simpl.
    rewrite open_file_clean, get_dirs_clean.
    destruct (match open_file root "metadata.json" with
              | Some content => _ | None => _ end) as [[image_format mb]|];
      res_simpl; [|done].
    rewrite for_each_res_fmap.
    assert (Hext : ∀ s,
      for_each_res
        (λ e, import_zoom_dir read_utfgrid false scheme image_format
                (e.1, clean_rows e.2)) (get_dirs root) s
      = for_each_res (import_zoom_dir read_utfgrid false scheme image_format)
          (get_dirs root) s).
    { intros s. apply for_each_res_ext. intros [zoom_dir rows] s0.
      apply import_zoom_dir_clean. }
    by rewrite Hext.
  - intros zoom_dir rows row_dir files node Hz Hr Hf.
    unfold disk_to_mbtiles. simpl.
    destruct (match open_file root "metadata.json" with
              | Some content => _ | None => _ end) as [[image_format mb]|];
      res_simpl; [|by eexists].
    edestruct (for_each_res_fails
                 (import_zoom_dir read_utfgrid true scheme image_format)
                 (get_dirs root) (zoom_dir, rows)) as [e ->];
      [by apply get_dirs_elem| |by eexists].
    intros s. unfold import_zoom_dir.
    destruct (zoom_of scheme zoom_dir) as [z|]; res_simpl; [|by eexists].
    apply (for_each_res_fails _ _ (row_dir, files)); [by apply get_dirs_elem|].
    intros s1. unfold import_row_dir.
    destruct (row_of scheme z row_dir s1.1) as [vars|]; res_simpl; [|by eexists].
    apply (for_each_res_fails _ _ (".DS_Store", node)); [done|].
    apply import_file_ds_store.
Qed.

(** *** A directory laid out as [z/x/y.format] *)

Lemma name_of_plain scheme z y vars :
  plain_scheme scheme →
  name_of scheme z (py_str (named_row scheme z y)) vars
  = Ok (mkLocals (var_x vars) (Some y)).
Proof.
  intros (Hags & Hgwc & Hzyx). unfold name_of, named_row.
  case_bool_decide.
  - rewrite py_int_str. res_simpl. do 3 f_equal. unfold flip_y. lia.
  - rewrite !bool_decide_eq_false_2 by done. rewrite py_int_str. done.
Qed.

Lemma import_file_plain md silent scheme fmt z x y d pre vars :
  plain_scheme scheme → var_x vars = Some x →
  coords (mkTile z x y d) ∉ coords <$> pre →
  import_file read_utfgrid silent scheme (Some fmt) z
    (py_str (named_row scheme z y) +:+ "." +:+ fmt, File d) (vars, with_tiles md pre)
  = Ok (mkLocals (Some x) (Some y), with_tiles md (pre ++ [mkTile z x y d])).
Proof.
  intros Hs Hx Hnew. unfold import_file.
  rewrite (bool_decide_eq_false_2 (_ = ".DS_Store")) by apply py_str_not_ds_store.
  simpl. rewrite split_once_py_str. res_simpl.
  rewrite (name_of_plain scheme z y vars Hs). res_simpl.
  rewrite bool_decide_eq_true_2 by done. rewrite Hx. res_simpl.
  rewrite (insert_tile_imported (mkTile z x y d) pre) by done.
  done.
Qed.

Lemma import_files_layout md silent scheme fmt z x ys : ∀ pre vars,
  plain_scheme scheme → var_x vars = Some x →
  NoDup (coords <$> pre ++ files_tiles z x ys) →
  ∃ vars',
    for_each_res (import_file read_utfgrid silent scheme (Some fmt) z)
                 (layout_files scheme fmt z ys) (vars, with_tiles md pre)
    = Ok (vars', with_tiles md (pre ++ files_tiles z x ys))
    ∧ var_x vars' = Some x.
Proof.
  induction ys as [|[y d] ys IH]; intros pre vars Hs Hx Hnd.
  - exists vars. simpl. by rewrite app_nil_r.
  - change (layout_files scheme fmt z ((y, d) :: ys))
      with ((py_str (named_row scheme z y) +:+ "." +:+ fmt, File d)
            :: layout_files scheme fmt z ys).
    change (files_tiles z x ((y, d) :: ys))
      with (mkTile z x y d :: files_tiles z x ys) in *.
    cbn [for_each_res].
    rewrite (import_file_plain md silent scheme fmt z x y d pre vars Hs Hx).
    2:{ rewrite fmap_app in Hnd. apply NoDup_app in Hnd as (_ & Hdis & _).
        intros Hin. apply (Hdis _ Hin). simpl. left. }
    cbv [mbind Res_bind].
    destruct (IH (pre ++ [mkTile z x y d]) (mkLocals (Some x) (Some y)) Hs eq_refl)
      as (vars' & Hrun & Hx').
    { by rewrite <- app_assoc. }
    exists vars'. split; [|done]. rewrite Hrun. by rewrite <- app_assoc.
Qed.

Lemma import_rows_layout md silent scheme fmt z xs : ∀ pre vars,
  plain_scheme scheme →
  NoDup (coords <$> pre ++ rows_tiles z xs) →
  ∃ vars',
    for_each_res (import_row_dir read_utfgrid silent scheme (Some fmt) z)
                 (get_dirs (layout_rows scheme fmt z xs)) (vars, with_tiles md pre)
    = Ok (vars', with_tiles md (pre ++ rows_tiles z xs)).
Proof.
  unfold layout_rows.
  rewrite (get_dirs_fmap_dir (λ xy, py_str xy.1)
             (λ xy, layout_files scheme fmt z xy.2)).
  induction xs as [|[x ys] xs IH]; intros pre vars Hs Hnd.
  - exists vars. simpl. by rewrite app_nil_r.
  - rewrite fmap_cons. cbn [for_each_res fst snd].
    change (rows_tiles z ((x, ys) :: xs))
      with (files_tiles z x ys ++ rows_tiles z xs) in *.
    rewrite app_assoc in Hnd.
    assert (Hrow : row_of scheme z (py_str x) vars = Ok (mkLocals (Some x) (var_y vars))).
    { destruct Hs as (Hags & Hgwc & Hzyx). unfold row_of.
      rewrite !bool_decide_eq_false_2 by done. by rewrite py_int_str. }
    destruct (import_files_layout md silent scheme fmt z x ys pre
                (mkLocals (Some x) (var_y vars)) Hs eq_refl) as (vars1 & Hfiles & _).
    { rewrite fmap_app in Hnd. by apply NoDup_app in Hnd as (? & _). }
    assert (Hstep :
      import_row_dir read_utfgrid silent scheme (Some fmt) z
        (py_str x, layout_files scheme fmt z ys) (vars, with_tiles md pre)
      = Ok (vars1, with_tiles md (pre ++ files_tiles z x ys))).
    { unfold import_row_dir. cbn [fst snd]. rewrite Hrow. cbv [mbind Res_bind].
      exact Hfiles. }
    rewrite Hstep. cbv [mbind Res_bind].
    destruct (IH (pre ++ files_tiles z x ys) vars1 Hs Hnd) as (vars' & ->).
    exists vars'. by rewrite <- app_assoc.
Qed.

Lemma import_tree_layout md silent scheme fmt l : ∀ pre vars,
  plain_scheme scheme →
  NoDup (coords <$> pre ++ layout_tiles l) →
  ∃ vars',
    for_each_res (import_zoom_dir read_utfgrid silent scheme (Some fmt))
                 (get_dirs (layout_tree scheme fmt l)) (vars, with_tiles md pre)
    = Ok (vars', with_tiles md (pre ++ layout_tiles l)).
Proof.
  unfold layout_tree.
  rewrite (get_dirs_fmap_dir (λ zx, py_str zx.1)
             (λ zx, layout_rows scheme fmt zx.1 zx.2)).
  induction l as [|[z xs] l IH]; intros pre vars Hs Hnd.
  - exists vars. simpl. by rewrite app_nil_r.
  - rewrite fmap_cons. cbn [for_each_res fst snd].
    change (layout_tiles ((z, xs) :: l))
      with (rows_tiles z xs ++ layout_tiles l) in *.
    rewrite app_assoc in Hnd.
    assert (Hzoom : zoom_of scheme (py_str z) = Ok z).
    { destruct Hs as (Hags & Hgwc & Hzyx). unfold zoom_of.
      rewrite !bool_decide_eq_false_2 by done. by rewrite py_int_str. }
    destruct (import_rows_layout md silent scheme fmt z xs pre vars Hs)
      as (vars1 & Hrows).
    { rewrite fmap_app in Hnd. by apply NoDup_app in Hnd as (? & _). }
    assert (Hstep :
      import_zoom_dir read_utfgrid silent scheme (Some fmt)
        (py_str z, layout_rows scheme fmt z xs) (vars, with_tiles md pre)
      = Ok (vars1, with_tiles md (pre ++ rows_tiles z xs))).
    { unfold import_zoom_dir. rewrite Hzoom. cbv [mbind Res_bind]. exact Hrows. }
    rewrite Hstep. cbv [mbind Res_bind].
    destruct (IH (pre ++ rows_tiles z xs) vars1 Hs Hnd) as (vars' & ->).
    exists vars'. by rewrite <- app_assoc.
Qed.

(** X20: importing a directory laid out as [z/x/y.format].  For a scheme
    other than ['ags'], ['gwc'] and ['zyx'], a ['format'] option equal to
    the extension, no [metadata.json], and no two files for the same tile,
    and stored coordinates that are 64-bit integers, the import ends
    normally and the file it writes holds exactly the tiles of the
    directory, each with its blob, with or without [compression]: its rows
    are the tiles of the listing up to order, in whatever order they are
    read, and without [compression] the table holds them in the order of
    the listing.  With ['xyz'] the rows are those counted from the other
    end.  The other tables stay empty. *)
Theorem disk_to_mbtiles_layout (l : Layout) (fmt : string) (kw : Kwargs) :
  plain_scheme (kw_scheme kw) →
  kw_format kw = Some fmt →
  NoDup (coords <$> layout_tiles l) →
  Forall (λ zx, 0 ≤ zx.1) l →
  Forall sql_coords (layout_tiles l) →
  ∃ out,
    disk_to_mbtiles load_metadata read_utfgrid
      (layout_tree (kw_scheme kw) fmt l) kw = Ok out
    ∧ (∀ rows, rows ≡ₚ stored_tiles (out_tiles out) →
         rows ≡ₚ layout_tiles l
         ∧ ∀ c, blobs_at c rows = blobs_at c (layout_tiles l))
    ∧ (kw_compression kw = false →
         out_tiles out = Plain (imported (layout_tiles l)))
    ∧ out_metadata out = [] ∧ out_grids out = [] ∧ out_grid_data out = [].
Proof.
  intros Hs Hfmt Hnd _ _. unfold disk_to_mbtiles.
  rewrite open_file_dirs.
  2:{ unfold layout_tree. apply Forall_fmap, Forall_forall. intros zx _. by eexists. }
  rewrite Hfmt. res_simpl.
  destruct (import_tree_layout [] (kw_silent kw) (kw_scheme kw) fmt l []
              (mkLocals None None) Hs Hnd) as (vars' & Hrun).
  change (with_tiles [] []) with (mkMbtiles mbtiles_setup [] [] []) in Hrun.
  rewrite Hrun. res_simpl.
  destruct (kw_compression kw); res_simpl.
  - destruct (compress_view 256 (layout_tiles l)) as (cdb & -> & Hview); [lia|done|].
    res_simpl. eexists. split; [done|]. simpl. rewrite Hview.
    split_and!; try done. intros rows Hrows. split; [done|].
    intros c. by apply blobs_at_perm.
  - eexists. split; [done|]. simpl. split_and!; try done.
    intros rows Hrows. unfold read_tiles in Hrows. simpl in Hrows.
    unfold table_of in Hrows. rewrite number_from_row in Hrows. split; [done|].
    intros c. by apply blobs_at_perm.
Qed.

End ImportProps.

Lemma disk_to_mbtiles_format_unset_witness :
  let lm : Blob → option (list (string * string)) := λ _, Some [("name", "demo")] in
  let ru : Blob → option (Blob * list (string * string)) := λ _, None in
  let kw := mkKwargs false None None false in
  let out := mkImported (Plain mbtiles_setup) [("name", "demo")] [] [] in
  kw_format kw = None
  ∧ open_file sample_tree "metadata.json" = Some [x7b; x7d]
  ∧ disk_to_mbtiles lm ru sample_tree kw = Ok out
  ∧ stored_tiles (out_tiles out) = []
  ∧ lm [x7b; x7d] = Some (out_metadata out).
Proof.
  intros lm ru kw out.
  assert (H1 : kw_format kw = None) by reflexivity.
  assert (H2 : open_file sample_tree "metadata.json" = Some [x7b; x7d]) by reflexivity.
  assert (H3 : disk_to_mbtiles lm ru sample_tree kw = Ok out) by reflexivity.
  split; [exact H1|]. split; [exact H2|]. split; [exact H3|].
  exact (disk_to_mbtiles_format_unset lm ru sample_tree kw [x7b; x7d] out H1 H2 H3).
Defined.

Lemma disk_to_mbtiles_ds_store_witness :
  let lm : Blob → option (list (string * string)) := λ _, None in
  let ru : Blob → option (Blob * list (string * string)) := λ _, None in
  (".DS_Store", File [x00]) ∈ [(".DS_Store", File [x00]); ("0.png", File [x01])]
  ∧ ∃ e, disk_to_mbtiles lm ru finder_tree (mkKwargs true None None false) = Err e.
Proof.
  intros lm ru.
  assert (H1 : ("1", Dir [("0", Dir [(".DS_Store", File [x00]); ("0.png", File [x01])])])
               ∈ finder_tree) by left.
  assert (H2 : ("0", Dir [(".DS_Store", File [x00]); ("0.png", File [x01])])
               ∈ [("0", Dir [(".DS_Store", File [x00]); ("0.png", File [x01])])]) by left.
  assert (H3 : (".DS_Store", File [x00])
               ∈ [(".DS_Store", File [x00]); ("0.png", File [x01])]) by left.
  split; [exact H3|].
  exact (proj2 (disk_to_mbtiles_ds_store lm ru finder_tree None None false)
           _ _ _ _ _ H1 H2 H3).
Defined.

Lemma disk_to_mbtiles_layout_witness :
  let lm : Blob → option (list (string * string)) := λ _, None in
  let ru : Blob → option (Blob * list (string * string)) := λ _, None in
  let l : Layout := [(1, [(0, [(0, [x01]); (1, [x02])]); (1, [(0, [x03])])])] in
  let kw := mkKwargs true (Some "png") (Some "xyz") true in
  plain_scheme (kw_scheme kw)
  ∧ kw_format kw = Some "png"
  ∧ NoDup (coords <$> layout_tiles l)
  ∧ Forall (λ zx, 0 ≤ zx.1) l
  ∧ Forall sql_coords (layout_tiles l)
  ∧ ∃ out,
      disk_to_mbtiles lm ru (layout_tree (kw_scheme kw) "png" l) kw = Ok out
      ∧ (∀ rows, rows ≡ₚ stored_tiles (out_tiles out) →
           rows ≡ₚ layout_tiles l
           ∧ ∀ c, blobs_at c rows = blobs_at c (layout_tiles l))
      ∧ (kw_compression kw = false →
           out_tiles out = Plain (imported (layout_tiles l)))
      ∧ out_metadata out = [] ∧ out_grids out = [] ∧ out_grid_data out = [].
Proof.
  intros lm ru l kw.
  assert (H1 : plain_scheme (kw_scheme kw)) by (by split_and!).
  assert (H2 : kw_format kw = Some "png") by reflexivity.
  assert (H3 : NoDup (coords <$> layout_tiles l)).
  { apply (bool_decide_unpack (NoDup (coords <$> layout_tiles l))).
    vm_compute. exact I. }
  assert (H4 : Forall (λ zx, 0 ≤ zx.1) l) by (repeat constructor; simpl; lia).
  assert (H5 : Forall sql_coords (layout_tiles l)) by (repeat constructor; by vm_compute).
  split; [exact H1|]. split; [exact H2|]. split; [exact H3|]. split; [exact H4|].
  split; [exact H5|].
  exact (disk_to_mbtiles_layout lm ru l "png" kw H1 H2 H3 H4 H5).
Defined.

(** ** [mbtiles_to_disk] *)

Lemma dir_entry_app name pre dir :
  name ∉ pre.*1 → dir_entry name (pre ++ dir) = dir_entry name dir.
Proof.
  induction pre as [|e pre IH]; intros Hn; [done|]. csimpl in *.
  apply not_elem_of_cons in Hn as [Hne Hn].
  rewrite bool_decide_eq_false_2 by done. by apply IH.
Qed.

Lemma set_entry_app name node pre dir :
  name ∉ pre.*1 → set_entry name node (pre ++ dir) = pre ++ set_entry name node dir.
Proof.
  induction pre as [|e pre IH]; intros Hn; [done|]. csimpl in *.
  apply not_elem_of_cons in Hn as [Hne Hn].
  rewrite bool_decide_eq_false_2 by done. by rewrite IH.
Qed.

Lemma lookup_set_key {V} k (v : V) l : lookup_key k (set_key k v l) = Some v.
Proof.
  induction l as [|a l IH]; simpl.
  - by rewrite bool_decide_eq_true_2.
  - case_bool_decide as Ha; simpl.
    + by rewrite bool_decide_eq_true_2.
    + by rewrite bool_decide_eq_false_2.
Qed.

Lemma set_key_set_key {V} k (v v0 : V) l :
  set_key k v (set_key k v0 l) = set_key k v l.
Proof.
  induction l as [|a l IH]; simpl.
  - by rewrite bool_decide_eq_true_2.
  - case_bool_decide as Ha; simpl.
    + by rewrite bool_decide_eq_true_2.
    + rewrite bool_decide_eq_false_2 by done. by rewrite IH.
Qed.

Lemma set_key_new {V} k (v : V) l :
  lookup_key k l = None → set_key k v l = l ++ [(k, v)].
Proof.
  induction l as [|a l IH]; simpl; [done|].
  case_bool_decide; [done|]. intros Hl. by rewrite IH.
Qed.

Lemma set_key_split {V} k (v0 : V) l :
  lookup_key k l = Some v0 →
  ∃ l1 l2, l = l1 ++ (k, v0) :: l2 ∧ ∀ v, set_key k v l = l1 ++ (k, v) :: l2.
Proof.
  induction l as [|[k' v'] l IH]; simpl; [done|].
  case_bool_decide as Ha; simpl in Ha.
  - intros [= ->]. subst k'. by exists [], l.
  - intros Hl. destruct (IH Hl) as (l1 & l2 & -> & Hset).
    exists ((k', v') :: l1), l2. split; [done|]. intros v.
    rewrite Hset. done.
Qed.

Lemma lookup_key_elem {V} k (v : V) l : lookup_key k l = Some v → (k, v) ∈ l.
Proof.
  intros Hl. destruct (set_key_split _ _ _ Hl) as (l1 & l2 & -> & _).
  apply elem_of_app. right. left.
Qed.

Lemma makedirs_cons name names dir :
  makedirs (name :: names) dir
  = match dir_entry name dir with
    | Some (File _) => None
    | Some (Dir sub) =>
        sub' ← makedirs names sub; Some (set_entry name (Dir sub') dir)
    | None =>
        sub' ← makedirs names []; Some (set_entry name (Dir sub') dir)
    end.
Proof. done. Qed.

Lemma open_write_cons d names name content dir :
  open_write (d :: names) name content dir
  = match dir_entry d dir with
    | Some (Dir sub) =>
        sub' ← open_write names name content sub;
        Some (set_entry d (Dir sub') dir)
    | _ => None
    end.
Proof. done. Qed.

Section Named.

Context {V : Type} (nm : Z → string) (node : Z → V → Node).
Hypothesis nm_inj : ∀ a b, nm a = nm b → a = b.

Lemma dir_entry_named k l :
  dir_entry (nm k) ((λ a, (nm a.1, node a.1 a.2)) <$> l) = node k <$> lookup_key k l.
Proof.
  induction l as [|a l IH]; [done|]. csimpl.
  destruct (decide (a.1 = k)) as [<-|Hne].
  - by rewrite !bool_decide_eq_true_2.
  - rewrite !bool_decide_eq_false_2; [done|done|]. intros H. by apply nm_inj in H.
Qed.

Lemma set_entry_named k v l :
  set_entry (nm k) (node k v) ((λ a, (nm a.1, node a.1 a.2)) <$> l)
  = (λ a, (nm a.1, node a.1 a.2)) <$> set_key k v l.
Proof.
  induction l as [|a l IH]; [done|]. csimpl.
  destruct (decide (a.1 = k)) as [<-|Hne].
  - by rewrite !bool_decide_eq_true_2.
  - rewrite !bool_decide_eq_false_2; [|done|].
    + csimpl. by rewrite IH.
    + intros H. by apply nm_inj in H.
Qed.

End Named.

Lemma named_row_inj scheme z a b : named_row scheme z a = named_row scheme z b → a = b.
Proof. unfold named_row, flip_y. case_bool_decide; lia. Qed.

Lemma file_name_inj scheme fmt z a b :
  py_str (named_row scheme z a) +:+ "." +:+ fmt
  = py_str (named_row scheme z b) +:+ "." +:+ fmt → a = b.
Proof.
  intros H. apply (f_equal (split_once ".")) in H.
  rewrite !split_once_py_str in H. injection H as H.
  by apply py_str_inj, named_row_inj in H.
Qed.

Lemma file_name_ok_tile n fmt :
  file_name_ok fmt = true → file_name_ok (py_str n +:+ "." +:+ fmt) = true.
Proof.
  unfold file_name_ok. intros H. apply bool_decide_eq_true in H as [H1 H2].
  apply bool_decide_eq_true. rewrite !chars_app. change (chars ".") with ["."%char].
  split; intros Hin; apply elem_of_app in Hin as [Hin|Hin].
  - revert Hin. apply py_str_no_char. by apply (bool_decide_unpack _).
  - apply elem_of_cons in Hin as [Hin|Hin]; [done|by apply H1].
  - revert Hin. apply py_str_no_char. by apply (bool_decide_unpack _).
  - apply elem_of_cons in Hin as [Hin|Hin]; [done|by apply H2].
Qed.

(** The layout as a named listing, level by level. *)
Lemma layout_files_write scheme fmt z y d ys :
  file_name_ok fmt = true →
  open_write [] (py_str (named_row scheme z y) +:+ "." +:+ fmt) d
    (layout_files scheme fmt z ys)
  = Some (layout_files scheme fmt z (set_key y d ys)).
Proof.
  intros Hok. cbn [open_write]. rewrite file_name_ok_tile by done.
  unfold layout_files.
  rewrite (dir_entry_named (λ y, py_str (named_row scheme z y) +:+ "." +:+ fmt)
             (λ _ d, File d)) by apply file_name_inj.
  rewrite <- (set_entry_named (λ y, py_str (named_row scheme z y) +:+ "." +:+ fmt)
                (λ _ d, File d)) by apply file_name_inj.
  by destruct (lookup_key y ys).
Qed.

Lemma layout_rows_entry scheme fmt z x xs :
  dir_entry (py_str x) (layout_rows scheme fmt z xs)
  = (λ ys, Dir (layout_files scheme fmt z ys)) <$> lookup_key x xs.
Proof.
  unfold layout_rows.
  by rewrite (dir_entry_named py_str (λ _ ys, Dir (layout_files scheme fmt z ys)))
    by apply py_str_inj.
Qed.

Lemma layout_rows_set scheme fmt z x ys xs :
  set_entry (py_str x) (Dir (layout_files scheme fmt z ys)) (layout_rows scheme fmt z xs)
  = layout_rows scheme fmt z (set_key x ys xs).
Proof.
  unfold layout_rows.
  by rewrite <- (set_entry_named py_str (λ _ ys, Dir (layout_files scheme fmt z ys)))
    by apply py_str_inj.
Qed.

Lemma layout_tree_entry scheme fmt z l :
  dir_entry (py_str z) (layout_tree scheme fmt l)
  = (λ xs, Dir (layout_rows scheme fmt z xs)) <$> lookup_key z l.
Proof.
  unfold layout_tree.
  by rewrite (dir_entry_named py_str (λ z xs, Dir (layout_rows scheme fmt z xs)))
    by apply py_str_inj.
Qed.

Lemma layout_tree_set scheme fmt z xs l :
  set_entry (py_str z) (Dir (layout_rows scheme fmt z xs)) (layout_tree scheme fmt l)
  = layout_tree scheme fmt (set_key z xs l).
Proof.
  unfold layout_tree.
  by rewrite <- (set_entry_named py_str (λ z xs, Dir (layout_rows scheme fmt z xs)))
    by apply py_str_inj.
Qed.

Lemma layout_rows_makedirs scheme fmt z x xs :
  makedirs [py_str x] (layout_rows scheme fmt z xs)
  = Some (layout_rows scheme fmt z (set_key x (default [] (lookup_key x xs)) xs)).
Proof.
  rewrite makedirs_cons, layout_rows_entry.
  destruct (lookup_key x xs) as [ys|]; simpl.
  - by rewrite layout_rows_set.
  - by rewrite <- layout_rows_set.
Qed.

Lemma layout_rows_write scheme fmt z x y d ys xs :
  file_name_ok fmt = true →
  lookup_key x xs = Some ys →
  open_write [py_str x] (py_str (named_row scheme z y) +:+ "." +:+ fmt) d
    (layout_rows scheme fmt z xs)
  = Some (layout_rows scheme fmt z (set_key x (set_key y d ys) xs)).
Proof.
  intros Hok Hx. rewrite open_write_cons, layout_rows_entry, Hx.
  cbn [fmap option_fmap option_map].
  rewrite (layout_files_write scheme fmt z y d ys Hok). simpl.
  by rewrite layout_rows_set.
Qed.

Lemma export_tile_layout scheme format t pre l :
  scheme ≠ Some "wms" →
  file_name_ok (default "png" format) = true →
  no_zoom_names pre →
  export_tile scheme format t (pre ++ layout_tree scheme (default "png" format) l)
  = Some (pre ++ layout_tree scheme (default "png" format) (layout_insert t l)).
Proof.
  intros Hwms Hok Hpre. destruct t as [z x y d]. set (fmt := default "png" format) in *.
  unfold export_tile, layout_insert. cbn [zoom_level tile_column tile_row tile_data].
  assert (Hdir : tile_dir scheme (mkTile z x y d) = [py_str z; py_str x]).
  { unfold tile_dir. rewrite (bool_decide_eq_false_2 (scheme = Some "wms")) by done.
    by case_bool_decide. }
  assert (Hfile : tile_file scheme format (mkTile z x y d)
                  = py_str (named_row scheme z y) +:+ "." +:+ fmt).
  { unfold tile_file. by rewrite (bool_decide_eq_false_2 (scheme = Some "wms")) by done. }
  rewrite Hdir, Hfile.
  set (xs := default [] (lookup_key z l)).
  set (ys := default [] (lookup_key x xs)).
  assert (Hmk : makedirs [py_str z; py_str x] (pre ++ layout_tree scheme fmt l)
                = Some (pre ++ layout_tree scheme fmt (set_key z (set_key x ys xs) l))).
  { rewrite makedirs_cons, dir_entry_app, layout_tree_entry by apply Hpre.
    destruct (lookup_key z l) as [xs0|] eqn:Hz; cbn [fmap option_fmap option_map].
    - rewrite layout_rows_makedirs. simpl.
      by rewrite set_entry_app, layout_tree_set by apply Hpre.
    - change (@nil (string * Node)) with (layout_rows scheme fmt z []) at 1.
      rewrite layout_rows_makedirs. cbn [mbind option_bind].
      by rewrite set_entry_app, layout_tree_set by apply Hpre. }
  rewrite Hmk. cbn [mbind option_bind].
  rewrite open_write_cons, dir_entry_app, layout_tree_entry, lookup_set_key by apply Hpre.
  cbn [fmap option_fmap option_map].
  rewrite (layout_rows_write scheme fmt z x y d ys) by (done || apply lookup_set_key).
  cbn [mbind option_bind]. rewrite set_entry_app, layout_tree_set by apply Hpre.
  by rewrite !set_key_set_key.
Qed.

Lemma export_tiles_layout scheme format pre ts : ∀ l,
  scheme ≠ Some "wms" →
  file_name_ok (default "png" format) = true →
  no_zoom_names pre →
  for_each (export_tile scheme format) ts
    (pre ++ layout_tree scheme (default "png" format) l)
  = Some (pre ++ layout_tree scheme (default "png" format)
                   (foldl (λ l t, layout_insert t l) l ts)).
Proof.
  induction ts as [|t ts IH]; intros l Hwms Hok Hpre; [done|].
  cbn [for_each foldl]. rewrite export_tile_layout by done. simpl. by apply IH.
Qed.

(** The tiles of the layout after one more file. *)
Lemma layout_insert_tiles t l :
  coords t ∉ coords <$> layout_tiles l →
  layout_tiles (layout_insert t l) ≡ₚ layout_tiles l ++ [t].
Proof.
  destruct t as [z x y d]. unfold layout_insert, coords at 1.
  cbn [zoom_level tile_column tile_row tile_data]. intros Hnew.
  assert (Hrows : ∀ xs0,
            (∀ ys0 d0, (x, ys0) ∈ xs0 → (y, d0) ∉ ys0) →
            rows_tiles z (set_key x (set_key y d (default [] (lookup_key x xs0))) xs0)
            ≡ₚ rows_tiles z xs0 ++ [mkTile z x y d]).
  { intros xs0 Hxs. destruct (lookup_key x xs0) as [ys0|] eqn:Hx; simpl.
    - assert (Hy : lookup_key y ys0 = None).
      { destruct (lookup_key y ys0) as [d0|] eqn:Hy; [|done].
        apply lookup_key_elem in Hx, Hy. by destruct (Hxs _ _ Hx Hy). }
      destruct (set_key_split _ _ _ Hx) as (xs1 & xs2 & -> & Hset).
      rewrite Hset, (set_key_new y d ys0 Hy). unfold rows_tiles.
      rewrite !bind_app, !bind_cons. cbn [fst snd]. unfold files_tiles at 2.
      rewrite fmap_app. simpl. rewrite <- !app_assoc.
      apply Permutation_app_head. fold (files_tiles z x ys0).
      apply Permutation_app_head. simpl. by rewrite Permutation_app_comm.
    - rewrite (set_key_new x _ xs0 Hx). unfold rows_tiles.
      rewrite bind_app. simpl. done. }
  destruct (lookup_key z l) as [xs0|] eqn:Hz; simpl.
  - pose proof (lookup_key_elem _ _ _ Hz) as Hin.
    destruct (set_key_split _ _ _ Hz) as (l1 & l2 & -> & Hset).
    rewrite Hset. unfold layout_tiles in *.
    rewrite !bind_app, !bind_cons. cbn [fst snd].
    rewrite Hrows.
    + rewrite <- !app_assoc. apply Permutation_app_head, Permutation_app_head.
      simpl. by rewrite Permutation_app_comm.
    + intros ys0 d0 Hx Hy. apply Hnew.
      apply (list_elem_of_fmap_2 coords _ (mkTile z x y d0)).
      apply list_elem_of_bind. exists (z, xs0). split; [|done].
      apply list_elem_of_bind. exists (x, ys0). split; [|done].
      apply (list_elem_of_fmap_2 (λ yd, mkTile z x yd.1 yd.2) _ (y, d0)). done.
  - rewrite (set_key_new z _ l Hz). unfold layout_tiles.
    rewrite bind_app. simpl. done.
Qed.

Lemma layout_fold_tiles ts : ∀ l acc,
  layout_tiles l ≡ₚ acc →
  NoDup (coords <$> acc ++ ts) →
  layout_tiles (foldl (λ l t, layout_insert t l) l ts) ≡ₚ acc ++ ts.
Proof.
  induction ts as [|t ts IH]; intros l acc Hl Hnd; simpl.
  - by rewrite app_nil_r.
  - rewrite (IH _ (acc ++ [t])).
    + by rewrite <- app_assoc.
    + rewrite layout_insert_tiles; [by rewrite Hl|].
      rewrite Hl. rewrite fmap_app in Hnd. apply NoDup_app in Hnd as (_ & Hdis & _).
      intros Hin. apply (Hdis _ Hin). simpl. left.
    + by rewrite <- app_assoc.
Qed.

Lemma insert_metadata_ok rows : ∀ db md grids grid_data,
  NoDup ((md ++ rows).*1) →
  for_each_res insert_metadata rows (mkMbtiles db md grids grid_data)
  = Ok (mkMbtiles db (md ++ rows) grids grid_data).
Proof.
  induction rows as [|r rows IH]; intros db md grids grid_data Hnd.
  - by rewrite app_nil_r.
  - assert (Hins : insert_metadata r (mkMbtiles db md grids grid_data)
                   = Ok (mkMbtiles db (md ++ [r]) grids grid_data)).
    { unfold insert_metadata. cbn [mb_metadata mb_db mb_grids mb_grid_data].
      rewrite bool_decide_eq_false_2; [done|].
      rewrite fmap_app in Hnd. apply NoDup_app in Hnd as (_ & Hdis & _).
      intros Hin. apply (Hdis _ Hin). simpl. left. }
    cbn [for_each_res]. rewrite Hins. cbv [mbind Res_bind].
    rewrite IH; [by rewrite <- app_assoc|]. by rewrite <- app_assoc.
Qed.

Section ExportProps.

Context (dump_metadata : list (string * string) → Blob).
Context (dump_formatter : string → Blob).
Context (dump_grid : Blob → list (string * string) → option string).
Context (encode : string → Blob).

Lemma root_files_names md : no_zoom_names (root_files dump_metadata dump_formatter md).
Proof.
  intros n Hin.
  assert (Hm : "m"%char ∉ chars (py_str n))
    by (apply py_str_no_char; by apply (bool_decide_unpack _)).
  assert (Hl : "l"%char ∉ chars (py_str n))
    by (apply py_str_no_char; by apply (bool_decide_unpack _)).
  unfold root_files in Hin. csimpl in Hin.
  apply elem_of_cons in Hin as [Heq|Hin].
  - apply Hm. rewrite Heq. by apply (bool_decide_unpack _).
  - destruct (dict_get "formatter" md) as [f|]; [|by apply elem_of_nil in Hin].
    case_bool_decide; [by apply elem_of_nil in Hin|].
    apply list_elem_of_singleton in Hin. apply Hl. rewrite Hin.
    by apply (bool_decide_unpack _).
Qed.

Lemma mbtiles_to_disk_tiles st grid_data scheme format callback :
  scheme ≠ Some "wms" →
  file_name_ok (default "png" format) = true →
  default [] (st_grids st) = [] →
  mbtiles_to_disk dump_metadata dump_formatter dump_grid encode
    st grid_data scheme format callback
  = Some (root_files dump_metadata dump_formatter (st_metadata st)
          ++ layout_tree scheme (default "png" format) (layout_of (st_tiles st))).
Proof.
  intros Hwms Hok Hgrids.
  assert (Htiles : ∀ pre, no_zoom_names pre →
            for_each (export_tile scheme format) (st_tiles st) pre
            = Some (pre ++ layout_tree scheme (default "png" format)
                             (layout_of (st_tiles st)))).
  { intros pre Hpre.
    pose proof (export_tiles_layout scheme format pre (st_tiles st) [] Hwms Hok Hpre) as H.
    change (layout_tree scheme (default "png" format) []) with (@nil (string * Node)) in H.
    by rewrite app_nil_r in H. }
  pose proof (root_files_names (st_metadata st)) as Hnames.
  unfold mbtiles_to_disk, root_files in *.
  change (open_write [] "metadata.json" (dump_metadata (st_metadata st)) [])
    with (Some [("metadata.json", File (dump_metadata (st_metadata st)))]).
  cbn [mbind option_bind].
  destruct (dict_get "formatter" (st_metadata st)) as [f|];
    [destruct (bool_decide (f = ""))|];
    simpl in Hnames |- *; rewrite (Htiles _ Hnames); cbn [mbind option_bind];
    (destruct (st_grids st) as [grids|]; [|done]); simpl in Hgrids; by subst grids.
Qed.

(** X21: the directory an export leaves.  For a scheme other than ['wms'], a
    format without a slash or a NUL, zoom levels from 0 on, a [tiles] table
    without two rows for the same tile, and no grids, [mbtiles_to_disk]
    ends normally.  The directory holds [metadata.json], then [layer.json]
    when the metadata has a non-empty [formatter], and below them one file
    [z/x/y.format] for each tile, with the tile's blob ([y] counted from the
    other end for ['xyz']): no tile is left out and none overwrites
    another. *)
Theorem mbtiles_to_disk_layout (st : Store) (grid_data : option (list GridDataRow))
    (scheme format callback : option string) :
  scheme ≠ Some "wms" →
  file_name_ok (default "png" format) = true →
  Forall (λ t, 0 ≤ zoom_level t) (st_tiles st) →
  NoDup (coords <$> st_tiles st) →
  default [] (st_grids st) = [] →
  ∃ l,
    mbtiles_to_disk dump_metadata dump_formatter dump_grid encode
      st grid_data scheme format callback
    = Some (root_files dump_metadata dump_formatter (st_metadata st)
            ++ layout_tree scheme (default "png" format) l)
    ∧ layout_tiles l ≡ₚ st_tiles st.
Proof.
  intros Hwms Hok _ Hnd Hgrids. exists (layout_of (st_tiles st)). split.
  - by apply mbtiles_to_disk_tiles.
  - apply (layout_fold_tiles (st_tiles st) [] []); done.
Qed.

Context (load_metadata : Blob → option (list (string * string))).
Context (read_utfgrid : Blob → option (Blob * list (string * string))).

(** X22: an export read back.  Under the conditions of the export above,
    with a scheme the import reads as [z/x/y] too, metadata names that are
    distinct and a [json.load] that gives back what [json.dump] wrote:
    [disk_to_mbtiles] on the directory [mbtiles_to_disk] has left, called
    with the same scheme and with the ['format'] option set to the format of
    the export, ends normally and stores the tiles of the exported table,
    in some order, and its metadata, with or without [compression]. *)
Theorem mbtiles_to_disk_round_trip (st : Store)
    (grid_data : option (list GridDataRow)) (callback : option string)
    (fmt : string) (kw : Kwargs) :
  load_metadata (dump_metadata (st_metadata st)) = Some (st_metadata st) →
  NoDup (st_metadata st).*1 →
  kw_format kw = Some fmt → file_name_ok fmt = true →
  plain_scheme (kw_scheme kw) → kw_scheme kw ≠ Some "wms" →
  Forall (λ t, 0 ≤ zoom_level t) (st_tiles st) →
  NoDup (coords <$> st_tiles st) →
  default [] (st_grids st) = [] →
  ∃ dir out,
    mbtiles_to_disk dump_metadata dump_formatter dump_grid encode
      st grid_data (kw_scheme kw) (kw_format kw) callback = Some dir
    ∧ disk_to_mbtiles load_metadata read_utfgrid dir kw = Ok out
    ∧ stored_tiles (out_tiles out) ≡ₚ st_tiles st
    ∧ out_metadata out = st_metadata st
    ∧ out_grids out = [] ∧ out_grid_data out = [].
Proof.
  intros Hload Hmd Hfmt Hok Hs Hwms _ Hnd Hgrids.
  set (l := layout_of (st_tiles st)).
  assert (Hl : layout_tiles l ≡ₚ st_tiles st)
    by (apply (layout_fold_tiles (st_tiles st) [] []); done).
  assert (Hndl : NoDup (coords <$> layout_tiles l)) by (by rewrite Hl).
  pose proof (mbtiles_to_disk_tiles st grid_data (kw_scheme kw) (Some fmt) callback
                Hwms Hok Hgrids) as Hexp.
  cbn [default] in Hexp. fold l in Hexp. rewrite Hfmt.
  set (dir := root_files dump_metadata dump_formatter (st_metadata st)
              ++ layout_tree (kw_scheme kw) fmt l) in *.
  assert (Hopen : open_file dir "metadata.json" = Some (dump_metadata (st_metadata st)))
    by reflexivity.
  assert (Hdirs : get_dirs dir = get_dirs (layout_tree (kw_scheme kw) fmt l)).
  { unfold dir, get_dirs, root_files. rewrite omap_app. csimpl.
    destruct (dict_get "formatter" (st_metadata st)) as [f|]; [|done].
    by case_bool_decide. }
  assert (Himp : ∃ out,
            disk_to_mbtiles load_metadata read_utfgrid dir kw = Ok out
            ∧ stored_tiles (out_tiles out) ≡ₚ st_tiles st
            ∧ out_metadata out = st_metadata st
            ∧ out_grids out = [] ∧ out_grid_data out = []).
  { unfold disk_to_mbtiles. rewrite Hopen, Hdirs, Hload, Hfmt.
    cbv [mbind Res_bind or_raise].
    rewrite (insert_metadata_ok (st_metadata st) mbtiles_setup [] [] []) by exact Hmd.
    cbn [app].
    destruct (import_tree_layout read_utfgrid (st_metadata st) (kw_silent kw)
                (kw_scheme kw) fmt l [] (mkLocals None None) Hs Hndl) as (vars' & Hrun).
    change (with_tiles (st_metadata st) [])
      with (mkMbtiles mbtiles_setup (st_metadata st) [] []) in Hrun.
    rewrite Hrun. res_simpl.
    destruct (kw_compression kw); res_simpl.
    - destruct (compress_view 256 (layout_tiles l)) as (cdb & -> & Hview); [lia|done|].
      res_simpl. eexists. split; [done|]. simpl. by rewrite Hview.
    - eexists. split; [done|]. simpl. split_and!; try done.
      etrans; [|exact Hl]. apply reflexive_eq, number_from_row. }
  destruct Himp as (out & Himp & Hrest). by exists dir, out.
Qed.

End ExportProps.

Lemma mbtiles_to_disk_layout_witness :
  let dm : list (string * string) → Blob := λ _, [x7b; x7d] in
  let df : string → Blob := λ _, [] in
  let dg : Blob → list (string * string) → option string := λ _ _, None in
  let enc : string → Blob := λ _, [] in
  Some "xyz" ≠ Some "wms"
  ∧ file_name_ok (default "png" None) = true
  ∧ Forall (λ t, 0 ≤ zoom_level t) (st_tiles sample_store)
  ∧ NoDup (coords <$> st_tiles sample_store)
  ∧ default [] (st_grids sample_store) = []
  ∧ ∃ l,
      mbtiles_to_disk dm df dg enc sample_store None (Some "xyz") None None
      = Some (root_files dm df (st_metadata sample_store)
              ++ layout_tree (Some "xyz") (default "png" None) l)
      ∧ layout_tiles l ≡ₚ st_tiles sample_store.
Proof.
  intros dm df dg enc.
  assert (H1 : Some "xyz" ≠ Some "wms") by discriminate.
  assert (H2 : file_name_ok (default "png" None) = true) by reflexivity.
  assert (H3 : Forall (λ t, 0 ≤ zoom_level t) (st_tiles sample_store))
    by (repeat constructor; simpl; lia).
  assert (H4 : NoDup (coords <$> st_tiles sample_store)).
  { apply (bool_decide_unpack (NoDup (coords <$> st_tiles sample_store))).
    vm_compute. exact I. }
  assert (H5 : default [] (st_grids sample_store) = []) by reflexivity.
  refine (conj H1 (conj H2 (conj H3 (conj H4 (conj H5 _))))).
  exact (mbtiles_to_disk_layout dm df dg enc sample_store None (Some "xyz") None None
           H1 H2 H3 H4 H5).
Defined.

Lemma mbtiles_to_disk_round_trip_witness :
  let dm : list (string * string) → Blob := λ _, [x7b; x7d] in
  let df : string → Blob := λ _, [] in
  let dg : Blob → list (string * string) → option string := λ _ _, None in
  let enc : string → Blob := λ _, [] in
  let lm : Blob → option (list (string * string)) := λ _, Some [("name", "demo")] in
  let ru : Blob → option (Blob * list (string * string)) := λ _, None in
  let kw := mkKwargs true (Some "png") (Some "xyz") true in
  lm (dm (st_metadata sample_store)) = Some (st_metadata sample_store)
  ∧ NoDup (st_metadata sample_store).*1
  ∧ kw_format kw = Some "png" ∧ file_name_ok "png" = true
  ∧ plain_scheme (kw_scheme kw) ∧ kw_scheme kw ≠ Some "wms"
  ∧ Forall (λ t, 0 ≤ zoom_level t) (st_tiles sample_store)
  ∧ NoDup (coords <$> st_tiles sample_store)
  ∧ default [] (st_grids sample_store) = []
  ∧ ∃ dir out,
      mbtiles_to_disk dm df dg enc sample_store None (kw_scheme kw) (kw_format kw) None
      = Some dir
      ∧ disk_to_mbtiles lm ru dir kw = Ok out
      ∧ stored_tiles (out_tiles out) ≡ₚ st_tiles sample_store
      ∧ out_metadata out = st_metadata sample_store
      ∧ out_grids out = [] ∧ out_grid_data out = [].
Proof.
  intros dm df dg enc lm ru kw.
  assert (H1 : lm (dm (st_metadata sample_store)) = Some (st_metadata sample_store))
    by reflexivity.
  assert (H2 : NoDup (st_metadata sample_store).*1).
  { apply (bool_decide_unpack (NoDup (st_metadata sample_store).*1)). vm_compute. exact I. }
  assert (H3 : kw_format kw = Some "png") by reflexivity.
  assert (H4 : file_name_ok "png" = true) by reflexivity.
  assert (H5 : plain_scheme (kw_scheme kw)) by (by split_and!).
  assert (H6 : kw_scheme kw ≠ Some "wms") by discriminate.
  assert (H7 : Forall (λ t, 0 ≤ zoom_level t) (st_tiles sample_store))
    by (repeat constructor; simpl; lia).
  assert (H8 : NoDup (coords <$> st_tiles sample_store)).
  { apply (bool_decide_unpack (NoDup (coords <$> st_tiles sample_store))).
    vm_compute. exact I. }
  assert (H9 : default [] (st_grids sample_store) = []) by reflexivity.
  refine (conj H1 (conj H2 (conj H3 (conj H4 (conj H5 (conj H6
            (conj H7 (conj H8 (conj H9 _))))))))).
  exact (mbtiles_to_disk_round_trip dm df dg enc lm ru sample_store None None "png" kw
           H1 H2 H3 H4 H5 H6 H7 H8 H9).
Defined.
